(** * Zacks Rank Raycast extension: formatters, clients and recents store

    A shallow embedding of the TypeScript sources:

    - the module imported as [./api]: [searchTickers], [getZacksData],
      [getZacksRankColor], [formatNumber], [formatPercent],
      [formatCurrency];
    - [zacks-rank.tsx]: [addToRecents], [getRankEmoji] and the loaders
      of [StockDetail] and [SearchZacksRank];
    - [quick-lookup.tsx]: [addToRecents], the ticker and the loader of
      [QuickLookup];
    - the recents view [RecentStocks]: its loader, [clearRecents] and
      [removeRecent], [formatTimeAgo] and [getAccessories];

    together with the parts of the JavaScript platform these functions
    call: strings of UTF-16 code units, IEEE-754 binary64 numbers with
    their arithmetic, [parseFloat], [Number.prototype.toFixed] and
    [Number::toString], [String.prototype.trim],
    [JSON.parse] and [JSON.stringify], [encodeURIComponent], the
    [LocalStorage] key-value store, [fetch], [Date.now] and
    [console.error].

    Asynchronous functions are modelled by their sequential semantics:
    an [async] function runs from one [await] to the next without
    interleaving, and a rejected promise that is awaited is a thrown
    exception.  Numbers are exact: a binary64 value is kept as its
    sign, mantissa and exponent, and conversions from and to decimal
    text round as the standard prescribes. *)

From Stdlib Require Import ZArith NArith Lia List Bool String Ascii Decimal DecimalN.
From stdpp Require Import gmap.

Import ListNotations.

Local Open Scope N_scope.

(** ** JavaScript strings *)

(** A JavaScript string is a finite sequence of 16-bit code units. *)
Definition jsstring := list N.

(** String literals of the sources, which are all ASCII. *)
Definition js (s : string) : jsstring :=
  List.map N_of_ascii (list_ascii_of_string s).

Module Js.

Definition is_digit (c : N) : bool := (48 <=? c) && (c <=? 57).

(** Decimal digits as code units, through the Standard Library's
    decimal numerals. *)
Fixpoint units_of_uint (d : Decimal.uint) : jsstring :=
  match d with
  | Decimal.Nil => []
  | Decimal.D0 r => 48 :: units_of_uint r
  | Decimal.D1 r => 49 :: units_of_uint r
  | Decimal.D2 r => 50 :: units_of_uint r
  | Decimal.D3 r => 51 :: units_of_uint r
  | Decimal.D4 r => 52 :: units_of_uint r
  | Decimal.D5 r => 53 :: units_of_uint r
  | Decimal.D6 r => 54 :: units_of_uint r
  | Decimal.D7 r => 55 :: units_of_uint r
  | Decimal.D8 r => 56 :: units_of_uint r
  | Decimal.D9 r => 57 :: units_of_uint r
  end.

Definition digit_cons (c : N) (r : Decimal.uint) : Decimal.uint :=
  match c with
  | 48 => Decimal.D0 r | 49 => Decimal.D1 r | 50 => Decimal.D2 r
  | 51 => Decimal.D3 r | 52 => Decimal.D4 r | 53 => Decimal.D5 r
  | 54 => Decimal.D6 r | 55 => Decimal.D7 r | 56 => Decimal.D8 r
  | _ => Decimal.D9 r
  end.

(** The numeral spelled by a string of digits. *)
Fixpoint uint_of_units (s : jsstring) : Decimal.uint :=
  match s with
  | [] => Decimal.Nil
  | c :: r => digit_cons c (uint_of_units r)
  end.

Definition digits_of_N (n : N) : jsstring := units_of_uint (N.to_uint n).
Definition N_of_digits (s : jsstring) : N := N.of_uint (uint_of_units s).

(** The longest prefix of decimal digits, and what follows it. *)
Fixpoint span_digits (s : jsstring) : jsstring * jsstring :=
  match s with
  | c :: r =>
      if is_digit c then let '(ds, rest) := span_digits r in (c :: ds, rest)
      else ([], s)
  | [] => ([], [])
  end.

(** What follows a numeral must not continue it. *)
Definition stops_digits (rest : jsstring) : bool :=
  match rest with
  | c :: _ => negb (is_digit c)
  | [] => true
  end.

Fixpoint starts_with (p s : jsstring) : option jsstring :=
  match p, s with
  | [], _ => Some s
  | a :: p', b :: s' => if a =? b then starts_with p' s' else None
  | _ :: _, [] => None
  end.

Definition eqb (a b : jsstring) : bool := bool_decide (a = b).

Definition repeat_unit (c : N) (n : nat) : jsstring := List.repeat c n.

End Js.

(** ** Numbers: IEEE-754 binary64 *)

Module Float64.

(** A finite number is [(-1)^neg * m * 2^e].  Values are kept in the
    canonical form of the format: [m < 2^53], [-1074 <= e <= 971], and
    [2^52 <= m] unless [e = -1074] (subnormals and the zeros, which are
    [m = 0], [e = -1074]). *)
Inductive t :=
| NaN
| Infinity (neg : bool)
| Finite (neg : bool) (m : N) (e : Z).

Definition eq_dec (x y : t) : {x = y} + {x <> y}.
Proof. decide equality; solve [apply Z.eq_dec | apply N.eq_dec | apply Bool.bool_dec]. Defined.

Definition zero (neg : bool) : t := Finite neg 0 (-1074).

Definition isNaN (x : t) : bool :=
  match x with NaN => true | _ => false end.

Definition is_finite (x : t) : bool :=
  match x with Finite _ _ _ => true | _ => false end.

(** [x >= 0]: false for NaN, true for both zeros. *)
Definition ge_zero (x : t) : bool :=
  match x with
  | NaN => false
  | Infinity neg => negb neg
  | Finite neg m _ => negb neg || (m =? 0)
  end.

(** [x < 0]: false for NaN and for both zeros. *)
Definition lt_zero (x : t) : bool :=
  match x with
  | NaN => false
  | Infinity neg => neg
  | Finite neg m _ => neg && negb (m =? 0)
  end.

Local Open Scope Z_scope.

(** The nearest integer to [n / d], ties to even ([0 <= n], [0 < d]). *)
Definition div_nearest_even (n d : Z) : Z :=
  let q := n / d in
  let r := n mod d in
  if 2 * r <? d then q
  else if d <? 2 * r then q + 1
  else if Z.even q then q else q + 1.

(** [floor (log2 (n / d))] for [0 < n], [0 < d]. *)
Definition log2_ratio (n d : Z) : Z :=
  let l := Z.log2 n - Z.log2 d in
  if 0 <=? l
  then (if d * 2 ^ l <=? n then l else l - 1)
  else (if d <=? n * 2 ^ (- l) then l else l - 1).

(** Round the rational [n / d] ([0 <= n], [0 < d]) to the nearest
    binary64, ties to even, overflowing to infinity. *)
Definition round (neg : bool) (n d : Z) : t :=
  if n =? 0 then zero neg
  else
    let e := Z.max (-1074) (log2_ratio n d - 52) in
    let q := if e <? 0 then div_nearest_even (n * 2 ^ (- e)) d
             else div_nearest_even n (d * 2 ^ e) in
    let '(q, e) := if q =? 2 ^ 53 then (2 ^ 52, e + 1) else (q, e) in
    if 971 <? e then Infinity neg else Finite neg (Z.to_N q) e.

(** The number denoted by the decimal [(-1)^neg * m * 10^e10]. *)
Definition of_decimal (neg : bool) (m : N) (e10 : Z) : t :=
  if e10 <? 0 then round neg (Z.of_N m) (10 ^ (- e10))
  else round neg (Z.of_N m * 10 ^ e10) 1.

Definition of_Z (z : Z) : t := of_decimal (z <? 0) (Z.abs_N z) 0.

(** The integer a finite number denotes, when it denotes one. *)
Definition to_Z (x : t) : option Z :=
  match x with
  | Finite neg m e =>
      let v := if 0 <=? e then Some (Z.of_N m * 2 ^ e)
               else if Z.of_N m mod 2 ^ (- e) =? 0 then Some (Z.of_N m / 2 ^ (- e))
               else None in
      option_map (fun z => if neg then - z else z) v
  | _ => None
  end.

(** The value of a finite number as a fraction [(num, den)]. *)
Definition fraction (m : N) (e : Z) : Z * Z :=
  if 0 <=? e then (Z.of_N m * 2 ^ e, 1) else (Z.of_N m, 2 ^ (- e)).

(** [floor (log10 (n / d))] for [0 < n], [0 < d]: an estimate from the
    binary logarithm, corrected by at most a few steps. *)
Fixpoint log10_adjust (fuel : nat) (n d p : Z) : Z :=
  match fuel with
  | O => p
  | S fuel' =>
      let below := if 0 <=? p then n <? d * 10 ^ p else n * 10 ^ (- p) <? d in
      let above := if 0 <=? p + 1 then d * 10 ^ (p + 1) <=? n
                   else d <=? n * 10 ^ (- (p + 1)) in
      if below then log10_adjust fuel' n d (p - 1)
      else if above then log10_adjust fuel' n d (p + 1)
      else p
  end.

Definition log10_ratio (n d : Z) : Z :=
  log10_adjust 8 n d (log2_ratio n d * 30103 / 100000).

(** The estimate of the decimal exponent from the binary exponent [l]
    is at most one below it. *)
Definition estimate_ok (l : Z) : bool :=
  (10 ^ (l * 30103 / 100000) <=? 2 ^ l)
  && (2 ^ (l + 1) <=? 10 ^ (l * 30103 / 100000 + 2)).

(** [floor (n / (d * 10^p))]. *)
Definition scale10_floor (n d p : Z) : Z :=
  if 0 <=? p then n / (d * 10 ^ p) else (n * 10 ^ (- p)) / d.

(** Is [s1 * 10^p] strictly closer to [n / d] than [s2 * 10^p], for
    [s1 <= n / (d * 10^p) <= s2]?  [Eq] on a tie. *)
Definition closer (n d p s1 s2 : Z) : comparison :=
  let '(n', d') := if 0 <=? p then (n, d * 10 ^ p) else (n * 10 ^ (- p), d) in
  (n' - s1 * d') ?= (s2 * d' - n').

(** The digits [s] and the position [n] of Number::toString for the
    finite positive number [x = m * 2^e] with [k] digits, if [k] digits
    can denote [x]: [10^(k-1) <= s < 10^k] and [s * 10^(n-k)] rounds to
    [x]; of two such [s] the one closer to [x], the even one on a tie. *)
Definition digits_with (m : N) (e : Z) (k : Z) : option (Z * Z) :=
  let x := Finite false m e in
  let '(num, den) := fraction m e in
  let n := log10_ratio num den + 1 in
  let lo := scale10_floor num den (n - k) in
  let hi := lo + 1 in
  let '(hi, nhi) := if hi =? 10 ^ k then (10 ^ (k - 1), n + 1) else (hi, n) in
  let ok_lo := if eq_dec (of_decimal false (Z.to_N lo) (n - k)) x then true else false in
  let ok_hi := if eq_dec (of_decimal false (Z.to_N hi) (nhi - k)) x then true else false in
  match ok_lo, ok_hi with
  | true, false => Some (lo, n)
  | false, true => Some (hi, nhi)
  | false, false => None
  | true, true =>
      match closer num den (n - k) lo (lo + 1) with
      | Lt => Some (lo, n)
      | Gt => Some (hi, nhi)
      | Eq => if Z.even lo then Some (lo, n) else Some (hi, nhi)
      end
  end.

(** The least [k] for which [digits_with] succeeds, trying [k], [k+1],
    ...; seventeen digits denote every binary64 number. *)
Fixpoint shortest_from (fuel : nat) (m : N) (e : Z) (k : Z) : Z * Z * Z :=
  match fuel with
  | O => (0, 0, k)
  | S fuel' =>
      match digits_with m e k with
      | Some (s, n) => (s, n, k)
      | None => shortest_from fuel' m e (k + 1)
      end
  end.

(** Number::toString, radix 10, of a finite positive number: with
    digits [s] (there are [k] of them) and position [n],
    - [k <= n <= 21]: the digits, then [n - k] zeros;
    - [0 < n <= 21]: the digits with a point after the first [n];
    - [-6 < n <= 0]: ["0."], [-n] zeros, the digits;
    - otherwise exponential notation. *)
Definition positive_toString (m : N) (e : Z) : jsstring :=
  let '(s, n, k) := shortest_from 17 m e 1 in
  let ds := Js.digits_of_N (Z.to_N s) in
  if (k <=? n) && (n <=? 21)
  then ds ++ Js.repeat_unit 48%N (Z.to_nat (n - k))
  else if (0 <? n) && (n <=? 21)
  then firstn (Z.to_nat n) ds ++ [46%N] ++ skipn (Z.to_nat n) ds
  else if (-6 <? n) && (n <=? 0)
  then js "0." ++ Js.repeat_unit 48%N (Z.to_nat (- n)) ++ ds
  else
    let ex := (if 0 <=? n - 1 then [43%N] else [45%N])
              ++ Js.digits_of_N (Z.abs_N (n - 1)) in
    if k =? 1 then ds ++ [101%N] ++ ex
    else firstn 1 ds ++ [46%N] ++ skipn 1 ds ++ [101%N] ++ ex.

(** Number::toString(x), radix 10. *)
Definition toString (x : t) : jsstring :=
  match x with
  | NaN => js "NaN"
  | Infinity neg => (if neg then [45%N] else []) ++ js "Infinity"
  | Finite neg m e =>
      if (m =? 0)%N then js "0"
      else (if neg then [45%N] else []) ++ positive_toString m e
  end.

(** Number.prototype.toFixed(f), for [0 <= f <= 100]: not-finite numbers
    and those of magnitude [10^21] or more print as Number::toString;
    otherwise the integer [n] nearest to [x * 10^f], the larger one on a
    tie, printed with [f] digits after the point.  The sign is that of
    [x < 0], so [-0] prints unsigned. *)
Definition toFixed (x : t) (f : N) : jsstring :=
  match x with
  | Finite _ m e =>
      let s := if lt_zero x then [45%N] else [] in
      let '(num, den) := fraction m e in
      if 10 ^ 21 * den <=? num then s ++ toString (Finite false m e)
      else
        let n := (2 * num * 10 ^ Z.of_N f + den) / (2 * den) in
        let ds := Js.digits_of_N (Z.to_N n) in
        if (f =? 0)%N then s ++ ds
        else
          let k := List.length ds in
          let ds := if (k <=? N.to_nat f)%nat
                    then Js.repeat_unit 48%N (N.to_nat f + 1 - k) ++ ds else ds in
          let k := List.length ds in
          s ++ firstn (k - N.to_nat f) ds ++ [46%N] ++ skipn (k - N.to_nat f) ds
  | _ => toString x
  end.

End Float64.

(** ** parseFloat *)

Module ParseFloat.

(** StrWhiteSpaceChar: WhiteSpace and LineTerminator code points. *)
Definition is_white_space (c : N) : bool :=
  match c with
  | 9 | 10 | 11 | 12 | 13 | 32 | 160 | 5760
  | 8192 | 8193 | 8194 | 8195 | 8196 | 8197 | 8198 | 8199 | 8200 | 8201 | 8202
  | 8232 | 8233 | 8239 | 8287 | 12288 | 65279 => true
  | _ => false
  end.

Fixpoint trim_start (s : jsstring) : jsstring :=
  match s with
  | c :: r => if is_white_space c then trim_start r else s
  | [] => []
  end.

(** ExponentPart, when one starts the string: [e] or [E], an optional
    sign, at least one digit.  Its value, or [0] when there is none. *)
Definition exponent_part (s : jsstring) : Z :=
  match s with
  | c :: r =>
      if (c =? 101) || (c =? 69)
      then
        let '(neg, r') := match r with
                          | 45 :: r' => (true, r')
                          | 43 :: r' => (false, r')
                          | _ => (false, r)
                          end in
        let '(ds, _) := Js.span_digits r' in
        let v := Z.of_N (Js.N_of_digits ds) in
        match ds with
        | [] => 0%Z
        | _ => if neg then (- v)%Z else v
        end
      else 0%Z
  | [] => 0%Z
  end.

(** StrUnsignedDecimalLiteral: [Infinity], or digits with an optional
    fraction and an optional exponent, with a digit before or after the
    point.  The longest prefix of the string that is one is converted;
    [NaN] when no prefix is one. *)
Definition unsigned_literal (neg : bool) (s : jsstring) : Float64.t :=
  match Js.starts_with (js "Infinity") s with
  | Some _ => Float64.Infinity neg
  | None =>
      let '(ip, r1) := Js.span_digits s in
      let '(fp, r2) := match r1 with
                       | c :: r => if c =? 46 then Js.span_digits r else ([], r1)
                       | [] => ([], r1)
                       end in
      match ip ++ fp with
      | [] => Float64.NaN
      | ds =>
          Float64.of_decimal neg (Js.N_of_digits ds)
            (exponent_part r2 - Z.of_nat (List.length fp))
      end
  end.

(** StrDecimalLiteral: an optional sign and an unsigned literal. *)
Definition signed_literal (s : jsstring) : Float64.t :=
  match s with
  | c :: r =>
      if c =? 45 then unsigned_literal true r
      else if c =? 43 then unsigned_literal false r
      else unsigned_literal false s
  | [] => unsigned_literal false s
  end.

(** [parseFloat(string)]: leading white space is dropped, then the
    longest prefix that is a StrDecimalLiteral is converted. *)
Definition parseFloat (s : jsstring) : Float64.t :=
  signed_literal (trim_start s).

End ParseFloat.

Import ParseFloat.

(** ** The formatters of [./api] *)

Module Api_format.

(** [!value] for a string: the empty string is the only falsy one. *)
Definition is_empty (s : jsstring) : bool :=
  match s with [] => true | _ => false end.

Definition missing (value : jsstring) : bool :=
  is_empty value || Js.eqb value (js "NA") || Js.eqb value (js "-").

(** [getZacksRankColor] *)
Definition getZacksRankColor (rank : jsstring) : jsstring :=
  if Js.eqb rank (js "1") then js "#00C805"
  else if Js.eqb rank (js "2") then js "#7CB342"
  else if Js.eqb rank (js "3") then js "#FFC107"
  else if Js.eqb rank (js "4") then js "#FF9800"
  else if Js.eqb rank (js "5") then js "#F44336"
  else js "#9E9E9E".

(** [formatNumber] *)
Definition formatNumber (value : jsstring) : jsstring :=
  if missing value then js "N/A" else value.

(** [formatPercent] *)
Definition formatPercent (value : jsstring) : jsstring :=
  if missing value then js "N/A"
  else
    let num := parseFloat value in
    if Float64.isNaN num then value
    else (if Float64.ge_zero num then js "+" else js "")
           ++ Float64.toFixed num 2 ++ js "%".

(** [formatCurrency] *)
Definition formatCurrency (value : jsstring) : jsstring :=
  if missing value then js "N/A"
  else
    let num := parseFloat value in
    if Float64.isNaN num then value
    else js "$" ++ Float64.toFixed num 2.

End Api_format.

Import Api_format.


(** ** Values and exceptions *)

(** The values the program handles: [undefined] and what [JSON.parse]
    produces.  The properties of an object are listed in property order
    (array indices in ascending order, then the other keys in order of
    creation). *)
#[local] Set Warnings "-register-all".

Inductive value :=
| VUndefined
| VNull
| VBool (b : bool)
| VNumber (x : Float64.t)
| VString (s : jsstring)
| VArray (elements : list value)
| VObject (props : list (jsstring * value)).

Inductive exn :=
| SyntaxError
| TypeError
| URIError
| NetworkFailure
| Error (message : jsstring).

(** The completion of an evaluation: a value or a thrown exception. *)
Inductive outcome (A : Type) :=
| Ok (a : A)
| Throw (e : exn).

Arguments Ok {A} a.
Arguments Throw {A} e.

Definition obind {A B} (m : outcome A) (k : A -> outcome B) : outcome B :=
  match m with
  | Ok a => k a
  | Throw e => Throw e
  end.

Module Value.

(** ToBoolean *)
Definition truthy (v : value) : bool :=
  match v with
  | VUndefined | VNull => false
  | VBool b => b
  | VNumber x =>
      match x with
      | Float64.NaN => false
      | Float64.Infinity _ => true
      | Float64.Finite _ m _ => negb (m =? 0)
      end
  | VString s => negb (Api_format.is_empty s)
  | VArray _ | VObject _ => true
  end.

(** [a || b] *)
Definition or_else (a b : value) : value := if truthy a then a else b.

(** [v === s] for a string [s]. *)
Definition is_string (v : value) (s : jsstring) : bool :=
  match v with
  | VString s' => Js.eqb s' s
  | _ => false
  end.

(** [v === 0] *)
Definition is_zero (v : value) : bool :=
  match v with
  | VNumber (Float64.Finite _ 0 _) => true
  | _ => false
  end.

(** An array index: the canonical decimal numeral of an integer below
    [2^32 - 1]. *)
Definition array_index (k : jsstring) : option N :=
  match k with
  | [] => None
  | c :: r =>
      if forallb Js.is_digit k && (negb (c =? 48) || Api_format.is_empty r)
      then let i := Js.N_of_digits k in
           if i <? 2 ^ 32 - 1 then Some i else None
      else None
  end.

Fixpoint lookup (k : jsstring) (props : list (jsstring * value)) : option value :=
  match props with
  | [] => None
  | (k', v) :: rest => if Js.eqb k' k then Some v else lookup k rest
  end.

(** [v[k]] ([v.k]).  Own properties of objects, elements and [length]
    of arrays and strings.  Members inherited from the built-in
    prototypes are functions under names such as [constructor] and
    [toString]; the program reads none of them this way (its keys are
    [symbol], [quotes], [quoteType], [longname], [shortname], [length]
    and upper-cased tickers), and they are not part of the model. *)
Definition get (v : value) (k : jsstring) : outcome value :=
  match v with
  | VUndefined | VNull => Throw TypeError
  | VObject props =>
      match lookup k props with
      | Some x => Ok x
      | None => Ok VUndefined
      end
  | VArray l =>
      match array_index k with
      | Some i => Ok (nth (N.to_nat i) l VUndefined)
      | None =>
          if Js.eqb k (js "length")
          then Ok (VNumber (Float64.of_Z (Z.of_nat (List.length l))))
          else Ok VUndefined
      end
  | VString s =>
      match array_index k with
      | Some i =>
          Ok (match nth_error s (N.to_nat i) with
              | Some c => VString [c]
              | None => VUndefined
              end)
      | None =>
          if Js.eqb k (js "length")
          then Ok (VNumber (Float64.of_Z (Z.of_nat (List.length s))))
          else Ok VUndefined
      end
  | VBool _ | VNumber _ => Ok VUndefined
  end.

(** [CreateDataProperty]: an existing key keeps its place and takes the
    new value; a new array index goes among the indices, in order; any
    other new key goes last. *)
Fixpoint replace (k : jsstring) (v : value) (props : list (jsstring * value))
  : option (list (jsstring * value)) :=
  match props with
  | [] => None
  | (k', v') :: rest =>
      if Js.eqb k' k then Some ((k, v) :: rest)
      else option_map (cons (k', v')) (replace k v rest)
  end.

Fixpoint insert_index (i : N) (k : jsstring) (v : value)
  (props : list (jsstring * value)) : list (jsstring * value) :=
  match props with
  | [] => [(k, v)]
  | (k', v') :: rest =>
      match array_index k' with
      | Some j => if j <? i then (k', v') :: insert_index i k v rest
                  else (k, v) :: props
      | None => (k, v) :: props
      end
  end.

Definition define (k : jsstring) (v : value) (props : list (jsstring * value))
  : list (jsstring * value) :=
  match replace k v props with
  | Some props' => props'
  | None =>
      match array_index k with
      | Some i => insert_index i k v props
      | None => props ++ [(k, v)]
      end
  end.

(** The callbacks of [filter] and [map] may throw; the first exception
    ends the traversal. *)
Fixpoint filter_outcome {A} (f : A -> outcome bool) (l : list A) : outcome (list A) :=
  match l with
  | [] => Ok []
  | a :: r =>
      obind (f a) (fun keep =>
      obind (filter_outcome f r) (fun r' =>
      Ok (if keep then a :: r' else r')))
  end.

(** [v.filter(f)]: only an array has the method. *)
Definition filter (f : value -> outcome bool) (v : value) : outcome (list value) :=
  match v with
  | VArray l => filter_outcome f l
  | _ => Throw TypeError
  end.

End Value.

(** ** JSON *)

Module JSON.

(** *** JSON.stringify *)

Definition hex_digit (n : N) : N := if n <? 10 then 48 + n else 87 + n.

(** UnicodeEscape: [\u] and four lower-case hexadecimal digits. *)
Definition unicode_escape (c : N) : jsstring :=
  [92; 117; hex_digit (c / 4096 mod 16); hex_digit (c / 256 mod 16);
   hex_digit (c / 16 mod 16); hex_digit (c mod 16)].

Definition is_high_surrogate (c : N) : bool := (55296 <=? c) && (c <=? 56319).
Definition is_low_surrogate (c : N) : bool := (56320 <=? c) && (c <=? 57343).

Definition escape_unit (c : N) : jsstring :=
  if c =? 8 then [92; 98]
  else if c =? 9 then [92; 116]
  else if c =? 10 then [92; 110]
  else if c =? 12 then [92; 102]
  else if c =? 13 then [92; 114]
  else if c =? 34 then [92; 34]
  else if c =? 92 then [92; 92]
  else if (c <? 32) || is_high_surrogate c || is_low_surrogate c
  then unicode_escape c
  else [c].

(** The characters of QuoteJSONString between the quotes: a surrogate
    pair is one code point and is copied; a lone surrogate is escaped. *)
Fixpoint quote_body (s : jsstring) : jsstring :=
  match s with
  | [] => []
  | c :: r =>
      if is_high_surrogate c
      then match r with
           | d :: r' =>
               if is_low_surrogate d then c :: d :: quote_body r'
               else escape_unit c ++ quote_body r
           | [] => escape_unit c
           end
      else escape_unit c ++ quote_body r
  end.

Definition quote (s : jsstring) : jsstring := 34 :: quote_body s ++ [34].

Fixpoint join (sep : jsstring) (l : list jsstring) : jsstring :=
  match l with
  | [] => []
  | [a] => a
  | a :: r => a ++ sep ++ join sep r
  end.

(** SerializeJSONProperty: [None] is [undefined]. *)
Fixpoint serialize (v : value) : option jsstring :=
  match v with
  | VUndefined => None
  | VNull => Some (js "null")
  | VBool true => Some (js "true")
  | VBool false => Some (js "false")
  | VNumber x =>
      Some (if Float64.is_finite x then Float64.toString x else js "null")
  | VString s => Some (quote s)
  | VArray l =>
      let fix elements (l : list value) : list jsstring :=
        match l with
        | [] => []
        | e :: r =>
            match serialize e with
            | Some t => t
            | None => js "null"
            end :: elements r
        end in
      Some ([91] ++ join [44] (elements l) ++ [93])
  | VObject props =>
      let fix members (ps : list (jsstring * value)) : list jsstring :=
        match ps with
        | [] => []
        | (k, e) :: r =>
            match serialize e with
            | Some t => (quote k ++ [58] ++ t) :: members r
            | None => members r
            end
        end in
      Some ([123] ++ join [44] (members props) ++ [125])
  end.

Definition serialize_element (v : value) : jsstring :=
  match serialize v with
  | Some t => t
  | None => js "null"
  end.

(** [JSON.stringify(a)] for an array [a]. *)
Definition stringify_array (l : list value) : jsstring :=
  [91] ++ join [44] (List.map serialize_element l) ++ [93].

(** *** JSON.parse *)

Definition is_ws (c : N) : bool :=
  match c with
  | 9 | 10 | 13 | 32 => true
  | _ => false
  end.

Fixpoint skip_ws (s : jsstring) : jsstring :=
  match s with
  | c :: r => if is_ws c then skip_ws r else s
  | [] => []
  end.

Definition hex_value (c : N) : option N :=
  if Js.is_digit c then Some (c - 48)
  else if (97 <=? c) && (c <=? 102) then Some (c - 87)
  else if (65 <=? c) && (c <=? 70) then Some (c - 55)
  else None.

Definition hex4 (a b c d : N) : option N :=
  match hex_value a, hex_value b, hex_value c, hex_value d with
  | Some x, Some y, Some z, Some w => Some (x * 4096 + y * 256 + z * 16 + w)
  | _, _, _, _ => None
  end.

Definition cons_parsed (c : N) (p : option (jsstring * jsstring))
  : option (jsstring * jsstring) :=
  option_map (fun '(t, rest) => (c :: t, rest)) p.

(** The characters of a JSON string after its opening quote, and what
    follows the closing quote. *)
Fixpoint parse_string (s : jsstring) : option (jsstring * jsstring) :=
  match s with
  | [] => None
  | c :: r =>
      if c =? 34 then Some ([], r)
      else if c =? 92
      then match r with
           | [] => None
           | e :: r1 =>
               match e with
               | 34 => cons_parsed 34 (parse_string r1)
               | 92 => cons_parsed 92 (parse_string r1)
               | 47 => cons_parsed 47 (parse_string r1)
               | 98 => cons_parsed 8 (parse_string r1)
               | 102 => cons_parsed 12 (parse_string r1)
               | 110 => cons_parsed 10 (parse_string r1)
               | 114 => cons_parsed 13 (parse_string r1)
               | 116 => cons_parsed 9 (parse_string r1)
               | 117 =>
                   match r1 with
                   | a :: b :: c :: d :: r2 =>
                       match hex4 a b c d with
                       | Some u => cons_parsed u (parse_string r2)
                       | None => None
                       end
                   | _ => None
                   end
               | _ => None
               end
           end
      else if c <? 32 then None
      else cons_parsed c (parse_string r)
  end.

(** A JSON number: an optional minus sign; the integer part, [0] or
    digits that do not start with [0]; an optional fraction, a point
    and at least one digit; an optional exponent, [e] or [E], an
    optional sign and at least one digit. *)
Definition parse_minus (s : jsstring) : bool * jsstring :=
  match s with
  | c :: r => if c =? 45 then (true, r) else (false, s)
  | [] => (false, s)
  end.

Definition integer_part_ok (ip : jsstring) : bool :=
  match ip with
  | [] => false
  | c :: r => negb (c =? 48) || Api_format.is_empty r
  end.

Definition parse_fraction (s : jsstring) : option (jsstring * jsstring) :=
  match s with
  | c :: r =>
      if c =? 46
      then let '(fp, r2) := Js.span_digits r in
           match fp with
           | [] => None
           | _ => Some (fp, r2)
           end
      else Some ([], s)
  | [] => Some ([], s)
  end.

Definition parse_exponent_sign (s : jsstring) : bool * jsstring :=
  match s with
  | c :: r => if c =? 45 then (true, r) else if c =? 43 then (false, r)
              else (false, s)
  | [] => (false, s)
  end.

Definition parse_exponent (s : jsstring) : option (Z * jsstring) :=
  match s with
  | c :: r =>
      if (c =? 101) || (c =? 69)
      then let '(neg, r') := parse_exponent_sign r in
           let '(ds, r3) := Js.span_digits r' in
           match ds with
           | [] => None
           | _ =>
               let v := Z.of_N (Js.N_of_digits ds) in
               Some (if neg then (- v)%Z else v, r3)
           end
      else Some (0%Z, s)
  | [] => Some (0%Z, s)
  end.

Definition parse_number (s : jsstring) : option (Float64.t * jsstring) :=
  let '(neg, s1) := parse_minus s in
  let '(ip, r1) := Js.span_digits s1 in
  if integer_part_ok ip
  then match parse_fraction r1 with
       | Some (fp, r2) =>
           match parse_exponent r2 with
           | Some (ex, r3) =>
               Some (Float64.of_decimal neg (Js.N_of_digits (ip ++ fp))
                       (ex - Z.of_nat (List.length fp)), r3)
           | None => None
           end
       | None => None
       end
  else None.

Inductive parse_result (A : Type) :=
| Parsed (a : A) (rest : jsstring)
| Invalid
| OutOfFuel.

Arguments Parsed {A} a rest.
Arguments Invalid {A}.
Arguments OutOfFuel {A}.

Definition object_of_members (ms : list (jsstring * value)) : value :=
  VObject (fold_left (fun props '(k, v) => Value.define k v props) ms []).

(** The text after the character [c], when the text starts with it. *)
Definition after (c : N) (s : jsstring) : option jsstring :=
  match s with
  | c' :: rest => if c' =? c then Some rest else None
  | [] => None
  end.

(** Recursive descent over the text.  [parse_elements] reads the
    elements of an array up to its closing bracket, [parse_members] the
    members of an object up to its closing brace.  The recursion is
    bounded by [fuel]; [parse] supplies enough of it. *)
Fixpoint parse_value (fuel : nat) (s : jsstring) {struct fuel} : parse_result value :=
  match fuel with
  | O => OutOfFuel
  | S f =>
      match skip_ws s with
      | [] => Invalid
      | c :: r =>
          if c =? 34
          then match parse_string r with
               | Some (t, rest) => Parsed (VString t) rest
               | None => Invalid
               end
          else if c =? 91
          then match after 93 (skip_ws r) with
               | Some rest => Parsed (VArray []) rest
               | None =>
                   match parse_elements f (skip_ws r) with
                   | Parsed l rest => Parsed (VArray l) rest
                   | Invalid => Invalid
                   | OutOfFuel => OutOfFuel
                   end
               end
          else if c =? 123
          then match after 125 (skip_ws r) with
               | Some rest => Parsed (VObject []) rest
               | None =>
                   match parse_members f (skip_ws r) with
                   | Parsed ms rest => Parsed (object_of_members ms) rest
                   | Invalid => Invalid
                   | OutOfFuel => OutOfFuel
                   end
               end
          else
            match Js.starts_with (js "true") (c :: r) with
            | Some rest => Parsed (VBool true) rest
            | None =>
                match Js.starts_with (js "false") (c :: r) with
                | Some rest => Parsed (VBool false) rest
                | None =>
                    match Js.starts_with (js "null") (c :: r) with
                    | Some rest => Parsed VNull rest
                    | None =>
                        match parse_number (c :: r) with
                        | Some (x, rest) => Parsed (VNumber x) rest
                        | None => Invalid
                        end
                    end
                end
            end
      end
  end
with parse_elements (fuel : nat) (s : jsstring) {struct fuel}
  : parse_result (list value) :=
  match fuel with
  | O => OutOfFuel
  | S f =>
      match parse_value f s with
      | Parsed v rest =>
          match after 44 (skip_ws rest) with
          | Some r =>
              match parse_elements f r with
              | Parsed l rest' => Parsed (v :: l) rest'
              | Invalid => Invalid
              | OutOfFuel => OutOfFuel
              end
          | None =>
              match after 93 (skip_ws rest) with
              | Some r => Parsed [v] r
              | None => Invalid
              end
          end
      | Invalid => Invalid
      | OutOfFuel => OutOfFuel
      end
  end
with parse_members (fuel : nat) (s : jsstring) {struct fuel}
  : parse_result (list (jsstring * value)) :=
  match fuel with
  | O => OutOfFuel
  | S f =>
      match after 34 (skip_ws s) with
      | Some r =>
          match parse_string r with
          | Some (k, rest) =>
              match after 58 (skip_ws rest) with
              | Some r2 =>
                  match parse_value f r2 with
                  | Parsed v rest2 =>
                      match after 44 (skip_ws rest2) with
                      | Some r3 =>
                          match parse_members f r3 with
                          | Parsed ms rest3 => Parsed ((k, v) :: ms) rest3
                          | Invalid => Invalid
                          | OutOfFuel => OutOfFuel
                          end
                      | None =>
                          match after 125 (skip_ws rest2) with
                          | Some r3 => Parsed [(k, v)] r3
                          | None => Invalid
                          end
                      end
                  | Invalid => Invalid
                  | OutOfFuel => OutOfFuel
                  end
              | None => Invalid
              end
          | None => Invalid
          end
      | None => Invalid
      end
  end.

Definition parse_fuel (s : jsstring) : nat := 2 * List.length s + 1.

(** [JSON.parse(text)]: one value, with white space around it and
    nothing else; a SyntaxError otherwise. *)
Definition parse (s : jsstring) : outcome value :=
  match parse_value (parse_fuel s) s with
  | Parsed v rest =>
      match skip_ws rest with
      | [] => Ok v
      | _ => Throw SyntaxError
      end
  | Invalid | OutOfFuel => Throw SyntaxError
  end.

End JSON.

(** ** encodeURIComponent *)

Module URI.

(** The characters left as they are: letters, digits and [-_.!~*'()]. *)
Definition is_unreserved (c : N) : bool :=
  ((65 <=? c) && (c <=? 90)) || ((97 <=? c) && (c <=? 122)) || Js.is_digit c
  || match c with
     | 45 | 95 | 46 | 33 | 126 | 42 | 39 | 40 | 41 => true
     | _ => false
     end.

Definition upper_hex_digit (n : N) : N := if n <? 10 then 48 + n else 55 + n.

Definition percent (byte : N) : jsstring :=
  [37; upper_hex_digit (byte / 16); upper_hex_digit (byte mod 16)].

(** The UTF-8 encoding of a code point, each octet percent-encoded. *)
Definition encode_code_point (cp : N) : jsstring :=
  if cp <? 128 then percent cp
  else if cp <? 2048 then percent (192 + cp / 64) ++ percent (128 + cp mod 64)
  else if cp <? 65536
  then percent (224 + cp / 4096) ++ percent (128 + cp / 64 mod 64)
       ++ percent (128 + cp mod 64)
  else percent (240 + cp / 262144) ++ percent (128 + cp / 4096 mod 64)
       ++ percent (128 + cp / 64 mod 64) ++ percent (128 + cp mod 64).

(** [encodeURIComponent(s)]; a surrogate that is not part of a pair is
    a URIError. *)
Fixpoint encodeURIComponent (s : jsstring) : outcome jsstring :=
  match s with
  | [] => Ok []
  | c :: r =>
      if is_unreserved c
      then obind (encodeURIComponent r) (fun t => Ok (c :: t))
      else if JSON.is_low_surrogate c then Throw URIError
      else if JSON.is_high_surrogate c
      then match r with
           | d :: r' =>
               if JSON.is_low_surrogate d
               then obind (encodeURIComponent r') (fun t =>
                    Ok (encode_code_point
                          ((c - 55296) * 1024 + (d - 56320) + 65536) ++ t))
               else Throw URIError
           | [] => Throw URIError
           end
      else obind (encodeURIComponent r) (fun t => Ok (encode_code_point c ++ t))
  end.

End URI.

(** ** The world the program runs in *)

Record Request := {
  url : jsstring;
  headers : list (jsstring * jsstring)
}.

Record Response := {
  status : N;
  body : jsstring
}.

(** What a [fetch] comes to: the promise is rejected (no connection, a
    failed name look-up, ...), or a response arrives. *)
Inductive fetch_outcome :=
| NetworkError
| Responded (r : Response).

(** - [storage]: the host's [LocalStorage];
    - [clock]: the time [Date.now()] reads, in milliseconds;
    - [network]: how the remote endpoints answer;
    - [requests]: the requests issued so far, the latest first;
    - [console]: the [console.error] lines, the latest first;
    - [toasts]: the toasts shown, the latest first;
    - [revalidations]: how often the recents view was asked to reload. *)
Record World := {
  storage : gmap jsstring jsstring;
  clock : Z;
  network : Request -> fetch_outcome;
  requests : list Request;
  console : list (jsstring * exn);
  toasts : list jsstring;
  revalidations : nat
}.

Definition set_storage (f : gmap jsstring jsstring -> gmap jsstring jsstring)
  (w : World) : World :=
  {| storage := f (storage w); clock := clock w; network := network w;
     requests := requests w; console := console w; toasts := toasts w;
     revalidations := revalidations w |}.

Definition set_clock (t : Z) (w : World) : World :=
  {| storage := storage w; clock := t; network := network w;
     requests := requests w; console := console w; toasts := toasts w;
     revalidations := revalidations w |}.

Definition log_request (r : Request) (w : World) : World :=
  {| storage := storage w; clock := clock w; network := network w;
     requests := r :: requests w; console := console w; toasts := toasts w;
     revalidations := revalidations w |}.

Definition log_console (line : jsstring * exn) (w : World) : World :=
  {| storage := storage w; clock := clock w; network := network w;
     requests := requests w; console := line :: console w; toasts := toasts w;
     revalidations := revalidations w |}.

Definition log_toast (title : jsstring) (w : World) : World :=
  {| storage := storage w; clock := clock w; network := network w;
     requests := requests w; console := console w; toasts := title :: toasts w;
     revalidations := revalidations w |}.

Definition count_revalidation (w : World) : World :=
  {| storage := storage w; clock := clock w; network := network w;
     requests := requests w; console := console w; toasts := toasts w;
     revalidations := S (revalidations w) |}.

(** A computation: from a world to a completion and the world after. *)
Definition M (A : Type) : Type := World -> outcome A * World.

Definition ret {A} (a : A) : M A := fun w => (Ok a, w).

Definition throw {A} (e : exn) : M A := fun w => (Throw e, w).

Definition bind {A B} (m : M A) (k : A -> M B) : M B :=
  fun w =>
    match m w with
    | (Ok a, w') => k a w'
    | (Throw e, w') => (Throw e, w')
    end.

Definition lift {A} (o : outcome A) : M A := fun w => (o, w).

(** [try { m } catch (e) { h e }] *)
Definition try_catch {A} (m : M A) (h : exn -> M A) : M A :=
  fun w =>
    match m w with
    | (Ok a, w') => (Ok a, w')
    | (Throw e, w') => h e w'
    end.

Notation "'let*' x ':=' m 'in' k" := (bind m (fun x => k))
  (at level 10, x pattern, m at level 100, k at level 200).
Notation "m ';;' k" := (bind m (fun _ => k))
  (at level 100, k at level 200, right associativity).

Fixpoint mapM {A B} (f : A -> M B) (l : list A) : M (list B) :=
  match l with
  | [] => ret []
  | a :: r =>
      let* b := f a in
      let* bs := mapM f r in
      ret (b :: bs)
  end.

Fixpoint map_outcome {A B} (f : A -> outcome B) (l : list A) : outcome (list B) :=
  match l with
  | [] => Ok []
  | a :: r =>
      obind (f a) (fun b => obind (map_outcome f r) (fun bs => Ok (b :: bs)))
  end.

Module LocalStorage.

Definition getItem (key : jsstring) : M (option jsstring) :=
  fun w => (Ok (storage w !! key), w).

Definition setItem (key value : jsstring) : M unit :=
  fun w => (Ok tt, set_storage (insert key value) w).

Definition removeItem (key : jsstring) : M unit :=
  fun w => (Ok tt, set_storage (delete key) w).

End LocalStorage.

Definition Date_now : M Float64.t :=
  fun w => (Ok (Float64.of_Z (clock w)), w).

(** [fetch(url, { headers })]: the request is recorded, and the network
    decides. *)
Definition fetch (url : jsstring) (headers : list (jsstring * jsstring))
  : M Response :=
  fun w =>
    let r := {| url := url; headers := headers |} in
    match network w r with
    | NetworkError => (Throw NetworkFailure, log_request r w)
    | Responded resp => (Ok resp, log_request r w)
    end.

(** [response.ok] *)
Definition ok (r : Response) : bool := (200 <=? status r) && (status r <=? 299).

(** [response.json()] *)
Definition json (r : Response) : M value := lift (JSON.parse (body r)).

Definition console_error (label : jsstring) (e : exn) : M unit :=
  fun w => (Ok tt, log_console (label, e) w).

Definition showToast (title : jsstring) : M unit :=
  fun w => (Ok tt, log_toast title w).

Definition revalidate : M unit :=
  fun w => (Ok tt, count_revalidation w).

(** ** The clients of [./api] *)

Module Api.

Definition YAHOO_SEARCH_BASE : jsstring :=
  js "https://query1.finance.yahoo.com/v1/finance/search".
Definition ZACKS_QUOTE_BASE : jsstring :=
  js "https://quote-feed.zacks.com/index".

Record TickerSearchResult := {
  symbol : value;
  name : value
}.

(** [(q) => q.quoteType === "EQUITY" || q.quoteType === "ETF"] *)
Definition is_stock (q : value) : outcome bool :=
  obind (Value.get q (js "quoteType")) (fun t =>
  if Value.is_string t (js "EQUITY") then Ok true
  else
    obind (Value.get q (js "quoteType")) (fun t' =>
    Ok (Value.is_string t' (js "ETF")))).

(** [(q) => ({ symbol: q.symbol,
                name: q.longname || q.shortname || q.symbol })] *)
Definition to_result (q : value) : outcome TickerSearchResult :=
  obind (Value.get q (js "symbol")) (fun sym =>
  obind (Value.get q (js "longname")) (fun long =>
  obind (if Value.truthy long then Ok long
         else
           obind (Value.get q (js "shortname")) (fun short =>
           if Value.truthy short then Ok short
           else Value.get q (js "symbol"))) (fun nm =>
  Ok {| symbol := sym; name := nm |}))).

(** [searchTickers] *)
Definition searchTickers (query : jsstring) : M (list TickerSearchResult) :=
  if Api_format.is_empty query || (List.length query <? 1)%nat then ret []
  else
    try_catch
      (let* q := lift (URI.encodeURIComponent query) in
       let url := YAHOO_SEARCH_BASE ++ js "?q=" ++ q
                  ++ js "&quotesCount=10&newsCount=0&listsCount=0" in
       let* response :=
         fetch url
           [(js "User-Agent",
             js "Mozilla/5.0 (Macintosh; Intel Mac OS X 10_15_7)")] in
       if negb (ok response)
       then throw (Error (js "Search failed: " ++ Js.digits_of_N (status response)))
       else
         let* data := json response in
         let* quotes := lift (Value.get data (js "quotes")) in
         let* kept := lift (Value.filter is_stock quotes) in
         lift (map_outcome to_result kept))
      (fun error =>
         console_error (js "Ticker search error:") error;;
         ret []).

Section Platform.

(** [String.prototype.toUpperCase], which rests on the case mappings of
    the Unicode character database. *)
Variable toUpperCase : jsstring -> jsstring.

(** [ticker.toUpperCase()]: only a string has the method. *)
Definition upper (ticker : value) : outcome jsstring :=
  match ticker with
  | VString s => Ok (toUpperCase s)
  | _ => Throw TypeError
  end.

(** [getZacksData] *)
Definition getZacksData (ticker : value) : M value :=
  try_catch
    (let* t := lift (upper ticker) in
     let* q := lift (URI.encodeURIComponent t) in
     let* response := fetch (ZACKS_QUOTE_BASE ++ js "?t=" ++ q) [] in
     if negb (ok response)
     then throw (Error (js "Zacks API failed: " ++ Js.digits_of_N (status response)))
     else
       let* data := json response in
       let* key := lift (upper ticker) in
       let* tickerData := lift (Value.get data key) in
       ret (Value.or_else tickerData VNull))
    (fun error =>
       console_error (js "Zacks API error:") error;;
       ret VNull).

End Platform.

End Api.

(** ** The recents store *)

Definition RECENTS_KEY : jsstring := js "recent-tickers".
Definition MAX_RECENTS : nat := 10.

(** The entry [{ symbol, name, timestamp }]. *)
Definition recent_entry (symbol name : jsstring) (timestamp : Float64.t) : value :=
  VObject [(js "symbol", VString symbol); (js "name", VString name);
           (js "timestamp", VNumber timestamp)].

(** [(r) => r.symbol !== symbol] *)
Definition other_symbol (symbol : jsstring) (r : value) : outcome bool :=
  obind (Value.get r (js "symbol")) (fun s =>
  Ok (negb (Value.is_string s symbol))).

(** [stored ? JSON.parse(stored) : []] *)
Definition parse_stored (stored : option jsstring) : M value :=
  match stored with
  | Some s => if Api_format.is_empty s then ret (VArray []) else lift (JSON.parse s)
  | None => ret (VArray [])
  end.

(** *** zacks-rank.tsx *)

Module ZacksRank.

(** [addToRecents] *)
Definition addToRecents (symbol name : jsstring) : M unit :=
  let* stored := LocalStorage.getItem RECENTS_KEY in
  let* recents := parse_stored stored in
  let* filtered := lift (Value.filter (other_symbol symbol) recents) in
  let* now := Date_now in
  let filtered := recent_entry symbol name now :: filtered in
  let trimmed := firstn MAX_RECENTS filtered in
  LocalStorage.setItem RECENTS_KEY (JSON.stringify_array trimmed).

End ZacksRank.

(** *** quick-lookup.tsx *)

Module QuickLookup.

(** [addToRecents] *)
Definition addToRecents (symbol name : jsstring) : M unit :=
  let* stored := LocalStorage.getItem RECENTS_KEY in
  let* recents := parse_stored stored in
  let* filtered := lift (Value.filter (other_symbol symbol) recents) in
  let* now := Date_now in
  let filtered := recent_entry symbol name now :: filtered in
  let trimmed := firstn MAX_RECENTS filtered in
  LocalStorage.setItem RECENTS_KEY (JSON.stringify_array trimmed).

End QuickLookup.

(** *** The recents view, [RecentStocks] *)

Module RecentStocks.

(** [{ ...recent, zacksData }] *)
Record RecentWithData := {
  recent : value;
  zacksData : value
}.

Section Platform.

Variable toUpperCase : jsstring -> jsstring.

(** The loader handed to [useCachedPromise]: the list the view shows.
    The quotes are requested in the order of the list. *)
Definition load : M (list RecentWithData) :=
  let* stored := LocalStorage.getItem RECENTS_KEY in
  let* recents := parse_stored stored in
  let* len := lift (Value.get recents (js "length")) in
  if Value.is_zero len then ret []
  else
    let* elements := lift (match recents with
                           | VArray l => Ok l
                           | _ => Throw TypeError
                           end) in
    mapM (fun r =>
            try_catch
              (let* sym := lift (Value.get r (js "symbol")) in
               let* data := Api.getZacksData toUpperCase sym in
               ret {| recent := r; zacksData := data |})
              (fun _ => ret {| recent := r; zacksData := VNull |}))
         elements.

End Platform.

(** [clearRecents] *)
Definition clearRecents : M unit :=
  LocalStorage.removeItem RECENTS_KEY;;
  showToast (js "Cleared recent stocks");;
  revalidate.

(** [removeRecent] *)
Definition removeRecent (symbol : jsstring) : M unit :=
  let* stored := LocalStorage.getItem RECENTS_KEY in
  let* current := parse_stored stored in
  let* filtered := lift (Value.filter (other_symbol symbol) current) in
  LocalStorage.setItem RECENTS_KEY (JSON.stringify_array filtered);;
  showToast (js "Removed " ++ symbol);;
  revalidate.

End RecentStocks.

(** *** The stored list, as the types of the program see it *)

Module Recents.

(** Modelled from the spec: the type [RecentTicker] of [types.ts], which
    the sources import: [{ symbol: string, name: string, timestamp:
    integer-milliseconds }]. *)
Record RecentTicker := {
  symbol : jsstring;
  name : jsstring;
  timestamp : Z
}.

(** The value an entry is at run time. *)
Definition to_value (r : RecentTicker) : value :=
  recent_entry (symbol r) (name r) (Float64.of_Z (timestamp r)).

(** The text the store holds for a list: [JSON.stringify] of it. *)
Definition stored (l : list RecentTicker) : jsstring :=
  JSON.stringify_array (List.map to_value l).

(** A time value: [Date.now()] is an integer number of milliseconds, at
    most [8.64e15] in magnitude. *)
Definition time_value (t : Z) : Prop := (Z.abs t <= 8640000000000000)%Z.

Definition well_formed (l : list RecentTicker) : Prop :=
  Forall (fun r => time_value (timestamp r)) l.

(** [r.symbol !== symbol], on an entry. *)
Definition other (sym : jsstring) (r : RecentTicker) : bool :=
  negb (Js.eqb (symbol r) sym).

(** What upsert should leave in the store: the entries with another
    symbol, behind the new one, cut to ten. *)
Definition upserted (sym nm : jsstring) (now : Z) (l : list RecentTicker)
  : list RecentTicker :=
  firstn MAX_RECENTS
    ({| symbol := sym; name := nm; timestamp := now |} :: List.filter (other sym) l).

(** What remove should leave in the store: the entries with another
    symbol. *)
Definition removed (sym : jsstring) (l : list RecentTicker) : list RecentTicker :=
  List.filter (other sym) l.

Definition symbols (l : list RecentTicker) : list jsstring := List.map symbol l.

End Recents.

(** *** Sequences of store operations *)

Module History.

(** What the user can do to the store: look a ticker up, from either
    command (each has its own [addToRecents]), remove an entry, clear
    the list. *)
Inductive action :=
| Upsert (quick_lookup : bool) (symbol name : jsstring)
| Remove (symbol : jsstring)
| Clear.

Definition perform (a : action) : M unit :=
  match a with
  | Upsert false symbol name => ZacksRank.addToRecents symbol name
  | Upsert true symbol name => QuickLookup.addToRecents symbol name
  | Remove symbol => RecentStocks.removeRecent symbol
  | Clear => RecentStocks.clearRecents
  end.

(** Run the actions in order, each at its own time. *)
Fixpoint run (h : list (Z * action)) (w : World) : World :=
  match h with
  | [] => w
  | (t, a) :: h' => run h' (snd (perform a (set_clock t w)))
  end.

(** The store holds the list [l]: its text is under the key, or the key
    is absent and the list is empty. *)
Definition holds (w : World) (l : list Recents.RecentTicker) : Prop :=
  storage w !! RECENTS_KEY = Some (Recents.stored l)
  \/ (storage w !! RECENTS_KEY = None /\ l = []).

Definition timed (h : list (Z * action)) : Prop :=
  Forall (fun ta => Recents.time_value (fst ta)) h.

(** What every store reached from an empty one satisfies. *)
Definition invariant (w : World) : Prop :=
  exists l, holds w l /\ Recents.well_formed l
            /\ List.NoDup (Recents.symbols l) /\ (List.length l <= 10)%nat.

(** The upsert that writes the entry [e]. *)
Definition upsert_of (quick : bool) (e : Recents.RecentTicker) : Z * action :=
  (Recents.timestamp e, Upsert quick (Recents.symbol e) (Recents.name e)).

End History.

(** *** The search response, as the types of the program see it *)

Module Yahoo.

(** [interface YahooQuote] *)
Record YahooQuote := {
  symbol : jsstring;
  shortname : option jsstring;
  longname : option jsstring;
  quoteType : jsstring;
  exchange : jsstring
}.

Definition optional (k : jsstring) (v : option jsstring)
  : list (jsstring * value) :=
  match v with
  | Some s => [(k, VString s)]
  | None => []
  end.

(** The value a quote is at run time; an absent optional field is an
    absent property. *)
Definition to_value (q : YahooQuote) : value :=
  VObject ([(js "symbol", VString (symbol q))]
           ++ optional (js "shortname") (shortname q)
           ++ optional (js "longname") (longname q)
           ++ [(js "quoteType", VString (quoteType q));
               (js "exchange", VString (exchange q))]).

(** [interface YahooSearchResponse] *)
Definition response_value (quotes : list YahooQuote) : value :=
  VObject [(js "quotes", VArray (List.map to_value quotes))].

(** A value has the type [YahooQuote]: an object with these fields,
    in any order and among any others. *)
Definition is_quote (v : value) (q : YahooQuote) : Prop :=
  exists props,
    v = VObject props
    /\ Value.lookup (js "symbol") props = Some (VString (symbol q))
    /\ Value.lookup (js "shortname") props = option_map VString (shortname q)
    /\ Value.lookup (js "longname") props = option_map VString (longname q)
    /\ Value.lookup (js "quoteType") props = Some (VString (quoteType q))
    /\ Value.lookup (js "exchange") props = Some (VString (exchange q)).

(** A well-formed search response: a value of the type
    [YahooSearchResponse]. *)
Definition is_response (data : value) (quotes : list YahooQuote) : Prop :=
  exists props vs,
    data = VObject props
    /\ Value.lookup (js "quotes") props = Some (VArray vs)
    /\ Forall2 is_quote vs quotes.

Definition is_equity_or_etf (q : YahooQuote) : bool :=
  Js.eqb (quoteType q) (js "EQUITY") || Js.eqb (quoteType q) (js "ETF").

(** [a || b] on optional strings: the first that is present and not
    empty. *)
Definition nonempty (s : option jsstring) : option jsstring :=
  match s with
  | Some (c :: r) => Some (c :: r)
  | _ => None
  end.

(** The name the code gives a result. *)
Definition display_name (q : YahooQuote) : jsstring :=
  match nonempty (longname q), nonempty (shortname q) with
  | Some l, _ => l
  | None, Some s => s
  | None, None => symbol q
  end.

(** The name as the specification words it: the long name if present,
    else the short name if present, else the symbol. *)
Definition name_if_present (q : YahooQuote) : jsstring :=
  match longname q, shortname q with
  | Some l, _ => l
  | None, Some s => s
  | None, None => symbol q
  end.

Definition result_of (nm : YahooQuote -> jsstring) (q : YahooQuote)
  : Api.TickerSearchResult :=
  {| Api.symbol := VString (symbol q); Api.name := VString (nm q) |}.

End Yahoo.

(** An upper-casing function for plain ASCII tickers, to run the clients
    on examples. *)
Definition ascii_toUpperCase (s : jsstring) : jsstring :=
  List.map (fun c => if (97 <=? c) && (c <=? 122) then c - 32 else c) s.

(** *** Numeric prefixes *)

Module Numeral.

(** A numeral without exponent: a sign or none, digits, and a fraction
    or none. *)
Definition text (sign ip : jsstring) (frac : option jsstring) : jsstring :=
  sign ++ ip ++ match frac with
                | Some fp => 46 :: fp
                | None => []
                end.

Definition fraction_digits (frac : option jsstring) : jsstring :=
  match frac with
  | Some fp => fp
  | None => []
  end.

(** The number it denotes. *)
Definition number (sign ip : jsstring) (frac : option jsstring) : Float64.t :=
  Float64.of_decimal (Js.eqb sign (js "-"))
    (Js.N_of_digits (ip ++ fraction_digits frac))
    (- Z.of_nat (List.length (fraction_digits frac))).

Definition is_sign (s : jsstring) : bool :=
  Js.eqb s (js "") || Js.eqb s (js "-") || Js.eqb s (js "+").

Definition all_digits (s : jsstring) : bool := forallb Js.is_digit s.

(** Would the text [rest] continue a numeral it follows: does it start
    with a digit, a point, or [e] or [E]? *)
Definition continues (rest : jsstring) : bool :=
  match rest with
  | c :: _ => Js.is_digit c || (c =? 46) || (c =? 101) || (c =? 69)
  | [] => false
  end.

(** Does the string start with an unsigned numeral: [Infinity], a
    digit, or a point and a digit? *)
Definition unsigned_starts (s : jsstring) : bool :=
  match Js.starts_with (js "Infinity") s with
  | Some _ => true
  | None =>
      match s with
      | c :: r =>
          Js.is_digit c
          || ((c =? 46) && match r with
                           | d :: _ => Js.is_digit d
                           | [] => false
                           end)
      | [] => false
      end
  end.

(** Does the string start with a numeral: white space or none, a sign or
    none, and an unsigned numeral? *)
Definition starts (s : jsstring) : bool :=
  match trim_start s with
  | c :: r =>
      if (c =? 45) || (c =? 43) then unsigned_starts r
      else unsigned_starts (c :: r)
  | [] => false
  end.

End Numeral.

(** *** The requests the clients issue *)

Module Requests.

(** The search request for the encoded query [q]. *)
Definition search (q : jsstring) : Request :=
  {| url := Api.YAHOO_SEARCH_BASE ++ js "?q=" ++ q
            ++ js "&quotesCount=10&newsCount=0&listsCount=0";
     headers := [(js "User-Agent",
                  js "Mozilla/5.0 (Macintosh; Intel Mac OS X 10_15_7)")] |}.

(** The quote request for the encoded ticker [t]. *)
Definition quote (t : jsstring) : Request :=
  {| url := Api.ZACKS_QUOTE_BASE ++ js "?t=" ++ t; headers := [] |}.

(** A network that answers every request with the same response. *)
Definition always (r : Response) : Request -> fetch_outcome :=
  fun _ => Responded r.

End Requests.

(** *** Worlds and values for examples *)

Module Examples.

Definition empty_world : World :=
  {| storage := empty; clock := 1700000000000; network := fun _ => NetworkError;
     requests := []; console := []; toasts := []; revalidations := 0 |}.

(** A world whose store holds [text] under the recents key. *)
Definition world_with (text : jsstring) : World :=
  set_storage (insert RECENTS_KEY text) empty_world.

(** A world with an empty store and the network [net]. *)
Definition world_answering (net : Request -> fetch_outcome) : World :=
  {| storage := empty; clock := 1700000000000; network := net;
     requests := []; console := []; toasts := []; revalidations := 0 |}.

Definition AAPL (t : Z) : Recents.RecentTicker :=
  {| Recents.symbol := js "AAPL"; Recents.name := js "Apple Inc.";
     Recents.timestamp := t |}.

Definition MSFT (t : Z) : Recents.RecentTicker :=
  {| Recents.symbol := js "MSFT"; Recents.name := js "Microsoft";
     Recents.timestamp := t |}.

Definition ticker (n : N) : Recents.RecentTicker :=
  {| Recents.symbol := js "T" ++ Js.digits_of_N n; Recents.name := js "Ticker";
     Recents.timestamp := 1700000000000 + Z.of_N n |}.

(** A quote with an empty long name. *)
Definition unnamed_quote : Yahoo.YahooQuote :=
  {| Yahoo.symbol := js "ACME"; Yahoo.shortname := Some (js "Acme Corp");
     Yahoo.longname := Some (js ""); Yahoo.quoteType := js "EQUITY";
     Yahoo.exchange := js "NMS" |}.

Definition unnamed_response : Response :=
  {| status := 200;
     body := JSON.serialize_element (Yahoo.response_value [unnamed_quote]) |}.

Definition apple_quote : list (jsstring * value) :=
  [(js "ticker", VString (js "AAPL")); (js "name", VString (js "Apple Inc."));
   (js "last", VString (js "189.84")); (js "zacks_rank", VString (js "3"))].

Definition apple_response : Response :=
  {| status := 200;
     body := JSON.serialize_element (VObject [(js "AAPL", VObject apple_quote)]) |}.

End Examples.

(** *** The order of the stored list, and of the actions on it *)

Module Order.

(** Most recent first: no entry is older than one behind it. *)
Fixpoint newest_first (l : list Recents.RecentTicker) : bool :=
  match l with
  | [] => true
  | r :: l' =>
      forallb (fun r' => (Recents.timestamp r' <=? Recents.timestamp r)%Z) l'
      && newest_first l'
  end.

(** The clock never goes back: the times of the actions, from [t0] on,
    do not decrease. *)
Fixpoint chronological (t0 : Z) (h : list (Z * History.action)) : bool :=
  match h with
  | [] => true
  | (t, _) :: h' => (t0 <=? t)%Z && chronological t h'
  end.

(** The upserts of a history, as the entries they write. *)
Fixpoint upserts (h : list (Z * History.action)) : list Recents.RecentTicker :=
  match h with
  | [] => []
  | (t, History.Upsert _ symbol name) :: h' =>
      {| Recents.symbol := symbol; Recents.name := name;
         Recents.timestamp := t |} :: upserts h'
  | _ :: h' => upserts h'
  end.

(** What a chronological history keeps: the list is ordered, and none
    of its entries is later than the clock. *)
Definition ordered_until (t : Z) (w : World) : Prop :=
  exists l, History.holds w l /\ Recents.well_formed l /\ newest_first l = true
            /\ Forall (fun r => (Recents.timestamp r <= t)%Z) l.

End Order.

(** *** Worlds that differ in their logs *)

Module Frame.

(** The world [w] with the requests [rs] and the console lines [cs]
    added to its logs (the latest first), and nothing else changed. *)
Definition logged (rs : list Request) (cs : list (jsstring * exn)) (w : World)
  : World :=
  {| storage := storage w; clock := clock w; network := network w;
     requests := rs ++ requests w; console := cs ++ console w;
     toasts := toasts w; revalidations := revalidations w |}.

(** A character that has no meaning of its own in the query part of a
    URL: none of [&], [=], [?], [#], [/], [+] and the space. *)
Definition inert (c : N) : bool :=
  negb ((c =? 38) || (c =? 61) || (c =? 63) || (c =? 35) || (c =? 47)
        || (c =? 43) || (c =? 32)).

End Frame.

(** ** Arithmetic on numbers *)

Module Number.

Import Float64.

Local Open Scope Z_scope.

(** The numerator of a finite number with its sign, over the
    denominator of [fraction]. *)
Definition signed (neg : bool) (num : Z) : Z := if neg then - num else num.

(** [x - y]: the exact difference, rounded.  A difference that is zero
    is [+0], but for [-0 - +0]. *)
Definition sub (x y : t) : t :=
  match x, y with
  | NaN, _ | _, NaN => NaN
  | Infinity a, Infinity b => if Bool.eqb a b then NaN else Infinity a
  | Infinity a, Finite _ _ _ => Infinity a
  | Finite _ _ _, Infinity b => Infinity (negb b)
  | Finite a m e, Finite b m' e' =>
      let '(n, d) := fraction m e in
      let '(n', d') := fraction m' e' in
      let r := signed a n * d' - signed b n' * d in
      if r =? 0 then zero (a && negb b && (m =? 0)%N)
      else round (r <? 0) (Z.abs r) (d * d')
  end.

(** [x / y]: the exact quotient, rounded. *)
Definition div (x y : t) : t :=
  match x, y with
  | NaN, _ | _, NaN => NaN
  | Infinity _, Infinity _ => NaN
  | Infinity a, Finite b _ _ => Infinity (xorb a b)
  | Finite a _ _, Infinity b => zero (xorb a b)
  | Finite a m e, Finite b m' e' =>
      if (m' =? 0)%N
      then (if (m =? 0)%N then NaN else Infinity (xorb a b))
      else
        let '(n, d) := fraction m e in
        let '(n', d') := fraction m' e' in
        round (xorb a b) (n * d') (d * n')
  end.

(** [Math.floor(x)] *)
Definition floor (x : t) : t :=
  match x with
  | Finite neg m e =>
      let '(n, d) := fraction m e in
      let q := signed neg n / d in
      if q =? 0 then zero neg else round (q <? 0) (Z.abs q) 1
  | _ => x
  end.

(** [x < y] *)
Definition lt (x y : t) : bool :=
  match x, y with
  | NaN, _ | _, NaN => false
  | Infinity a, Infinity b => a && negb b
  | Infinity a, Finite _ _ _ => a
  | Finite _ _ _, Infinity b => negb b
  | Finite a m e, Finite b m' e' =>
      let '(n, d) := fraction m e in
      let '(n', d') := fraction m' e' in
      signed a n * d' <? signed b n' * d
  end.

(** A finite number of magnitude below [10^21]: those that [toFixed]
    prints in full, without an exponent. *)
Definition fixed_range (x : t) : bool :=
  match x with
  | Finite _ m e => let '(num, den) := fraction m e in negb (10 ^ 21 * den <=? num)
  | _ => false
  end.

(** The sign of a number; [NaN] has none. *)
Definition sign_bit (x : t) : bool :=
  match x with
  | Finite neg _ _ | Infinity neg => neg
  | NaN => false
  end.

End Number.

(** ** The recents view: how long ago *)

Module RecentsView.

(** [formatTimeAgo] *)
Definition formatTimeAgo (timestamp : Float64.t) : M jsstring :=
  let* now := Date_now in
  let seconds :=
    Number.floor (Number.div (Number.sub now timestamp) (Float64.of_Z 1000)) in
  if Number.lt seconds (Float64.of_Z 60) then ret (js "just now")
  else
    let minutes := Number.floor (Number.div seconds (Float64.of_Z 60)) in
    if Number.lt minutes (Float64.of_Z 60)
    then ret (Float64.toString minutes ++ js "m ago")
    else
      let hours := Number.floor (Number.div minutes (Float64.of_Z 60)) in
      if Number.lt hours (Float64.of_Z 24)
      then ret (Float64.toString hours ++ js "h ago")
      else
        let days := Number.floor (Number.div hours (Float64.of_Z 24)) in
        ret (Float64.toString days ++ js "d ago").

(** The text for a whole number of milliseconds gone by. *)
Definition time_ago (elapsed : Z) : jsstring :=
  if (elapsed <? 60000)%Z then js "just now"
  else if (elapsed <? 3600000)%Z
  then Js.digits_of_N (Z.to_N (elapsed / 60000)) ++ js "m ago"
  else if (elapsed <? 86400000)%Z
  then Js.digits_of_N (Z.to_N (elapsed / 3600000)) ++ js "h ago"
  else Js.digits_of_N (Z.to_N (elapsed / 86400000)) ++ js "d ago".

(** Modelled from the spec: the type [ZacksQuoteData] of [types.ts],
    which the sources import: a quote record, its fields all strings,
    some of them the markers ["NA"] and ["-"].  These are the fields
    the recents view reads. *)
Record ZacksQuoteData := {
  name : jsstring;
  last : jsstring;
  net_change : jsstring;
  percent_net_change : jsstring;
  zacks_rank : jsstring;
  zacks_rank_text : jsstring
}.

(** [interface RecentWithData extends RecentTicker], with its types:
    an entry and, when it was fetched, its quote. *)
Record RecentWithData := {
  entry : Recents.RecentTicker;
  zacksData : option ZacksQuoteData
}.

(** The colours of a tag: [Color.Green] and [Color.Red] of the host,
    or a colour code. *)
Inductive colour :=
| Green
| Red
| Code (hex : jsstring).

(** [List.Item.Accessory]: a text, with the clock icon or without an
    icon, or a tag. *)
Inductive accessory :=
| Text (text : jsstring) (clock_icon : bool)
| Tag (value : jsstring) (color : colour).

(** [getAccessories] *)
Definition getAccessories (recent : RecentWithData) : M (list accessory) :=
  let accessories :=
    match zacksData recent with
    | Some data =>
        let change := parseFloat (net_change data) in
        let isPositive :=
          negb (Float64.isNaN change) && Float64.ge_zero change in
        let accessories := [Text (formatCurrency (last data)) false] in
        let accessories :=
          accessories
          ++ [Tag (formatPercent (percent_net_change data))
                (if isPositive then Green else Red)] in
        if negb (Api_format.is_empty (zacks_rank data))
           && negb (Js.eqb (zacks_rank data) (js "NA"))
           && negb (Api_format.is_empty (zacks_rank_text data))
        then
          accessories
          ++ [Tag (js "Rank " ++ zacks_rank data ++ js " - "
                   ++ zacks_rank_text data)
                (Code (getZacksRankColor (zacks_rank data)))]
        else accessories
    | None => []
    end in
  let* ago := formatTimeAgo (Float64.of_Z (Recents.timestamp (entry recent))) in
  ret (accessories ++ [Text ago true]).

End RecentsView.

(** ** The detail view of [zacks-rank.tsx] *)

Module ZacksRankView.

(** [getRankEmoji]: a green circle for the ranks 1 and 2, a yellow one
    for 3, an orange one for 4, a red one for 5, and a white one
    otherwise (as UTF-16 code units). *)
Definition getRankEmoji (rank : jsstring) : jsstring :=
  if Js.eqb rank (js "1") then [55357; 57314]
  else if Js.eqb rank (js "2") then [55357; 57314]
  else if Js.eqb rank (js "3") then [55357; 57313]
  else if Js.eqb rank (js "4") then [55357; 57312]
  else if Js.eqb rank (js "5") then [55357; 56628]
  else [9898].

Section Platform.

Variable toUpperCase : jsstring -> jsstring.

(** The loader of [StockDetail({ ticker, name })], which
    [useCachedPromise] calls with [symbol = ticker]: the quote is
    fetched and, when there is one, the ticker goes to the recents. *)
Definition StockDetail_load (name symbol : jsstring) : M value :=
  let* result := Api.getZacksData toUpperCase (VString symbol) in
  (if Value.truthy result then ZacksRank.addToRecents symbol name else ret tt);;
  ret result.

End Platform.

(** The loader of [SearchZacksRank], called with the search text. *)
Definition SearchZacksRank_load (query : jsstring)
  : M (list Api.TickerSearchResult) :=
  if Api_format.is_empty query || (List.length query <? 1)%nat then ret []
  else Api.searchTickers query.

End ZacksRankView.

(** ** The command of [quick-lookup.tsx] *)

Module QuickLookupView.

(** [String.prototype.trim]: white space and line terminators are
    dropped at both ends. *)
Definition trim (s : jsstring) : jsstring :=
  rev (ParseFloat.trim_start (rev (ParseFloat.trim_start s))).

(** [addToRecents(symbol, name)] with the name as the loader hands it
    over, the value of [result.name || symbol]: the types of
    TypeScript are erased, and the name is a string when the quote is
    of its type. *)
Definition addToRecents (symbol : jsstring) (name : value) : M unit :=
  let* stored := LocalStorage.getItem RECENTS_KEY in
  let* recents := parse_stored stored in
  let* filtered := lift (Value.filter (other_symbol symbol) recents) in
  let* now := Date_now in
  let filtered :=
    VObject [(js "symbol", VString symbol); (js "name", name);
             (js "timestamp", VNumber now)] :: filtered in
  let trimmed := firstn MAX_RECENTS filtered in
  LocalStorage.setItem RECENTS_KEY (JSON.stringify_array trimmed).

Section Platform.

Variable toUpperCase : jsstring -> jsstring.

(** [props.arguments.ticker.toUpperCase().trim()] *)
Definition ticker_of (argument : jsstring) : jsstring :=
  trim (toUpperCase argument).

(** The loader of [QuickLookup], which [useCachedPromise] calls with
    [symbol = ticker]. *)
Definition load (symbol : jsstring) : M value :=
  let* result := Api.getZacksData toUpperCase (VString symbol) in
  (if Value.truthy result
   then
     let* name := lift (Value.get result (js "name")) in
     addToRecents symbol (Value.or_else name (VString symbol))
   else ret tt);;
  ret result.

End Platform.

End QuickLookupView.

(** * Properties *)

(** ** Numbers *)

Module Float64_facts.

Import Float64.

Local Open Scope Z_scope.

Lemma div_nearest_even_exact (n : Z) : div_nearest_even n 1 = n.
Proof.
  unfold div_nearest_even.
  rewrite Z.mod_1_r, Z.div_1_r. reflexivity.
Qed.

Lemma log2_ratio_integer (n : Z) : 0 < n -> log2_ratio n 1 = Z.log2 n.
Proof.
  intros Hn. unfold log2_ratio.
  change (Z.log2 1) with 0. rewrite Z.sub_0_r.
  pose proof (Z.log2_nonneg n) as Hl.
  destruct (Z.leb_spec 0 (Z.log2 n)) as [_ | Hneg]; [ | lia ].
  pose proof (Z.log2_spec n Hn) as [Hlo _].
  destruct (Z.leb_spec (1 * 2 ^ Z.log2 n) n) as [_ | Hlt]; [ reflexivity | lia ].
Qed.

(** Rounding an integer below [2^53] is exact. *)
Lemma round_integer (neg : bool) (n : Z) :
  0 < n < 2 ^ 53 ->
  round neg n 1 =
  Finite neg (Z.to_N (n * 2 ^ (52 - Z.log2 n))) (Z.log2 n - 52).
Proof.
  intros [Hpos Hlt]. unfold round.
  destruct (Z.eqb_spec n 0) as [-> | _]; [ lia | ].
  rewrite log2_ratio_integer by assumption.
  pose proof (Z.log2_nonneg n) as Hl0.
  pose proof (Z.log2_spec n Hpos) as [Hlo Hhi].
  assert (Hl : Z.log2 n < 53).
  { apply Z.log2_lt_pow2; lia. }
  rewrite Z.max_r by lia.
  assert (Hq : 2 ^ 52 <= n * 2 ^ (52 - Z.log2 n) < 2 ^ 53).
  { replace (2 ^ 52) with (2 ^ Z.log2 n * 2 ^ (52 - Z.log2 n))
      by (rewrite <- Z.pow_add_r by lia; f_equal; lia).
    replace (2 ^ 53) with (2 ^ Z.succ (Z.log2 n) * 2 ^ (52 - Z.log2 n))
      by (rewrite <- Z.pow_add_r by lia; f_equal; lia).
    assert (0 < 2 ^ (52 - Z.log2 n)) by (apply Z.pow_pos_nonneg; lia).
    split; [ apply Z.mul_le_mono_nonneg_r; lia
           | apply Z.mul_lt_mono_pos_r; lia ]. }
  destruct (Z.ltb_spec (Z.log2 n - 52) 0) as [He | He].
  - replace (- (Z.log2 n - 52)) with (52 - Z.log2 n) by lia.
    rewrite div_nearest_even_exact.
    destruct (Z.eqb_spec (n * 2 ^ (52 - Z.log2 n)) (2 ^ 53)) as [E | _]; [ lia | ].
    destruct (Z.ltb_spec 971 (Z.log2 n - 52)); [ lia | reflexivity ].
  - assert (El : Z.log2 n = 52) by lia.
    rewrite El in *. change (2 ^ (52 - 52)) with 1 in *.
    change (1 * 1) with 1. rewrite div_nearest_even_exact.
    rewrite Z.mul_1_r in Hq.
    destruct (Z.eqb_spec n (2 ^ 53)) as [E | _]; [ lia | ].
    rewrite Z.mul_1_r. reflexivity.
Qed.

Lemma to_Z_round_integer (neg : bool) (n : Z) :
  0 < n < 2 ^ 53 ->
  to_Z (round neg n 1) = Some (if neg then - n else n).
Proof.
  intros Hn. rewrite round_integer by assumption.
  destruct Hn as [Hpos Hlt].
  pose proof (Z.log2_nonneg n) as Hl0.
  assert (Hl : Z.log2 n < 53) by (apply Z.log2_lt_pow2; lia).
  assert (Hp : 0 < 2 ^ (52 - Z.log2 n)) by (apply Z.pow_pos_nonneg; lia).
  unfold to_Z. rewrite Z2N.id by nia.
  destruct (Z.leb_spec 0 (Z.log2 n - 52)) as [He | He].
  - assert (El : Z.log2 n = 52) by lia. rewrite El.
    change (2 ^ (52 - 52)) with 1. change (2 ^ 0) with 1.
    rewrite !Z.mul_1_r. reflexivity.
  - replace (- (Z.log2 n - 52)) with (52 - Z.log2 n) by lia.
    rewrite Z.mod_mul by lia. simpl.
    rewrite Z.div_mul by lia. reflexivity.
Qed.

Lemma to_Z_of_Z (z : Z) : Z.abs z < 2 ^ 53 -> to_Z (of_Z z) = Some z.
Proof.
  intros Hz. unfold of_Z, of_decimal.
  change (0 <? 0) with false. cbv iota.
  change (10 ^ 0) with 1. rewrite Z.mul_1_r, N2Z.inj_abs_N.
  destruct (Z.eq_dec z 0) as [-> | Hnz]; [ reflexivity | ].
  rewrite to_Z_round_integer by lia.
  destruct (Z.ltb_spec z 0); f_equal; lia.
Qed.

Lemma round_not_NaN (neg : bool) (n d : Z) : isNaN (round neg n d) = false.
Proof.
  unfold round. destruct (n =? 0); [ reflexivity | ].
  match goal with |- context [if ?c then (_, _) else _] => destruct c end;
    match goal with |- context [971 <? ?e] => destruct (971 <? e) end;
    reflexivity.
Qed.

Lemma of_decimal_not_NaN (neg : bool) (m : N) (e : Z) :
  isNaN (of_decimal neg m e) = false.
Proof. unfold of_decimal. destruct (e <? 0); apply round_not_NaN. Qed.

Lemma is_finite_of_Z (z : Z) : Z.abs z < 2 ^ 53 -> is_finite (of_Z z) = true.
Proof.
  intros Hz. pose proof (to_Z_of_Z z Hz) as H.
  destruct (of_Z z); simpl in *; congruence.
Qed.

End Float64_facts.

(** ** Decimal digits *)

Module Js_facts.

Import Js.

Lemma units_of_uint_digits (u : Decimal.uint) :
  Forall (fun c => is_digit c = true) (units_of_uint u).
Proof. induction u; simpl; constructor; auto. Qed.

Lemma uint_of_units_of_uint (u : Decimal.uint) :
  uint_of_units (units_of_uint u) = u.
Proof. induction u; simpl; congruence. Qed.

Lemma N_of_digits_of_N (n : N) : N_of_digits (digits_of_N n) = n.
Proof.
  unfold N_of_digits, digits_of_N.
  rewrite uint_of_units_of_uint. apply DecimalN.Unsigned.of_to.
Qed.

Lemma digits_of_N_digits (n : N) :
  Forall (fun c => is_digit c = true) (digits_of_N n).
Proof. apply units_of_uint_digits. Qed.

Lemma span_digits_app (ds rest : jsstring) :
  Forall (fun c => is_digit c = true) ds ->
  stops_digits rest = true ->
  span_digits (ds ++ rest) = (ds, rest).
Proof.
  intros Hds Hrest. induction Hds as [ | c ds Hc _ IH ]; simpl.
  - destruct rest as [ | c r ]; [ reflexivity | ].
    simpl in *. destruct (is_digit c); [ discriminate | reflexivity ].
  - rewrite Hc, IH. reflexivity.
Qed.

Lemma nzhead_head (u : Decimal.uint) :
  match Decimal.nzhead u with Decimal.D0 _ => False | _ => True end.
Proof. induction u; simpl; auto. Qed.

Lemma unorm_fixed (u : Decimal.uint) :
  Decimal.unorm u = u ->
  u = Decimal.D0 Decimal.Nil \/
  match u with Decimal.Nil | Decimal.D0 _ => False | _ => True end.
Proof.
  unfold Decimal.unorm. intros H.
  pose proof (nzhead_head u) as Hh.
  destruct (Decimal.nzhead u) eqn:E; subst u; auto; contradiction.
Qed.

(** The expansion of a number has no leading zero, unless it is ["0"]. *)
Lemma digits_of_N_head (n : N) :
  exists c r, digits_of_N n = c :: r /\ (negb (c =? 48) || Api_format.is_empty r = true)%N.
Proof.
  unfold digits_of_N.
  assert (H : Decimal.unorm (N.to_uint n) = N.to_uint n).
  { rewrite <- DecimalN.Unsigned.to_of, DecimalN.Unsigned.of_to. reflexivity. }
  apply unorm_fixed in H. destruct H as [-> | H].
  - exists 48%N, []. split; reflexivity.
  - destruct (N.to_uint n); try contradiction; simpl; eauto.
Qed.

Lemma eqb_eq (a b : jsstring) : eqb a b = true <-> a = b.
Proof. unfold eqb. apply bool_decide_eq_true. Qed.

Lemma eqb_refl (a : jsstring) : eqb a a = true.
Proof. apply eqb_eq. reflexivity. Qed.

Lemma eqb_neq (a b : jsstring) : eqb a b = false <-> a <> b.
Proof. unfold eqb. apply bool_decide_eq_false. Qed.

End Js_facts.

(** ** JSON: what [stringify] writes, [parse] reads back *)

Module JSON_facts.

Import JSON.

Lemma hex_value_digit (n : N) : n < 16 -> hex_value (hex_digit n) = Some n.
Proof.
  intros Hn. unfold hex_value, hex_digit, Js.is_digit.
  destruct (N.ltb_spec n 10).
  - replace (48 <=? 48 + n) with true by (symmetry; apply N.leb_le; lia).
    replace (48 + n <=? 57) with true by (symmetry; apply N.leb_le; lia).
    simpl. f_equal. lia.
  - replace (87 + n <=? 57) with false by (symmetry; apply N.leb_gt; lia).
    rewrite andb_false_r.
    replace (97 <=? 87 + n) with true by (symmetry; apply N.leb_le; lia).
    replace (87 + n <=? 102) with true by (symmetry; apply N.leb_le; lia).
    simpl. f_equal. lia.
Qed.

Lemma hex4_escape (c : N) :
  c < 65536 ->
  hex4 (hex_digit (c / 4096 mod 16)) (hex_digit (c / 256 mod 16))
       (hex_digit (c / 16 mod 16)) (hex_digit (c mod 16)) = Some c.
Proof.
  intros Hc. unfold hex4.
  rewrite !hex_value_digit by (apply N.mod_lt; discriminate).
  f_equal.
  zify. Z.to_euclidean_division_equations. lia.
Qed.

Lemma parse_string_plain (c : N) (t : jsstring) :
  c <> 34 -> c <> 92 -> 32 <= c ->
  parse_string (c :: t) = cons_parsed c (parse_string t).
Proof.
  intros H34 H92 H32. simpl.
  destruct (N.eqb_spec c 34); [ contradiction | ].
  destruct (N.eqb_spec c 92); [ contradiction | ].
  destruct (N.ltb_spec c 32); [ lia | reflexivity ].
Qed.

Lemma parse_string_unicode_escape (c : N) (t : jsstring) :
  c < 65536 ->
  parse_string (unicode_escape c ++ t) = cons_parsed c (parse_string t).
Proof.
  intros Hc. unfold unicode_escape.
  cbn [app parse_string N.eqb Pos.eqb N.ltb N.compare Pos.compare Pos.compare_cont].
  rewrite hex4_escape by assumption. reflexivity.
Qed.

(** Reading an escaped unit gives the unit back. *)
Lemma parse_string_escape (c : N) (t : jsstring) :
  parse_string (escape_unit c ++ t) = cons_parsed c (parse_string t).
Proof.
  unfold escape_unit.
  destruct (N.eqb_spec c 8) as [-> | H8]; [ reflexivity | ].
  destruct (N.eqb_spec c 9) as [-> | H9]; [ reflexivity | ].
  destruct (N.eqb_spec c 10) as [-> | H10]; [ reflexivity | ].
  destruct (N.eqb_spec c 12) as [-> | H12]; [ reflexivity | ].
  destruct (N.eqb_spec c 13) as [-> | H13]; [ reflexivity | ].
  destruct (N.eqb_spec c 34) as [-> | H34]; [ reflexivity | ].
  destruct (N.eqb_spec c 92) as [-> | H92]; [ reflexivity | ].
  unfold is_high_surrogate, is_low_surrogate.
  destruct (N.ltb_spec c 32) as [Hlt | Hge]; simpl orb.
  - apply parse_string_unicode_escape. lia.
  - destruct (N.leb_spec 55296 c), (N.leb_spec c 56319),
             (N.leb_spec 56320 c), (N.leb_spec c 57343); simpl;
      solve [ apply parse_string_unicode_escape; lia
            | apply parse_string_plain; assumption ].
Qed.

Lemma parse_string_quote_body_bounded (n : nat) :
  forall s rest, (List.length s <= n)%nat ->
  parse_string (quote_body s ++ 34 :: rest) = Some (s, rest).
Proof.
  induction n as [ | n IH ]; intros s rest Hlen.
  - destruct s; [ reflexivity | simpl in Hlen; lia ].
  - destruct s as [ | c r ]; [ reflexivity | ].
    simpl in Hlen. cbn [quote_body].
    assert (Hr : parse_string (quote_body r ++ 34 :: rest) = Some (r, rest))
      by (apply IH; lia).
    assert (Hesc : parse_string ((escape_unit c ++ quote_body r) ++ 34 :: rest)
                   = Some (c :: r, rest)).
    { rewrite <- app_assoc, parse_string_escape, Hr. reflexivity. }
    destruct (is_high_surrogate c) eqn:Hhigh; [ | exact Hesc ].
    destruct r as [ | d r' ].
    + rewrite parse_string_escape. reflexivity.
    + destruct (is_low_surrogate d) eqn:Hlow; [ | exact Hesc ].
      unfold is_high_surrogate in Hhigh. unfold is_low_surrogate in Hlow.
      apply andb_true_iff in Hhigh as [Hc1 Hc2].
      apply andb_true_iff in Hlow as [Hd1 Hd2].
      apply N.leb_le in Hc1, Hc2, Hd1, Hd2.
      cbn [app]. rewrite parse_string_plain by lia.
      rewrite parse_string_plain by lia.
      rewrite IH by (simpl in Hlen; lia). reflexivity.
Qed.

(** A quoted string reads back as the string. *)
Lemma parse_string_quote (s rest : jsstring) :
  parse_string (quote_body s ++ 34 :: rest) = Some (s, rest).
Proof. apply (parse_string_quote_body_bounded (List.length s)). lia. Qed.

Lemma quote_app (s rest : jsstring) :
  quote s ++ rest = 34 :: quote_body s ++ 34 :: rest.
Proof. unfold quote. simpl. rewrite <- app_assoc. reflexivity. Qed.

(** A decimal expansion, with its sign and followed by a closing brace,
    reads back as the number it denotes. *)
Lemma parse_number_digits (neg : bool) (n : N) (rest : jsstring) :
  parse_number ((if neg then [45] else []) ++ Js.digits_of_N n ++ 125 :: rest)
  = Some (Float64.of_decimal neg n 0, 125 :: rest).
Proof.
  destruct (Js_facts.digits_of_N_head n) as (c & r & Hd & Hhead).
  pose proof (Js_facts.digits_of_N_digits n) as Hall.
  pose proof (Js_facts.N_of_digits_of_N n) as Hval.
  remember (Js.digits_of_N n) as ds eqn:Eds. clear Eds.
  assert (Hspan : Js.span_digits (ds ++ 125 :: rest) = (ds, 125 :: rest))
    by (apply Js_facts.span_digits_app; [ assumption | reflexivity ]).
  assert (Hc45 : (c =? 45) = false).
  { rewrite Hd in Hall. inversion Hall as [ | ? ? Hc _ ]; subst.
    unfold Js.is_digit in Hc. apply andb_true_iff in Hc as [Hc _].
    apply N.leb_le in Hc. apply N.eqb_neq. lia. }
  unfold parse_number.
  assert (Hminus : parse_minus ((if neg then [45] else []) ++ ds ++ 125 :: rest)
                   = (neg, ds ++ 125 :: rest)).
  { destruct neg; [ reflexivity | ].
    cbn [app]. rewrite Hd. cbn [app parse_minus]. rewrite Hc45. reflexivity. }
  rewrite Hminus, Hspan. rewrite Hd at 1. cbn [integer_part_ok].
  rewrite Hhead. cbn [parse_fraction parse_exponent].
  change (125 =? 46) with false. change ((125 =? 101) || (125 =? 69)) with false.
  cbv iota. rewrite app_nil_r, Hval. reflexivity.
Qed.

End JSON_facts.

(** ** Decimal expansions and powers of ten *)

Module Digits_facts.

Import Js.

Lemma is_digit_cases (c : N) :
  is_digit c = true ->
  c = 48 \/ c = 49 \/ c = 50 \/ c = 51 \/ c = 52 \/ c = 53 \/ c = 54 \/ c = 55
  \/ c = 56 \/ c = 57.
Proof.
  unfold is_digit. intros H. apply andb_true_iff in H as [H1 H2].
  apply N.leb_le in H1, H2. lia.
Qed.

Ltac digit_cases H :=
  apply is_digit_cases in H;
  repeat (destruct H as [H | H]); subst.

Lemma of_uint_acc_snoc0 (ds : jsstring) :
  Forall (fun c => is_digit c = true) ds ->
  forall acc : positive,
  Pos.of_uint_acc (uint_of_units (ds ++ [48])) acc
  = (10 * Pos.of_uint_acc (uint_of_units ds) acc)%positive.
Proof.
  induction 1 as [ | c r Hc _ IH ]; intros acc; [ reflexivity | ].
  digit_cases Hc; cbn [app uint_of_units digit_cons Pos.of_uint_acc]; apply IH.
Qed.

(** A zero appended multiplies by ten. *)
Lemma N_of_digits_snoc0 (ds : jsstring) :
  Forall (fun c => is_digit c = true) ds ->
  N_of_digits (ds ++ [48]) = 10 * N_of_digits ds.
Proof.
  unfold N_of_digits.
  induction 1 as [ | c r Hc Hr IH ]; [ reflexivity | ].
  digit_cases Hc; cbn [app uint_of_units digit_cons N.of_uint Pos.of_uint];
    try exact IH;
    rewrite (of_uint_acc_snoc0 r Hr); reflexivity.
Qed.

Lemma N_of_digits_zeros (ds : jsstring) (j : nat) :
  Forall (fun c => is_digit c = true) ds ->
  N_of_digits (ds ++ repeat_unit 48 j) = N_of_digits ds * 10 ^ N.of_nat j.
Proof.
  intros Hds. induction j as [ | j IH ].
  - unfold repeat_unit. simpl. rewrite app_nil_r. lia.
  - unfold repeat_unit in *. cbn [repeat]. rewrite repeat_cons, app_assoc.
    rewrite N_of_digits_snoc0.
    + rewrite IH, Nat2N.inj_succ, N.pow_succ_r'. lia.
    + apply List.Forall_app. split; [ assumption | ].
      apply List.Forall_forall. intros x Hx. apply repeat_spec in Hx. subst.
      reflexivity.
Qed.

Lemma units_of_uint_of_units (ds : jsstring) :
  Forall (fun c => is_digit c = true) ds ->
  units_of_uint (uint_of_units ds) = ds.
Proof.
  induction 1 as [ | c r Hc _ IH ]; [ reflexivity | ].
  digit_cases Hc; cbn [uint_of_units digit_cons units_of_uint]; rewrite IH;
    reflexivity.
Qed.

(** Digits that start with no zero are the expansion of the number
    they spell. *)
Lemma digits_of_N_of_digits (c : N) (r : jsstring) :
  Forall (fun c => is_digit c = true) (c :: r) -> c <> 48 ->
  digits_of_N (N_of_digits (c :: r)) = c :: r.
Proof.
  intros Hds Hc. unfold digits_of_N, N_of_digits.
  rewrite DecimalN.Unsigned.to_of.
  replace (Decimal.unorm (uint_of_units (c :: r))) with (uint_of_units (c :: r)).
  - apply units_of_uint_of_units. assumption.
  - inversion Hds as [ | ? ? Hd _ ]; subst.
    digit_cases Hd; try contradiction; reflexivity.
Qed.

(** The expansion of [s * 10^j] is the expansion of [s] and [j]
    zeros. *)
Lemma digits_of_N_scaled (s : N) (j : nat) :
  0 < s ->
  digits_of_N (s * 10 ^ N.of_nat j) = digits_of_N s ++ repeat_unit 48 j.
Proof.
  intros Hs.
  destruct (Js_facts.digits_of_N_head s) as (c & r & Hd & Hhead).
  pose proof (Js_facts.digits_of_N_digits s) as Hall.
  pose proof (Js_facts.N_of_digits_of_N s) as Hval.
  rewrite Hd in *.
  assert (Hc : c <> 48).
  { intros ->. simpl in Hhead. destruct r; [ | discriminate ].
    vm_compute in Hval. lia. }
  rewrite <- Hval at 1.
  rewrite <- N_of_digits_zeros by assumption.
  cbn [app]. apply digits_of_N_of_digits; [ | assumption ].
  rewrite app_comm_cons. apply List.Forall_app. split; [ assumption | ].
  apply List.Forall_forall. intros x Hx. apply repeat_spec in Hx. subst. reflexivity.
Qed.

End Digits_facts.

(** ** Number::toString on integers *)

Module Float64_print.

Import Float64.

Local Open Scope Z_scope.

Lemma round_integer_inj (a b : Z) :
  0 < a < 2 ^ 53 -> 0 < b < 2 ^ 53 ->
  round false a 1 = round false b 1 -> a = b.
Proof.
  intros Ha Hb H. apply (f_equal to_Z) in H.
  rewrite !Float64_facts.to_Z_round_integer in H by assumption.
  congruence.
Qed.

(** The number an integer rounds to, as a fraction: [z * 2^j / 2^j]. *)
Lemma fraction_integer (z : Z) :
  0 < z < 2 ^ 53 ->
  exists (m : N) (e j : Z),
    round false z 1 = Finite false m e
    /\ (m =? 0)%N = false
    /\ 0 <= j
    /\ fraction m e = (z * 2 ^ j, 2 ^ j).
Proof.
  intros Hz. rewrite Float64_facts.round_integer by assumption.
  destruct Hz as [Hpos Hlt].
  pose proof (Z.log2_nonneg z) as Hl0.
  assert (Hl : Z.log2 z < 53) by (apply Z.log2_lt_pow2; lia).
  assert (Hp : 0 < 2 ^ (52 - Z.log2 z)) by (apply Z.pow_pos_nonneg; lia).
  exists (Z.to_N (z * 2 ^ (52 - Z.log2 z))), (Z.log2 z - 52), (52 - Z.log2 z).
  split; [ reflexivity | ].
  split; [ apply N.eqb_neq; intros E; apply (f_equal Z.of_N) in E;
           rewrite Z2N.id in E by nia; simpl in E; nia | ].
  split; [ lia | ].
  unfold fraction. rewrite Z2N.id by nia.
  destruct (Z.leb_spec 0 (Z.log2 z - 52)) as [He | He].
  - assert (El : Z.log2 z = 52) by lia. rewrite El.
    change (52 - 52) with 0. change (2 ^ 0) with 1.
    rewrite !Z.mul_1_r. reflexivity.
  - f_equal. f_equal. lia.
Qed.

Lemma log2_ratio_scaled (z j : Z) :
  0 < z -> 0 <= j -> log2_ratio (z * 2 ^ j) (2 ^ j) = Z.log2 z.
Proof.
  intros Hz Hj. unfold log2_ratio.
  rewrite Z.log2_mul_pow2, Z.log2_pow2 by lia.
  replace (j + Z.log2 z - j) with (Z.log2 z) by lia.
  pose proof (Z.log2_nonneg z) as Hl0.
  pose proof (Z.log2_spec z Hz) as [Hlo _].
  assert (0 < 2 ^ j) by (apply Z.pow_pos_nonneg; lia).
  destruct (Z.leb_spec 0 (Z.log2 z)); [ | lia ].
  destruct (Z.leb_spec (2 ^ j * 2 ^ Z.log2 z) (z * 2 ^ j)); [ reflexivity | nia ].
Qed.

(** The correction finds the decimal exponent when the estimate is
    near. *)
Lemma log10_adjust_correct (fuel : nat) :
  forall n d t p,
    0 < d -> 0 <= t -> 0 <= p ->
    d * 10 ^ t <= n < d * 10 ^ (t + 1) ->
    Z.abs (p - t) < Z.of_nat fuel ->
    log10_adjust fuel n d p = t.
Proof.
  induction fuel as [ | fuel IH ]; intros n d t p Hd Ht Hp Hn Hnear; [ lia | ].
  cbn [log10_adjust].
  destruct (Z.leb_spec 0 p) as [_ | ]; [ | lia ].
  destruct (Z.leb_spec 0 (p + 1)) as [_ | ]; [ | lia ].
  assert (Hmono : forall a b, 0 <= a <= b -> d * 10 ^ a <= d * 10 ^ b).
  { intros a b Hab. apply Z.mul_le_mono_nonneg_l; [ lia | ].
    apply Z.pow_le_mono_r; lia. }
  destruct (Z.ltb_spec n (d * 10 ^ p)) as [Hbelow | Hnotbelow].
  - assert (t < p).
    { destruct (Z.lt_ge_cases t p); [ assumption | ].
      pose proof (Hmono p t). lia. }
    apply IH; lia.
  - destruct (Z.leb_spec (d * 10 ^ (p + 1)) n) as [Habove | Hnotabove].
    + assert (p < t).
      { destruct (Z.lt_ge_cases p t); [ assumption | ].
        pose proof (Hmono (t + 1) (p + 1)). lia. }
      apply IH; lia.
    + destruct (Z.lt_trichotomy p t) as [Hlt | [Heq | Hgt]]; [ | assumption | ].
      * pose proof (Hmono (p + 1) t). lia.
      * pose proof (Hmono (t + 1) p). lia.
Qed.

Lemma estimate_near (l : Z) : 0 <= l <= 52 -> estimate_ok l = true.
Proof.
  intros Hl.
  assert (H : forallb estimate_ok (List.map Z.of_nat (seq 0 53)) = true)
    by (vm_compute; reflexivity).
  rewrite forallb_forall in H. apply H.
  apply in_map_iff. exists (Z.to_nat l). split; [ lia | ].
  apply in_seq. lia.
Qed.

(** The largest time value, [8.64e15]. *)
Abbreviation max_time := 8640000000000000 (only parsing).

Lemma decimal_exponent_exists (z : Z) :
  0 < z <= max_time -> exists t, 0 <= t <= 15 /\ 10 ^ t <= z < 10 ^ (t + 1).
Proof.
  intros Hz.
  destruct (Z.lt_ge_cases z (10 ^ 1)); [ exists 0; lia | ].
  destruct (Z.lt_ge_cases z (10 ^ 2)); [ exists 1; lia | ].
  destruct (Z.lt_ge_cases z (10 ^ 3)); [ exists 2; lia | ].
  destruct (Z.lt_ge_cases z (10 ^ 4)); [ exists 3; lia | ].
  destruct (Z.lt_ge_cases z (10 ^ 5)); [ exists 4; lia | ].
  destruct (Z.lt_ge_cases z (10 ^ 6)); [ exists 5; lia | ].
  destruct (Z.lt_ge_cases z (10 ^ 7)); [ exists 6; lia | ].
  destruct (Z.lt_ge_cases z (10 ^ 8)); [ exists 7; lia | ].
  destruct (Z.lt_ge_cases z (10 ^ 9)); [ exists 8; lia | ].
  destruct (Z.lt_ge_cases z (10 ^ 10)); [ exists 9; lia | ].
  destruct (Z.lt_ge_cases z (10 ^ 11)); [ exists 10; lia | ].
  destruct (Z.lt_ge_cases z (10 ^ 12)); [ exists 11; lia | ].
  destruct (Z.lt_ge_cases z (10 ^ 13)); [ exists 12; lia | ].
  destruct (Z.lt_ge_cases z (10 ^ 14)); [ exists 13; lia | ].
  destruct (Z.lt_ge_cases z (10 ^ 15)); [ exists 14; lia | ].
  exists 15; lia.
Qed.

Lemma log10_ratio_integer (z j t : Z) :
  0 < z < 2 ^ 53 -> 0 <= j -> 0 <= t -> 10 ^ t <= z < 10 ^ (t + 1) ->
  log10_ratio (z * 2 ^ j) (2 ^ j) = t.
Proof.
  intros Hz Hj Ht Hzt. unfold log10_ratio.
  rewrite log2_ratio_scaled by lia.
  pose proof (Z.log2_nonneg z) as Hl0.
  assert (Hl : Z.log2 z < 53) by (apply Z.log2_lt_pow2; lia).
  pose proof (Z.log2_spec z (proj1 Hz)) as [Hlo Hhi].
  assert (He : estimate_ok (Z.log2 z) = true) by (apply estimate_near; lia).
  unfold estimate_ok in He. apply andb_true_iff in He as [He1 He2].
  apply Z.leb_le in He1, He2.
  set (p := Z.log2 z * 30103 / 100000) in *.
  assert (Hp0 : 0 <= p) by (apply Z.div_pos; lia).
  assert (Hpow : 0 < 2 ^ j) by (apply Z.pow_pos_nonneg; lia).
  apply log10_adjust_correct; try lia.
  - nia.
  - assert (p < t + 1).
    { apply (Z.pow_lt_mono_r_iff 10); lia. }
    assert (t < p + 2).
    { apply (Z.pow_lt_mono_r_iff 10); lia. }
    lia.
Qed.

Lemma scale10_floor_scaled (z j p : Z) :
  0 <= j -> 0 <= p -> scale10_floor (z * 2 ^ j) (2 ^ j) p = z / 10 ^ p.
Proof.
  intros Hj Hp. unfold scale10_floor.
  destruct (Z.leb_spec 0 p); [ | lia ].
  assert (0 < 2 ^ j) by (apply Z.pow_pos_nonneg; lia).
  assert (0 < 10 ^ p) by (apply Z.pow_pos_nonneg; lia).
  rewrite (Z.mul_comm (2 ^ j) (10 ^ p)).
  apply Z.div_mul_cancel_r; lia.
Qed.

Lemma of_decimal_integer (lo p : Z) :
  0 <= lo -> 0 <= p ->
  of_decimal false (Z.to_N lo) p = round false (lo * 10 ^ p) 1.
Proof.
  intros Hlo Hp. unfold of_decimal.
  destruct (Z.ltb_spec p 0); [ lia | ].
  rewrite Z2N.id by assumption. reflexivity.
Qed.

(** With [k] digits, the integer [z] of [t + 1] digits is denoted if
    and only if its last [t + 1 - k] digits are zeros. *)
Lemma digits_with_integer (z : Z) (m : N) (e j t k : Z) :
  0 < z <= max_time ->
  round false z 1 = Finite false m e ->
  fraction m e = (z * 2 ^ j, 2 ^ j) ->
  0 <= j -> 0 <= t <= 15 -> 10 ^ t <= z < 10 ^ (t + 1) ->
  1 <= k <= t + 1 ->
  digits_with m e k
  = if z / 10 ^ (t + 1 - k) * 10 ^ (t + 1 - k) =? z
    then Some (z / 10 ^ (t + 1 - k), t + 1)
    else None.
Proof.
  intros Hz Hx Hfrac Hj Ht Hzt Hk. unfold digits_with.
  rewrite Hfrac, <- Hx. cbv beta iota zeta.
  rewrite (log10_ratio_integer z j t) by lia.
  rewrite scale10_floor_scaled by lia.
  remember (t + 1 - k) as p eqn:Ep.
  remember (10 ^ p) as P eqn:EP.
  remember (z / P) as lo eqn:Elo.
  assert (Hp : 0 <= p <= 15) by lia.
  assert (HP : 0 < P) by (subst P; apply Z.pow_pos_nonneg; lia).
  assert (HPt : P <= 10 ^ t) by (subst P; apply Z.pow_le_mono_r; lia).
  assert (Hlo1 : 0 < lo) by (subst lo; apply Z.div_str_pos; lia).
  assert (Hlo : lo * P <= z < (lo + 1) * P).
  { subst lo. pose proof (Z.mul_div_le z P HP).
    pose proof (Z.mul_succ_div_gt z P HP). lia. }
  assert (Hbound : (lo + 1) * P < 2 ^ 53).
  { assert (Hsum : (lo + 1) * P = lo * P + P) by ring.
    destruct (Z.le_gt_cases p 14) as [H14 | H14].
    - assert (P <= 10 ^ 14) by (subst P; apply Z.pow_le_mono_r; lia). lia.
    - assert (E15 : P = 10 ^ 15) by (subst P; f_equal; lia).
      assert (lo < 9) by (subst lo; apply Z.div_lt_upper_bound; lia).
      rewrite E15. lia. }
  assert (Ehi : (let '(hi, nhi) := if lo + 1 =? 10 ^ k
                                    then (10 ^ (k - 1), t + 1 + 1)
                                    else (lo + 1, t + 1) in
                 of_decimal false (Z.to_N hi) (nhi - k))
                = round false ((lo + 1) * P) 1).
  { destruct (Z.eqb_spec (lo + 1) (10 ^ k)) as [E | _].
    - rewrite of_decimal_integer by (try apply Z.pow_nonneg; lia).
      f_equal. rewrite E. subst P.
      rewrite <- !Z.pow_add_r by lia. f_equal. lia.
    - rewrite of_decimal_integer by lia. rewrite <- Ep, <- EP. reflexivity. }
  rewrite of_decimal_integer by lia. rewrite <- ?Ep, <- ?EP.
  destruct (if lo + 1 =? 10 ^ k then (10 ^ (k - 1), t + 1 + 1) else (lo + 1, t + 1))
    as [hi nhi].
  rewrite Ehi.
  destruct (eq_dec (round false ((lo + 1) * P) 1) (round false z 1)) as [Eh | _].
  { apply round_integer_inj in Eh; lia. }
  destruct (eq_dec (round false (lo * P) 1) (round false z 1)) as [El | Nl].
  - apply round_integer_inj in El; [ | nia | lia ].
    rewrite El, Z.eqb_refl. reflexivity.
  - destruct (Z.eqb_spec (lo * P) z) as [E | _]; [ | reflexivity ].
    rewrite E in Nl. contradiction.
Qed.

(** The search stops at a digit count [k0] whose digits, followed by
    zeros, are the integer. *)
Lemma shortest_from_integer (z : Z) (m : N) (e j t : Z) :
  0 < z <= max_time ->
  round false z 1 = Finite false m e ->
  fraction m e = (z * 2 ^ j, 2 ^ j) ->
  0 <= j -> 0 <= t <= 15 -> 10 ^ t <= z < 10 ^ (t + 1) ->
  forall (fuel : nat) (k : Z),
    1 <= k <= t + 1 -> t + 1 - k < Z.of_nat fuel ->
    exists s k0,
      shortest_from fuel m e k = (s, t + 1, k0)
      /\ k <= k0 <= t + 1 /\ s * 10 ^ (t + 1 - k0) = z.
Proof.
  intros Hz Hx Hfrac Hj Ht Hzt.
  induction fuel as [ | fuel IH ]; intros k Hk Hfuel; [ lia | ].
  cbn [shortest_from].
  rewrite (digits_with_integer z m e j t k) by assumption.
  destruct (Z.eqb_spec (z / 10 ^ (t + 1 - k) * 10 ^ (t + 1 - k)) z) as [E | N].
  - exists (z / 10 ^ (t + 1 - k)), k. repeat split; [ lia | lia | exact E ].
  - assert (k <> t + 1).
    { intros ->. apply N. replace (t + 1 - (t + 1)) with 0 by lia.
      rewrite Z.pow_0_r, Z.div_1_r. lia. }
    destruct (IH (k + 1)) as (s & k0 & E & Hk0 & Hs); [ lia | lia | ].
    exists s, k0. repeat split; [ exact E | lia | lia | exact Hs ].
Qed.

(** A positive integer in the time-value range prints as its decimal
    expansion. *)
Lemma positive_toString_integer (z : Z) (m : N) (e j : Z) :
  0 < z <= max_time ->
  round false z 1 = Finite false m e ->
  fraction m e = (z * 2 ^ j, 2 ^ j) ->
  0 <= j ->
  positive_toString m e = Js.digits_of_N (Z.to_N z).
Proof.
  intros Hz Hx Hfrac Hj.
  destruct (decimal_exponent_exists z Hz) as (t & Ht & Hzt).
  destruct (shortest_from_integer z m e j t Hz Hx Hfrac Hj Ht Hzt 17%nat 1)
    as (s & k0 & E & Hk0 & Hs); [ lia | lia | ].
  unfold positive_toString. rewrite E.
  destruct (Z.leb_spec k0 (t + 1)); [ | lia ].
  destruct (Z.leb_spec (t + 1) 21); [ | lia ].
  cbn [andb].
  assert (0 < 10 ^ (t + 1 - k0)) by (apply Z.pow_pos_nonneg; lia).
  assert (Hs0 : 0 < s) by nia.
  rewrite <- Digits_facts.digits_of_N_scaled by lia.
  f_equal. rewrite <- Hs.
  rewrite Z2N.inj_mul, Z2N.inj_pow by lia.
  f_equal. f_equal. lia.
Qed.

(** Number::toString of an integer time value is the decimal expansion
    of the integer. *)
Lemma toString_of_Z (z : Z) :
  Z.abs z <= max_time ->
  toString (of_Z z)
  = (if z <? 0 then [45%N] else []) ++ Js.digits_of_N (Z.abs_N z).
Proof.
  intros Hz. destruct (Z.eq_dec z 0) as [-> | Hz0]; [ reflexivity | ].
  assert (Ha : 0 < Z.abs z <= max_time) by lia.
  destruct (fraction_integer (Z.abs z)) as (m & e & j & Hx & Hm & Hj & Hfrac);
    [ lia | ].
  unfold of_Z, of_decimal. cbn [Z.ltb Z.compare].
  rewrite N2Z.inj_abs_N, Z.pow_0_r, Z.mul_1_r.
  assert (Hn : round (z <? 0) (Z.abs z) 1 = Finite (z <? 0) m e).
  { rewrite Float64_facts.round_integer in Hx |- * by lia.
    injection Hx as <- <-. reflexivity. }
  rewrite Hn. cbn [toString]. rewrite Hm.
  rewrite (positive_toString_integer (Z.abs z) m e j Ha Hx Hfrac Hj).
  do 2 f_equal. lia.
Qed.

End Float64_print.

Module Roundtrip.

Import JSON Recents.

(** A time value is an integer a number holds exactly. *)
Lemma time_value_exact (z : Z) : time_value z -> (Z.abs z < 2 ^ 53)%Z.
Proof. unfold time_value. intros H. eapply Z.le_lt_trans; [ exact H | reflexivity ]. Qed.

(** The expansion of a time value, followed by a closing brace, reads
    back as that time value. *)
Lemma parse_number_integer (z : Z) (rest : jsstring) :
  time_value z ->
  parse_number (Float64.toString (Float64.of_Z z) ++ 125 :: rest)
  = Some (Float64.of_Z z, 125 :: rest).
Proof.
  intros Hz. rewrite Float64_print.toString_of_Z by exact Hz.
  rewrite <- app_assoc. apply JSON_facts.parse_number_digits.
Qed.

Lemma parse_value_eq (f : nat) (s : jsstring) :
  parse_value (S f) s =
  match skip_ws s with
  | [] => Invalid
  | c :: r =>
      if c =? 34
      then match parse_string r with
           | Some (t, rest) => Parsed (VString t) rest
           | None => Invalid
           end
      else if c =? 91
      then match after 93 (skip_ws r) with
           | Some rest => Parsed (VArray []) rest
           | None =>
               match parse_elements f (skip_ws r) with
               | Parsed l rest => Parsed (VArray l) rest
               | Invalid => Invalid
               | OutOfFuel => OutOfFuel
               end
           end
      else if c =? 123
      then match after 125 (skip_ws r) with
           | Some rest => Parsed (VObject []) rest
           | None =>
               match parse_members f (skip_ws r) with
               | Parsed ms rest => Parsed (object_of_members ms) rest
               | Invalid => Invalid
               | OutOfFuel => OutOfFuel
               end
           end
      else
        match Js.starts_with (js "true") (c :: r) with
        | Some rest => Parsed (VBool true) rest
        | None =>
            match Js.starts_with (js "false") (c :: r) with
            | Some rest => Parsed (VBool false) rest
            | None =>
                match Js.starts_with (js "null") (c :: r) with
                | Some rest => Parsed VNull rest
                | None =>
                    match parse_number (c :: r) with
                    | Some (x, rest) => Parsed (VNumber x) rest
                    | None => Invalid
                    end
                end
            end
        end
  end.
Proof. reflexivity. Qed.

Lemma parse_elements_eq (f : nat) (s : jsstring) :
  parse_elements (S f) s =
  match parse_value f s with
  | Parsed v rest =>
      match after 44 (skip_ws rest) with
      | Some r =>
          match parse_elements f r with
          | Parsed l rest' => Parsed (v :: l) rest'
          | Invalid => Invalid
          | OutOfFuel => OutOfFuel
          end
      | None =>
          match after 93 (skip_ws rest) with
          | Some r => Parsed [v] r
          | None => Invalid
          end
      end
  | Invalid => Invalid
  | OutOfFuel => OutOfFuel
  end.
Proof. reflexivity. Qed.

Lemma parse_members_eq (f : nat) (s : jsstring) :
  parse_members (S f) s =
  match after 34 (skip_ws s) with
  | Some r =>
      match parse_string r with
      | Some (k, rest) =>
          match after 58 (skip_ws rest) with
          | Some r2 =>
              match parse_value f r2 with
              | Parsed v rest2 =>
                  match after 44 (skip_ws rest2) with
                  | Some r3 =>
                      match parse_members f r3 with
                      | Parsed ms rest3 => Parsed ((k, v) :: ms) rest3
                      | Invalid => Invalid
                      | OutOfFuel => OutOfFuel
                      end
                  | None =>
                      match after 125 (skip_ws rest2) with
                      | Some r3 => Parsed [(k, v)] r3
                      | None => Invalid
                      end
                  end
              | Invalid => Invalid
              | OutOfFuel => OutOfFuel
              end
          | None => Invalid
          end
      | None => Invalid
      end
  | None => Invalid
  end.
Proof. reflexivity. Qed.

Lemma skip_ws_stop (c : N) (r : jsstring) :
  is_ws c = false -> skip_ws (c :: r) = c :: r.
Proof. intros H. simpl. rewrite H. reflexivity. Qed.

Lemma parse_value_string (f : nat) (s rest : jsstring) :
  parse_value (S f) (quote s ++ rest) = Parsed (VString s) rest.
Proof.
  rewrite JSON_facts.quote_app, parse_value_eq.
  rewrite skip_ws_stop by reflexivity. change (34 =? 34) with true. cbv iota.
  rewrite JSON_facts.parse_string_quote. reflexivity.
Qed.


(** A text that starts with a digit or a minus sign is a number. *)
Lemma parse_value_numeric (f : nat) (c : N) (r : jsstring) :
  c = 45 \/ Js.is_digit c = true ->
  parse_value (S f) (c :: r) =
  match parse_number (c :: r) with
  | Some (x, rest) => Parsed (VNumber x) rest
  | None => Invalid
  end.
Proof.
  intros [-> | Hc]; [ reflexivity | ].
  apply Digits_facts.is_digit_cases in Hc.
  repeat (destruct Hc as [-> | Hc]; [ reflexivity | ]). subst c. reflexivity.
Qed.

Lemma toString_of_Z_head (z : Z) :
  time_value z ->
  exists c r, Float64.toString (Float64.of_Z z) = c :: r
              /\ (c = 45 \/ Js.is_digit c = true).
Proof.
  intros Hz. rewrite Float64_print.toString_of_Z by exact Hz.
  destruct (Js_facts.digits_of_N_head (Z.abs_N z)) as (c & r & Hd & _).
  pose proof (Js_facts.digits_of_N_digits (Z.abs_N z)) as Hall.
  rewrite Hd in *. inversion Hall; subst.
  destruct (z <? 0)%Z; simpl; eauto.
Qed.

Lemma parse_value_integer (f : nat) (z : Z) (rest : jsstring) :
  time_value z ->
  parse_value (S f) (Float64.toString (Float64.of_Z z) ++ 125 :: rest)
  = Parsed (VNumber (Float64.of_Z z)) (125 :: rest).
Proof.
  intros Hz.
  pose proof (parse_number_integer z rest Hz) as Hnum.
  destruct (toString_of_Z_head z Hz) as (c & r & Hs & Hc).
  rewrite Hs in *. cbn [app] in *.
  rewrite parse_value_numeric by assumption. rewrite Hnum. reflexivity.
Qed.

(** The text of an entry. *)
Lemma serialize_entry (r : RecentTicker) :
  time_value (timestamp r) ->
  serialize_element (to_value r) =
  123 :: quote (js "symbol") ++ 58 :: quote (symbol r) ++ 44 ::
  quote (js "name") ++ 58 :: quote (name r) ++ 44 ::
  quote (js "timestamp") ++ 58 ::
  Float64.toString (Float64.of_Z (timestamp r)) ++ [125].
Proof.
  intros Ht. unfold serialize_element, to_value, recent_entry.
  cbn [serialize join app].
  rewrite Float64_facts.is_finite_of_Z by (apply time_value_exact; assumption).
  repeat first [ rewrite <- app_assoc | rewrite <- app_comm_cons ].
  reflexivity.
Qed.

Lemma parse_value_quoted (f : nat) (s rest : jsstring) :
  parse_value (S f) (34 :: quote_body s ++ 34 :: rest) = Parsed (VString s) rest.
Proof. rewrite <- JSON_facts.quote_app. apply parse_value_string. Qed.

Ltac read_text :=
  repeat first
    [ rewrite JSON_facts.parse_string_quote
    | rewrite parse_value_quoted
    | rewrite parse_value_integer by assumption
    | rewrite skip_ws_stop by reflexivity
    | progress cbn [after N.eqb Pos.eqb]
    | progress cbv beta iota ].

(** An entry reads back as itself. *)
Lemma parse_value_entry (f : nat) (r : RecentTicker) (rest : jsstring) :
  time_value (timestamp r) ->
  parse_value (5 + f) (serialize_element (to_value r) ++ rest)
  = Parsed (to_value r) rest.
Proof.
  intros Ht. rewrite serialize_entry by assumption.
  repeat first [ rewrite <- app_assoc | rewrite <- app_comm_cons ].
  rewrite !JSON_facts.quote_app. cbn [app Nat.add].
  rewrite parse_value_eq. read_text.
  rewrite parse_members_eq. read_text.
  rewrite parse_members_eq. read_text.
  rewrite parse_members_eq. read_text.
  reflexivity.
Qed.

Lemma join_cons2 (sep a b : jsstring) (l : list jsstring) :
  join sep (a :: b :: l) = a ++ sep ++ join sep (b :: l).
Proof. reflexivity. Qed.

(** The elements of a stored list, up to the closing bracket. *)
Lemma parse_elements_entries (l : list RecentTicker) :
  forall (f : nat) (rest : jsstring),
  l <> [] -> well_formed l ->
  parse_elements (5 + List.length l + f)
    (join [44] (List.map serialize_element (List.map to_value l)) ++ 93 :: rest)
  = Parsed (List.map to_value l) rest.
Proof.
  induction l as [ | r l IH ]; intros f rest Hne Hwf; [ contradiction | ].
  inversion Hwf as [ | ? ? Hr Hl ]; subst.
  replace (5 + List.length (r :: l) + f)%nat
    with (S (5 + (List.length l + f)))%nat by (simpl; lia).
  rewrite parse_elements_eq.
  destruct l as [ | r2 l ].
  - cbn [List.map join]. rewrite parse_value_entry by assumption.
    rewrite skip_ws_stop by reflexivity. reflexivity.
  - cbn [List.map]. rewrite join_cons2.
    repeat first [ rewrite <- app_assoc | rewrite <- app_comm_cons ].
    rewrite parse_value_entry by assumption.
    cbn [app]. rewrite skip_ws_stop by reflexivity.
    cbn [after N.eqb Pos.eqb]. cbv beta iota.
    replace (5 + (List.length (r2 :: l) + f))%nat
      with (5 + List.length (r2 :: l) + f)%nat by lia.
    change (join [44] (serialize_element (to_value r2)
                       :: List.map serialize_element (List.map to_value l)))
      with (join [44] (List.map serialize_element (List.map to_value (r2 :: l)))).
    rewrite IH by (assumption || discriminate). reflexivity.
Qed.

Lemma length_join (sep : jsstring) (xs : list jsstring) :
  Forall (fun x => (1 <= List.length x)%nat) xs ->
  (List.length xs <= List.length (join sep xs))%nat.
Proof.
  induction 1 as [ | x xs Hx Hxs IH ]; [ simpl; lia | ].
  destruct xs as [ | y ys ]; [ simpl; lia | ].
  rewrite join_cons2, !length_app. simpl in *. lia.
Qed.

Lemma length_stored (l : list RecentTicker) :
  well_formed l -> (List.length l + 2 <= List.length (stored l))%nat.
Proof.
  intros Hwf. unfold stored, stringify_array.
  rewrite !length_app. simpl.
  assert (H : (List.length (List.map serialize_element (List.map to_value l))
               <= List.length (join [44%N] (List.map serialize_element
                                              (List.map to_value l))))%nat).
  { apply length_join. rewrite !Forall_map.
    eapply List.Forall_impl; [ | exact Hwf ].
    intros r Hr. cbv beta. rewrite serialize_entry by assumption. simpl. lia. }
  rewrite !length_map in H. lia.
Qed.

(** [JSON.parse] reads a stored list back. *)
Lemma parse_stored_list (l : list RecentTicker) :
  well_formed l -> parse (stored l) = Ok (VArray (List.map to_value l)).
Proof.
  intros Hwf. unfold parse.
  destruct l as [ | r l ]; [ reflexivity | ].
  pose proof (length_stored (r :: l) Hwf) as Hlen.
  assert (Hfuel : exists f, parse_fuel (stored (r :: l))
                            = S (5 + List.length (r :: l) + f)).
  { exists (parse_fuel (stored (r :: l)) - S (5 + List.length (r :: l)))%nat.
    unfold parse_fuel. simpl in *. lia. }
  destruct Hfuel as [f ->].
  unfold stored, stringify_array.
  rewrite parse_value_eq. cbn [app].
  rewrite skip_ws_stop by reflexivity. cbn [N.eqb Pos.eqb]. cbv beta iota.
  cbn [List.map].
  assert (Hhead : exists t, join [44] (List.map serialize_element
                                         (List.map to_value (r :: l))) ++ [93]
                            = 123 :: t).
  { inversion Hwf; subst. cbn [List.map].
    destruct l; [ cbn [List.map join] | cbn [List.map]; rewrite join_cons2 ];
      rewrite serialize_entry by assumption; cbn [app]; eauto. }
  destruct Hhead as [t Ht]. cbn [List.map] in Ht. rewrite Ht.
  rewrite skip_ws_stop by reflexivity. cbn [after N.eqb Pos.eqb]. cbv beta iota.
  rewrite <- Ht.
  change (serialize_element (to_value r)
          :: List.map serialize_element (List.map to_value l))
    with (List.map serialize_element (List.map to_value (r :: l))).
  rewrite parse_elements_entries by (assumption || discriminate).
  reflexivity.
Qed.

Lemma to_value_inj (r r' : RecentTicker) :
  time_value (timestamp r) -> time_value (timestamp r') ->
  to_value r = to_value r' -> r = r'.
Proof.
  intros Hr Hr' H. destruct r as [s n t], r' as [s' n' t'].
  unfold to_value, recent_entry in H. simpl in *.
  injection H as Hs Hn Ht. subst.
  apply (f_equal Float64.to_Z) in Ht.
  rewrite !Float64_facts.to_Z_of_Z in Ht by (apply time_value_exact; assumption).
  inversion Ht. reflexivity.
Qed.

Lemma map_to_value_inj (l l' : list RecentTicker) :
  well_formed l -> well_formed l' ->
  List.map to_value l = List.map to_value l' -> l = l'.
Proof.
  intros Hl. revert l'. induction Hl as [ | r l Hr _ IH ]; intros l' Hl' H.
  - destruct l'; [ reflexivity | discriminate ].
  - destruct Hl' as [ | r' l' Hr' Hl' ]; [ discriminate | ].
    cbn [List.map] in H.
    pose proof (f_equal (List.hd VNull) H) as Hhead.
    pose proof (f_equal (@List.tl value) H) as Htail.
    cbn [List.hd List.tl] in Hhead, Htail.
    f_equal; [ apply to_value_inj; assumption | apply IH; assumption ].
Qed.

(** Two lists with the same text are the same list. *)
Lemma stored_inj (l l' : list RecentTicker) :
  well_formed l -> well_formed l' -> stored l = stored l' -> l = l'.
Proof.
  intros Hl Hl' H.
  pose proof (parse_stored_list l Hl) as P.
  rewrite H, (parse_stored_list l' Hl') in P.
  assert (E : List.map to_value l = List.map to_value l') by congruence.
  apply map_to_value_inj; assumption.
Qed.

(** [JSON.stringify] of an array, by the general serialisation. *)
Lemma serialize_array (l : list value) :
  serialize (VArray l) = Some (stringify_array l).
Proof. reflexivity. Qed.

(** The stored text is not the empty string. *)
Lemma stored_not_empty (l : list RecentTicker) :
  Api_format.is_empty (stored l) = false.
Proof. reflexivity. Qed.

End Roundtrip.

(** ** The recents store on well-formed lists *)

Module Store_facts.

Import Recents History.

Lemma other_symbol_entry (sym : jsstring) (r : RecentTicker) :
  other_symbol sym (to_value r) = Ok (other sym r).
Proof. reflexivity. Qed.

Lemma filter_entries (sym : jsstring) (l : list RecentTicker) :
  Value.filter (other_symbol sym) (VArray (List.map to_value l))
  = Ok (List.map to_value (List.filter (other sym) l)).
Proof.
  simpl. induction l as [ | r l IH ]; [ reflexivity | ].
  cbn [List.map Value.filter_outcome List.filter].
  rewrite other_symbol_entry. cbn [obind]. rewrite IH. cbn [obind].
  destruct (other sym r); reflexivity.
Qed.

(** Reading the store gives the list it holds. *)
Lemma read_holds (w : World) (l : list RecentTicker) :
  holds w l -> well_formed l ->
  (let* stored := LocalStorage.getItem RECENTS_KEY in parse_stored stored) w
  = (Ok (VArray (List.map to_value l)), w).
Proof.
  intros Hh Hwf. unfold bind, LocalStorage.getItem.
  destruct Hh as [Hs | [Hs ->]]; rewrite Hs; cbn [parse_stored].
  - rewrite Roundtrip.stored_not_empty. unfold lift.
    rewrite Roundtrip.parse_stored_list by assumption.
    reflexivity.
  - reflexivity.
Qed.

Lemma bind_assoc {A B C} (m : M A) (k : A -> M B) (k' : B -> M C) (w : World) :
  bind (bind m k) k' w = bind m (fun a => bind (k a) k') w.
Proof. unfold bind. destruct (m w) as [[a | e] w']; reflexivity. Qed.

Lemma bind_eq {A B} (m : M A) (k : A -> M B) (w w' : World) (a : A) :
  m w = (Ok a, w') -> bind m k w = k a w'.
Proof. intros H. unfold bind. rewrite H. reflexivity. Qed.

Lemma to_value_entry (sym nm : jsstring) (t : Z) :
  recent_entry sym nm (Float64.of_Z t)
  = to_value {| symbol := sym; name := nm; timestamp := t |}.
Proof. reflexivity. Qed.

(** [addToRecents] of [zacks-rank.tsx] on a store that holds [l]. *)
Lemma addToRecents_holds (w : World) (l : list RecentTicker) (sym nm : jsstring) :
  holds w l -> well_formed l ->
  ZacksRank.addToRecents sym nm w
  = (Ok tt,
     set_storage (insert RECENTS_KEY (stored (upserted sym nm (clock w) l))) w).
Proof.
  intros Hh Hwf. unfold ZacksRank.addToRecents.
  rewrite <- bind_assoc.
  rewrite (bind_eq _ _ _ _ _ (read_holds w l Hh Hwf)).
  unfold bind at 1, lift. rewrite filter_entries.
  unfold bind, Date_now, LocalStorage.setItem.
  rewrite to_value_entry.
  rewrite <- (map_cons to_value), firstn_map. reflexivity.
Qed.

(** The two commands carry the same [addToRecents]. *)
Lemma addToRecents_same (sym nm : jsstring) :
  QuickLookup.addToRecents sym nm = ZacksRank.addToRecents sym nm.
Proof. reflexivity. Qed.

(** [removeRecent] on a store that holds [l]. *)
Lemma removeRecent_holds (w : World) (l : list RecentTicker) (sym : jsstring) :
  holds w l -> well_formed l ->
  RecentStocks.removeRecent sym w
  = (Ok tt,
     count_revalidation
       (log_toast (js "Removed " ++ sym)
          (set_storage (insert RECENTS_KEY (stored (removed sym l))) w))).
Proof.
  intros Hh Hwf. unfold RecentStocks.removeRecent.
  rewrite <- bind_assoc.
  rewrite (bind_eq _ _ _ _ _ (read_holds w l Hh Hwf)).
  unfold bind at 1, lift. rewrite filter_entries.
  reflexivity.
Qed.

End Store_facts.

Module List_facts.

Import Recents.

Lemma In_symbols_filter (a sym : jsstring) (l : list RecentTicker) :
  In a (symbols (List.filter (other sym) l)) <-> In a (symbols l) /\ a <> sym.
Proof.
  unfold symbols. rewrite !in_map_iff. split.
  - intros (r & <- & Hr). apply filter_In in Hr as [Hin Hother].
    split; [ exists r; auto | ].
    unfold other in Hother. apply negb_true_iff, Js_facts.eqb_neq in Hother.
    assumption.
  - intros [(r & <- & Hin) Hne]. exists r. split; [ reflexivity | ].
    apply filter_In. split; [ assumption | ].
    unfold other. apply negb_true_iff, Js_facts.eqb_neq. assumption.
Qed.

Lemma NoDup_symbols_filter (sym : jsstring) (l : list RecentTicker) :
  List.NoDup (symbols l) -> List.NoDup (symbols (List.filter (other sym) l)).
Proof.
  induction l as [ | r l IH ]; simpl; intros Hnd; [ constructor | ].
  apply NoDup_cons_iff in Hnd as [Hnotin Hnd].
  destruct (other sym r); [ | auto ].
  simpl. apply NoDup_cons_iff. split; [ | auto ].
  intros Hin. apply In_symbols_filter in Hin as [Hin _]. contradiction.
Qed.

Lemma In_firstn {A} (x : A) (n : nat) (l : list A) :
  In x (firstn n l) -> In x l.
Proof.
  revert n. induction l as [ | a l IH ]; intros [ | n ]; simpl; try tauto.
  intros [-> | Hin]; [ auto | right; eauto ].
Qed.

Lemma NoDup_firstn {A} (n : nat) (l : list A) : List.NoDup l -> List.NoDup (firstn n l).
Proof.
  revert n. induction l as [ | a l IH ]; intros [ | n ] Hnd; simpl;
    try constructor.
  - apply NoDup_cons_iff in Hnd as [Hnotin _].
    intros Hin. apply Hnotin. eapply In_firstn; eassumption.
  - apply IH. apply NoDup_cons_iff in Hnd as [_ Hnd]. assumption.
Qed.

Lemma Forall_filter {A} (P : A -> Prop) (f : A -> bool) (l : list A) :
  Forall P l -> Forall P (List.filter f l).
Proof.
  intros H. apply List.Forall_forall. intros x Hx.
  apply filter_In in Hx as [Hx _].
  eapply List.Forall_forall in H; eassumption.
Qed.

Lemma Forall_firstn {A} (P : A -> Prop) (n : nat) (l : list A) :
  Forall P l -> Forall P (firstn n l).
Proof.
  intros H. apply List.Forall_forall. intros x Hx.
  apply In_firstn in Hx.
  eapply List.Forall_forall in H; eassumption.
Qed.

(** An entry with another symbol is untouched by the filter. *)
Lemma filter_other_id (sym : jsstring) (l : list RecentTicker) :
  ~ In sym (symbols l) -> List.filter (other sym) l = l.
Proof.
  induction l as [ | r l IH ]; simpl; intros Hnotin; [ reflexivity | ].
  unfold other at 1.
  destruct (Js.eqb (symbol r) sym) eqn:E.
  - apply Js_facts.eqb_eq in E. exfalso. apply Hnotin. left. assumption.
  - simpl. rewrite IH; [ reflexivity | ]. intros Hin. apply Hnotin. right.
    assumption.
Qed.

Lemma upserted_well_formed (sym nm : jsstring) (t : Z) (l : list RecentTicker) :
  time_value t -> well_formed l -> well_formed (upserted sym nm t l).
Proof.
  intros Ht Hl. unfold upserted, well_formed. apply Forall_firstn.
  constructor; [ exact Ht | apply Forall_filter; exact Hl ].
Qed.

Lemma upserted_NoDup (sym nm : jsstring) (t : Z) (l : list RecentTicker) :
  List.NoDup (symbols l) -> List.NoDup (symbols (upserted sym nm t l)).
Proof.
  intros Hnd. unfold upserted, symbols. rewrite <- firstn_map.
  apply NoDup_firstn. simpl. apply NoDup_cons_iff. split.
  - intros Hin. apply (In_symbols_filter sym sym l) in Hin as [_ Hne].
    apply Hne. reflexivity.
  - apply NoDup_symbols_filter. assumption.
Qed.

Lemma upserted_length (sym nm : jsstring) (t : Z) (l : list RecentTicker) :
  (List.length (upserted sym nm t l) <= 10)%nat.
Proof. unfold upserted. apply firstn_le_length. Qed.

Lemma firstn_app_firstn {A} (a b : list A) :
  forall n m : nat, (n <= m)%nat ->
  firstn n (a ++ firstn m b) = firstn n (a ++ b).
Proof.
  induction a as [ | x a IH ]; intros n m Hle; simpl.
  - rewrite firstn_firstn. f_equal. lia.
  - destruct n as [ | n ]; [ reflexivity | ]. simpl. f_equal.
    apply IH. lia.
Qed.

End List_facts.

Module History_facts.

Import Recents History.

Lemma holds_written (w : World) (l : list RecentTicker) :
  holds (set_storage (insert RECENTS_KEY (stored l)) w) l.
Proof. left. simpl. apply lookup_insert_eq. Qed.

Lemma holds_empty (w : World) : storage w !! RECENTS_KEY = None -> holds w [].
Proof. intros H. right. split; [ assumption | reflexivity ]. Qed.

Lemma holds_set_clock (t : Z) (w : World) (l : list RecentTicker) :
  holds w l -> holds (set_clock t w) l.
Proof. intros H. exact H. Qed.

(** The store holds one list only. *)
Lemma holds_unique (w : World) (l l' : list RecentTicker) :
  holds w l -> holds w l' -> well_formed l -> well_formed l' -> l = l'.
Proof.
  intros [H | [H ->]] [H' | [H' ->]] Hl Hl'; try congruence.
  assert (E : stored l = stored l') by congruence.
  apply Roundtrip.stored_inj;
    [ assumption ..  | exact E ].
Qed.

(** One upsert, at time [t], on a store that holds [l]. *)
Lemma upsert_step (quick : bool) (t : Z) (w : World) (l : list RecentTicker)
  (sym nm : jsstring) :
  holds w l -> well_formed l ->
  snd (perform (Upsert quick sym nm) (set_clock t w))
  = set_storage (insert RECENTS_KEY (stored (upserted sym nm t l))) (set_clock t w).
Proof.
  intros Hh Hwf.
  assert (H : perform (Upsert quick sym nm) (set_clock t w)
              = ZacksRank.addToRecents sym nm (set_clock t w))
    by (destruct quick; reflexivity).
  rewrite H, (Store_facts.addToRecents_holds _ l) by assumption.
  reflexivity.
Qed.

Lemma remove_step (t : Z) (w : World) (l : list RecentTicker) (sym : jsstring) :
  holds w l -> well_formed l ->
  holds (snd (perform (Remove sym) (set_clock t w))) (removed sym l).
Proof.
  intros Hh Hwf. cbn [perform].
  rewrite (Store_facts.removeRecent_holds _ l) by assumption.
  left. simpl. apply lookup_insert_eq.
Qed.

Lemma clear_step (t : Z) (w : World) :
  holds (snd (perform Clear (set_clock t w))) [].
Proof. right. split; [ simpl; apply lookup_delete_eq | reflexivity ]. Qed.

Lemma invariant_step (t : Z) (a : action) (w : World) :
  time_value t -> invariant w -> invariant (snd (perform a (set_clock t w))).
Proof.
  intros Ht (l & Hh & Hwf & Hnd & Hlen).
  destruct a as [quick sym nm | sym | ].
  - exists (upserted sym nm t l).
    rewrite (upsert_step quick t w l) by assumption.
    split; [ apply holds_written | ].
    split; [ apply List_facts.upserted_well_formed; assumption | ].
    split; [ apply List_facts.upserted_NoDup; assumption
           | apply List_facts.upserted_length ].
  - exists (removed sym l).
    split; [ apply remove_step; assumption | ].
    split; [ apply List_facts.Forall_filter; assumption | ].
    split; [ apply List_facts.NoDup_symbols_filter; assumption | ].
    unfold removed.
    pose proof (filter_length_le (other sym) l). lia.
  - exists []. split; [ apply clear_step | ].
    split; [ constructor | ]. split; [ constructor | simpl; lia ].
Qed.

Lemma invariant_run (h : list (Z * action)) :
  forall w, timed h -> invariant w -> invariant (run h w).
Proof.
  induction h as [ | [t a] h IH ]; intros w Hh Hinv; [ exact Hinv | ].
  inversion Hh as [ | ? ? Ht Hrest ]; subst. simpl.
  apply IH; [ assumption | ]. apply invariant_step; assumption.
Qed.

(** Upserting entries with fresh, distinct symbols piles them up, the
    latest first, and the cap cuts the oldest off. *)
Lemma run_fresh_upserts (quick : bool) (es : list RecentTicker) :
  forall (w : World) (l0 : list RecentTicker),
  holds w l0 -> well_formed l0 -> (List.length l0 <= 10)%nat ->
  well_formed es -> List.NoDup (symbols es) ->
  (forall s, In s (symbols es) -> ~ In s (symbols l0)) ->
  holds (run (List.map (upsert_of quick) es) w) (firstn 10 (rev es ++ l0)).
Proof.
  induction es as [ | e es IH ]; intros w l0 Hh Hwf0 Hlen Hwf Hnd Hfresh.
  - simpl. rewrite firstn_all2 by assumption. exact Hh.
  - inversion Hwf as [ | ? ? Hte Hwfes ]; subst.
    apply NoDup_cons_iff in Hnd as [Hne Hnd].
    cbn [List.map run upsert_of fst snd].
    rewrite (upsert_step quick _ w l0) by assumption.
    assert (Hup : upserted (symbol e) (name e) (timestamp e) l0
                  = firstn 10 (e :: l0)).
    { unfold upserted. rewrite List_facts.filter_other_id.
      - destruct e; reflexivity.
      - apply Hfresh. left. reflexivity. }
    rewrite Hup.
    replace (firstn 10 (rev (e :: es) ++ l0))
      with (firstn 10 (rev es ++ firstn 10 (e :: l0))).
    + apply IH.
      * apply holds_written.
      * apply List_facts.Forall_firstn. constructor; assumption.
      * apply firstn_le_length.
      * assumption.
      * assumption.
      * intros s Hs Hin. unfold symbols in Hin. rewrite <- firstn_map in Hin.
        apply List_facts.In_firstn in Hin. simpl in Hin.
        destruct Hin as [<- | Hin]; [ contradiction | ].
        apply (Hfresh s); [ right; assumption | assumption ].
    + rewrite List_facts.firstn_app_firstn by lia.
      simpl. rewrite <- app_assoc. reflexivity.
Qed.

Lemma time_value_example (t : Z) :
  (Z.abs t <=? 8640000000000000)%Z = true -> time_value t.
Proof. intros H. apply Z.leb_le. exact H. Qed.

End History_facts.

(** ** parseFloat reads a prefix *)

Module ParseFloat_facts.

Import ParseFloat Numeral.

Lemma all_digits_Forall (s : jsstring) :
  all_digits s = true -> Forall (fun c => Js.is_digit c = true) s.
Proof.
  unfold all_digits. intros H. apply List.Forall_forall. intros c Hc.
  rewrite forallb_forall in H. auto.
Qed.

Lemma digit_not_white_space (c : N) :
  Js.is_digit c = true -> is_white_space c = false.
Proof.
  intros H. apply Digits_facts.is_digit_cases in H.
  repeat (destruct H as [-> | H]; [ reflexivity | ]). subst. reflexivity.
Qed.

Lemma digit_range (c : N) : Js.is_digit c = true -> 48 <= c <= 57.
Proof.
  unfold Js.is_digit. intros H. apply andb_true_iff in H as [H1 H2].
  apply N.leb_le in H1, H2. lia.
Qed.

Lemma continues_stops (rest : jsstring) :
  continues rest = false -> Js.stops_digits rest = true.
Proof.
  destruct rest as [ | c r ]; [ reflexivity | ]. simpl.
  intros H. apply orb_false_iff in H as [H _].
  apply orb_false_iff in H as [H _]. apply orb_false_iff in H as [H _].
  rewrite H. reflexivity.
Qed.

Lemma exponent_part_none (rest : jsstring) :
  continues rest = false -> exponent_part rest = 0%Z.
Proof.
  destruct rest as [ | c r ]; [ reflexivity | ]. simpl.
  intros H. apply orb_false_iff in H as [H H69].
  apply orb_false_iff in H as [_ H101]. rewrite H101, H69. reflexivity.
Qed.

(** The digits and the fraction are read, and what follows is left. *)
Lemma unsigned_literal_prefix (neg : bool) (ip : jsstring)
  (frac : option jsstring) (rest : jsstring) :
  ip <> [] -> all_digits ip = true -> all_digits (fraction_digits frac) = true ->
  continues rest = false ->
  unsigned_literal neg (Numeral.text [] ip frac ++ rest)
  = Float64.of_decimal neg (Js.N_of_digits (ip ++ fraction_digits frac))
      (- Z.of_nat (List.length (fraction_digits frac))).
Proof.
  intros Hne Hip Hfp Hrest. unfold unsigned_literal, Numeral.text.
  cbn [app]. rewrite <- app_assoc.
  apply all_digits_Forall in Hip, Hfp.
  destruct ip as [ | c ip' ]; [ contradiction | ].
  assert (Hc : Js.is_digit c = true) by (inversion Hip; assumption).
  apply digit_range in Hc.
  assert (Hinf : Js.starts_with (js "Infinity")
                   ((c :: ip') ++ match frac with
                                  | Some fp => 46 :: fp
                                  | None => []
                                  end ++ rest) = None).
  { change (js "Infinity") with (73 :: js "nfinity").
    cbn [Js.starts_with app].
    destruct (N.eqb_spec 73 c); [ lia | reflexivity ]. }
  rewrite Hinf.
  destruct frac as [ fp | ]; cbn [fraction_digits] in *.
  - rewrite (Js_facts.span_digits_app (c :: ip') ((46 :: fp) ++ rest))
      by (assumption || reflexivity).
    cbn [app]. change (46 =? 46) with true. cbv iota.
    rewrite (Js_facts.span_digits_app fp rest)
      by (assumption || apply continues_stops; assumption).
    rewrite exponent_part_none by assumption. reflexivity.
  - cbn [app]. rewrite app_nil_r.
    change (c :: ip' ++ rest) with ((c :: ip') ++ rest).
    rewrite (Js_facts.span_digits_app (c :: ip') rest)
      by (assumption || apply continues_stops; assumption).
    assert (Hdot : match rest with
                   | [] => ([], rest)
                   | c0 :: r => if c0 =? 46 then Js.span_digits r else ([], rest)
                   end = (@nil N, rest)).
    { destruct rest as [ | d r ]; [ reflexivity | ]. simpl in Hrest.
      apply orb_false_iff in Hrest as [H _].
      apply orb_false_iff in H as [H _]. apply orb_false_iff in H as [_ H].
      rewrite H. reflexivity. }
    rewrite Hdot. rewrite exponent_part_none by assumption.
    rewrite app_nil_r. reflexivity.
Qed.

Lemma is_sign_cases (sign : jsstring) :
  is_sign sign = true -> sign = [] \/ sign = [45] \/ sign = [43].
Proof.
  unfold is_sign. intros H.
  apply orb_true_iff in H as [H | H]; [ apply orb_true_iff in H as [H | H] | ];
    apply Js_facts.eqb_eq in H; auto.
Qed.

(** [parseFloat] of a numeral followed by other text is the number the
    numeral denotes. *)
Lemma parseFloat_prefix (sign ip : jsstring) (frac : option jsstring)
  (rest : jsstring) :
  is_sign sign = true -> ip <> [] -> all_digits ip = true ->
  all_digits (fraction_digits frac) = true -> continues rest = false ->
  parseFloat (Numeral.text sign ip frac ++ rest) = Numeral.number sign ip frac.
Proof.
  intros Hsign Hne Hip Hfp Hrest.
  pose proof (unsigned_literal_prefix true ip frac rest Hne Hip Hfp Hrest) as Ht.
  pose proof (unsigned_literal_prefix false ip frac rest Hne Hip Hfp Hrest) as Hf.
  unfold Numeral.number.
  apply is_sign_cases in Hsign as [-> | [-> | ->]].
  - destruct ip as [ | c ip' ]; [ contradiction | ].
    assert (Hc : Js.is_digit c = true).
    { apply all_digits_Forall in Hip. inversion Hip; assumption. }
    unfold parseFloat. unfold Numeral.text in *. cbn [app] in *.
    cbn [trim_start]. rewrite (digit_not_white_space c Hc).
    cbn [signed_literal]. apply digit_range in Hc.
    destruct (N.eqb_spec c 45); [ lia | ].
    destruct (N.eqb_spec c 43); [ lia | ]. exact Hf.
  - exact Ht.
  - exact Hf.
Qed.

Lemma span_digits_head (s : jsstring) :
  match fst (Js.span_digits s) with
  | [] => match s with c :: _ => Js.is_digit c = false | [] => True end
  | _ :: _ => match s with c :: _ => Js.is_digit c = true | [] => False end
  end.
Proof.
  destruct s as [ | c r ]; simpl; [ exact I | ].
  destruct (Js.is_digit c) eqn:E; [ | reflexivity ].
  destruct (Js.span_digits r). simpl. reflexivity.
Qed.

Lemma match_digits_NaN (neg : bool) (ds : jsstring) (e : Z) :
  Float64.isNaN match ds with
                | [] => Float64.NaN
                | n :: l => Float64.of_decimal neg (Js.N_of_digits (n :: l)) e
                end
  = match ds with [] => true | _ => false end.
Proof.
  destruct ds; [ reflexivity | apply Float64_facts.of_decimal_not_NaN ].
Qed.

Lemma unsigned_literal_NaN (neg : bool) (s : jsstring) :
  Float64.isNaN (unsigned_literal neg s) = negb (unsigned_starts s).
Proof.
  unfold unsigned_literal, unsigned_starts.
  destruct (Js.starts_with (js "Infinity") s); [ reflexivity | ].
  pose proof (span_digits_head s) as Hhead.
  destruct (Js.span_digits s) as [ip r1] eqn:Espan. simpl in Hhead.
  destruct ip as [ | d ip' ].
  - destruct s as [ | c r ].
    + simpl in Espan. inversion Espan; subst. reflexivity.
    + rewrite Hhead. simpl in Espan. rewrite Hhead in Espan.
      inversion Espan; subst. cbn [orb].
      destruct (c =? 46); [ | reflexivity ].
      pose proof (span_digits_head r) as Hr.
      destruct (Js.span_digits r) as [fp r2]. simpl in Hr.
      cbn [app andb]. rewrite match_digits_NaN.
      destruct fp, r; simpl in *; try rewrite Hr; try reflexivity; contradiction.
  - destruct s as [ | c r ]; [ contradiction | ].
    rewrite Hhead. cbn [orb negb].
    destruct (match r1 with
              | [] => ([], r1)
              | c0 :: r0 => if c0 =? 46 then Js.span_digits r0 else ([], r1)
              end) as [fp r2].
    cbn [app]. apply Float64_facts.of_decimal_not_NaN.
Qed.

(** [parseFloat] fails on the strings that start with no numeral, and
    on no other. *)
Lemma parseFloat_NaN (s : jsstring) :
  Float64.isNaN (parseFloat s) = negb (Numeral.starts s).
Proof.
  unfold parseFloat, Numeral.starts, signed_literal.
  destruct (trim_start s) as [ | c r ].
  - apply (unsigned_literal_NaN false []).
  - destruct (c =? 45); [ apply unsigned_literal_NaN | ].
    destruct (c =? 43); [ apply unsigned_literal_NaN | ].
    apply (unsigned_literal_NaN false (c :: r)).
Qed.

End ParseFloat_facts.

(** ** JSON.parse is total: the fuel it takes is enough *)

Module Fuel.

Import JSON.

Lemma skip_ws_length (s : jsstring) :
  (List.length (skip_ws s) <= List.length s)%nat.
Proof.
  induction s as [ | c r IH ]; simpl; [ lia | ].
  destruct (is_ws c); simpl; lia.
Qed.

Lemma skip_ws_cons_length (s r : jsstring) (c : N) :
  skip_ws s = c :: r -> (List.length r < List.length s)%nat.
Proof.
  intros H. pose proof (skip_ws_length s) as Hl. rewrite H in Hl.
  simpl in Hl. lia.
Qed.

Lemma span_digits_length (s : jsstring) :
  (List.length (snd (Js.span_digits s)) <= List.length s)%nat.
Proof.
  induction s as [ | c r IH ]; simpl; [ lia | ].
  destruct (Js.is_digit c); [ | simpl; lia ].
  destruct (Js.span_digits r). simpl in *. lia.
Qed.

Ltac break_match :=
  match goal with
  | H : context [match ?x with _ => _ end] |- _ => destruct x eqn:?
  | |- context [match ?x with _ => _ end] => destruct x eqn:?
  end.

Lemma parse_string_length_bounded (n : nat) :
  forall s t rest, (List.length s <= n)%nat ->
  parse_string s = Some (t, rest) -> (List.length rest <= List.length s)%nat.
Proof.
  induction n as [ | n IH ]; intros s t rest Hn H.
  - destruct s; [ discriminate | simpl in Hn; lia ].
  - destruct s as [ | c r ]; [ discriminate | ].
    simpl in Hn. cbn [parse_string] in H.
    destruct (c =? 34); [ inversion H; subst; simpl; lia | ].
    assert (Hstep : forall (u : N) (r' : jsstring),
               (List.length r' <= n)%nat ->
               (List.length r' <= List.length (c :: r))%nat ->
               option_map (fun '(t0, rest0) => (u :: t0, rest0)) (parse_string r')
               = Some (t, rest) ->
               (List.length rest <= List.length (c :: r))%nat).
    { intros u r' Hr' Hle Hp.
      destruct (parse_string r') as [[t0 rest0] | ] eqn:E; [ | discriminate ].
      simpl in Hp. inversion Hp; subst.
      pose proof (IH _ _ _ Hr' E). lia. }
    destruct (c =? 92).
    + destruct r as [ | e r1 ]; [ discriminate | ]. simpl in Hn.
      assert (H1 : forall u,
                 option_map (fun '(t0, rest0) => (u :: t0, rest0)) (parse_string r1)
                 = Some (t, rest) ->
                 (List.length rest <= List.length (c :: e :: r1))%nat)
        by (intros u; apply Hstep; simpl; lia).
      destruct (N.eq_dec e 117) as [-> | Hne].
      * destruct r1 as [ | a [ | b [ | c0 [ | d r2 ] ] ] ]; try discriminate.
        cbv iota in H. destruct (hex4 a b c0 d); [ | discriminate ].
        revert H. apply Hstep; simpl in *; lia.
      * clear Hstep.
        repeat break_match; try discriminate; subst; eauto; congruence.
    + destruct (c <? 32); [ discriminate | ].
      revert H. apply Hstep; simpl; lia.
Qed.

Lemma parse_string_length (s t rest : jsstring) :
  parse_string s = Some (t, rest) -> (List.length rest <= List.length s)%nat.
Proof. apply (parse_string_length_bounded (List.length s)). lia. Qed.

Lemma span_digits_snd_length (s ds rest : jsstring) :
  Js.span_digits s = (ds, rest) -> (List.length rest <= List.length s)%nat.
Proof.
  intros H. pose proof (span_digits_length s) as L. rewrite H in L. exact L.
Qed.

Lemma parse_minus_length (s r : jsstring) (neg : bool) :
  parse_minus s = (neg, r) -> (List.length r <= List.length s)%nat.
Proof.
  destruct s as [ | c s' ]; simpl; [ inversion 1; subst; simpl; lia | ].
  destruct (c =? 45); inversion 1; subst; simpl; lia.
Qed.

Lemma parse_fraction_length (s fp r : jsstring) :
  parse_fraction s = Some (fp, r) -> (List.length r <= List.length s)%nat.
Proof.
  destruct s as [ | c s' ]; simpl; [ inversion 1; subst; simpl; lia | ].
  destruct (c =? 46); [ | inversion 1; subst; simpl; lia ].
  destruct (Js.span_digits s') as [ds r2] eqn:E.
  apply span_digits_snd_length in E.
  destruct ds; inversion 1; subst. lia.
Qed.

Lemma parse_exponent_length (s r : jsstring) (ex : Z) :
  parse_exponent s = Some (ex, r) -> (List.length r <= List.length s)%nat.
Proof.
  destruct s as [ | c s' ]; simpl; [ inversion 1; subst; simpl; lia | ].
  destruct ((c =? 101) || (c =? 69)); [ | inversion 1; subst; simpl; lia ].
  destruct (parse_exponent_sign s') as [neg r'] eqn:Es.
  assert (Hr' : (List.length r' <= List.length s')%nat).
  { unfold parse_exponent_sign in Es. destruct s' as [ | d s'' ].
    - inversion Es; subst; simpl; lia.
    - destruct (d =? 45); [ inversion Es; subst; simpl; lia | ].
      destruct (d =? 43); inversion Es; subst; simpl; lia. }
  destruct (Js.span_digits r') as [ds r3] eqn:E.
  apply span_digits_snd_length in E.
  destruct ds; inversion 1; subst. lia.
Qed.

(** A number takes at least one character. *)
Lemma parse_number_length (s : jsstring) (x : Float64.t) (rest : jsstring) :
  parse_number s = Some (x, rest) -> (List.length rest < List.length s)%nat.
Proof.
  unfold parse_number. intros H.
  destruct (parse_minus s) as [neg s1] eqn:Em.
  apply parse_minus_length in Em.
  destruct (Js.span_digits s1) as [ip r1] eqn:Es.
  assert (L1 : (List.length r1 < List.length s1)%nat \/ ip = []).
  { destruct s1 as [ | c s1' ]; simpl in Es.
    - inversion Es; auto.
    - destruct (Js.is_digit c); [ | inversion Es; auto ].
      destruct (Js.span_digits s1') as [ds r'] eqn:E'.
      apply span_digits_snd_length in E'. inversion Es; subst. simpl. left. lia. }
  destruct L1 as [L1 | ->]; [ | discriminate ].
  destruct (integer_part_ok ip); [ | discriminate ].
  destruct (parse_fraction r1) as [[fp r2] | ] eqn:Ef; [ | discriminate ].
  apply parse_fraction_length in Ef.
  destruct (parse_exponent r2) as [[ex r3] | ] eqn:Ee; [ | discriminate ].
  apply parse_exponent_length in Ee.
  inversion H; subst. lia.
Qed.

Lemma after_length (c : N) (s r : jsstring) :
  after c s = Some r -> (List.length r < List.length s)%nat.
Proof.
  destruct s as [ | c' s' ]; simpl; [ discriminate | ].
  destruct (c' =? c); inversion 1; subst. lia.
Qed.

Lemma after_skip_ws_length (c : N) (s r : jsstring) :
  after c (skip_ws s) = Some r -> (List.length r < List.length s)%nat.
Proof.
  intros H. apply after_length in H. pose proof (skip_ws_length s). lia.
Qed.

Lemma starts_with_length (p s r : jsstring) :
  Js.starts_with p s = Some r -> (List.length r <= List.length s)%nat.
Proof.
  revert s. induction p as [ | a p IH ]; intros s; simpl.
  - inversion 1; subst. lia.
  - destruct s as [ | b s' ]; [ discriminate | ].
    destruct (a =? b); [ | discriminate ].
    intros H. apply IH in H. simpl. lia.
Qed.

(** What is left after a value, a list of elements or a list of members
    is no longer than the text. *)
Lemma parse_consumes (f : nat) :
  (forall s v rest, parse_value f s = Parsed v rest ->
                    (List.length rest <= List.length s)%nat)
  /\ (forall s l rest, parse_elements f s = Parsed l rest ->
                       (List.length rest <= List.length s)%nat)
  /\ (forall s l rest, parse_members f s = Parsed l rest ->
                       (List.length rest <= List.length s)%nat).
Proof.
  induction f as [ | f (IHv & IHe & IHm) ]; [ repeat split; discriminate | ].
  split; [ | split ].
  - intros s v rest. rewrite Roundtrip.parse_value_eq.
    pose proof (skip_ws_length s) as Hs.
    destruct (skip_ws s) as [ | c r ]; [ discriminate | ]. simpl in Hs.
    pose proof (skip_ws_length r) as Hr.
    destruct (c =? 34).
    { destruct (parse_string r) as [[t rest0] | ] eqn:E; [ | discriminate ].
      apply parse_string_length in E. inversion 1; subst. lia. }
    destruct (c =? 91).
    { destruct (after 93 (skip_ws r)) as [rest0 | ] eqn:E.
      - apply after_length in E. inversion 1; subst. lia.
      - destruct (parse_elements f (skip_ws r)) as [l rest0 | | ] eqn:E';
          try discriminate.
        apply IHe in E'. inversion 1; subst. lia. }
    destruct (c =? 123).
    { destruct (after 125 (skip_ws r)) as [rest0 | ] eqn:E.
      - apply after_length in E. inversion 1; subst. lia.
      - destruct (parse_members f (skip_ws r)) as [l rest0 | | ] eqn:E';
          try discriminate.
        apply IHm in E'. inversion 1; subst. lia. }
    destruct (Js.starts_with (js "true") (c :: r)) as [rest0 | ] eqn:E1.
    { apply starts_with_length in E1. inversion 1; subst. simpl in E1. lia. }
    destruct (Js.starts_with (js "false") (c :: r)) as [rest0 | ] eqn:E2.
    { apply starts_with_length in E2. inversion 1; subst. simpl in E2. lia. }
    destruct (Js.starts_with (js "null") (c :: r)) as [rest0 | ] eqn:E3.
    { apply starts_with_length in E3. inversion 1; subst. simpl in E3. lia. }
    destruct (parse_number (c :: r)) as [[x rest0] | ] eqn:E4; [ | discriminate ].
    apply parse_number_length in E4. inversion 1; subst. simpl in E4. lia.
  - intros s l rest. rewrite Roundtrip.parse_elements_eq.
    destruct (parse_value f s) as [v rest0 | | ] eqn:Ev; try discriminate.
    apply IHv in Ev.
    destruct (after 44 (skip_ws rest0)) as [r | ] eqn:E.
    + apply after_skip_ws_length in E.
      destruct (parse_elements f r) as [l' rest' | | ] eqn:E'; try discriminate.
      apply IHe in E'. inversion 1; subst. lia.
    + destruct (after 93 (skip_ws rest0)) as [r | ] eqn:E'; [ | discriminate ].
      apply after_skip_ws_length in E'. inversion 1; subst. lia.
  - intros s l rest. rewrite Roundtrip.parse_members_eq.
    destruct (after 34 (skip_ws s)) as [r | ] eqn:E1; [ | discriminate ].
    apply after_skip_ws_length in E1.
    destruct (parse_string r) as [[k rest0] | ] eqn:E2; [ | discriminate ].
    apply parse_string_length in E2.
    destruct (after 58 (skip_ws rest0)) as [r2 | ] eqn:E3; [ | discriminate ].
    apply after_skip_ws_length in E3.
    destruct (parse_value f r2) as [v rest2 | | ] eqn:E4; try discriminate.
    apply IHv in E4.
    destruct (after 44 (skip_ws rest2)) as [r3 | ] eqn:E5.
    + apply after_skip_ws_length in E5.
      destruct (parse_members f r3) as [ms rest3 | | ] eqn:E6; try discriminate.
      apply IHm in E6. inversion 1; subst. lia.
    + destruct (after 125 (skip_ws rest2)) as [r3 | ] eqn:E6; [ | discriminate ].
      apply after_skip_ws_length in E6. inversion 1; subst. lia.
Qed.

(** With twice the length of the text as fuel, and a little more, the
    parser never runs out. *)
Lemma parse_never_out_of_fuel (f : nat) :
  (forall s, (2 * List.length s + 1 <= f)%nat -> parse_value f s <> OutOfFuel)
  /\ (forall s, (2 * List.length s + 2 <= f)%nat -> parse_elements f s <> OutOfFuel)
  /\ (forall s, (2 * List.length s + 2 <= f)%nat -> parse_members f s <> OutOfFuel).
Proof.
  induction f as [ | f (IHv & IHe & IHm) ]; [ repeat split; intros; lia | ].
  destruct (parse_consumes f) as (Cv & Ce & Cm).
  split; [ | split ].
  - intros s Hf. rewrite Roundtrip.parse_value_eq.
    pose proof (skip_ws_length s) as Hs.
    destruct (skip_ws s) as [ | c r ]; [ discriminate | ]. simpl in Hs.
    pose proof (skip_ws_length r) as Hr.
    destruct (c =? 34).
    { destruct (parse_string r) as [[t rest0] | ]; discriminate. }
    destruct (c =? 91).
    { destruct (after 93 (skip_ws r)); [ discriminate | ].
      pose proof (IHe (skip_ws r)) as H.
      destruct (parse_elements f (skip_ws r)); try discriminate.
      exfalso. apply H; [ lia | reflexivity ]. }
    destruct (c =? 123).
    { destruct (after 125 (skip_ws r)); [ discriminate | ].
      pose proof (IHm (skip_ws r)) as H.
      destruct (parse_members f (skip_ws r)); try discriminate.
      exfalso. apply H; [ lia | reflexivity ]. }
    repeat match goal with
           | |- context [match ?x with _ => _ end] => destruct x
           end; discriminate.
  - intros s Hf. rewrite Roundtrip.parse_elements_eq.
    pose proof (IHv s) as Hv.
    destruct (parse_value f s) as [v rest0 | | ] eqn:Ev;
      [ | discriminate | exfalso; apply Hv; [ lia | reflexivity ] ].
    apply Cv in Ev.
    destruct (after 44 (skip_ws rest0)) as [r | ] eqn:E.
    + apply after_skip_ws_length in E.
      pose proof (IHe r) as H.
      destruct (parse_elements f r); try discriminate.
      exfalso. apply H; [ lia | reflexivity ].
    + destruct (after 93 (skip_ws rest0)); discriminate.
  - intros s Hf. rewrite Roundtrip.parse_members_eq.
    destruct (after 34 (skip_ws s)) as [r | ] eqn:E1; [ | discriminate ].
    apply after_skip_ws_length in E1.
    destruct (parse_string r) as [[k rest0] | ] eqn:E2; [ | discriminate ].
    apply parse_string_length in E2.
    destruct (after 58 (skip_ws rest0)) as [r2 | ] eqn:E3; [ | discriminate ].
    apply after_skip_ws_length in E3.
    pose proof (IHv r2) as Hv.
    destruct (parse_value f r2) as [v rest2 | | ] eqn:E4;
      [ | discriminate | exfalso; apply Hv; [ lia | reflexivity ] ].
    apply Cv in E4.
    destruct (after 44 (skip_ws rest2)) as [r3 | ] eqn:E5.
    + apply after_skip_ws_length in E5.
      pose proof (IHm r3) as H.
      destruct (parse_members f r3); try discriminate.
      exfalso. apply H; [ lia | reflexivity ].
    + destruct (after 125 (skip_ws rest2)); discriminate.
Qed.

(** [JSON.parse] decides every text: the SyntaxError of [parse] is a
    text that is not JSON, never a recursion cut short. *)
Lemma parse_fuel_enough (s : jsstring) :
  parse_value (parse_fuel s) s <> OutOfFuel.
Proof.
  apply (proj1 (parse_never_out_of_fuel (parse_fuel s))).
  unfold parse_fuel. lia.
Qed.

(** More fuel does not change what is read. *)
Lemma parse_fuel_monotone (f : nat) :
  (forall s v rest, parse_value f s = Parsed v rest ->
                    parse_value (S f) s = Parsed v rest)
  /\ (forall s l rest, parse_elements f s = Parsed l rest ->
                       parse_elements (S f) s = Parsed l rest)
  /\ (forall s l rest, parse_members f s = Parsed l rest ->
                       parse_members (S f) s = Parsed l rest).
Proof.
  induction f as [ | f (IHv & IHe & IHm) ]; [ repeat split; discriminate | ].
  split; [ | split ].
  - intros s v rest. rewrite (Roundtrip.parse_value_eq (S f)).
    rewrite (Roundtrip.parse_value_eq f).
    destruct (skip_ws s) as [ | c r ]; [ discriminate | ].
    destruct (c =? 34); [ auto | ].
    destruct (c =? 91).
    { destruct (after 93 (skip_ws r)); [ auto | ].
      destruct (parse_elements f (skip_ws r)) eqn:E; try discriminate.
      rewrite (IHe _ _ _ E). auto. }
    destruct (c =? 123); [ | auto ].
    destruct (after 125 (skip_ws r)); [ auto | ].
    destruct (parse_members f (skip_ws r)) eqn:E; try discriminate.
    rewrite (IHm _ _ _ E). auto.
  - intros s l rest. rewrite (Roundtrip.parse_elements_eq (S f)).
    rewrite (Roundtrip.parse_elements_eq f).
    destruct (parse_value f s) eqn:Ev; try discriminate.
    rewrite (IHv _ _ _ Ev).
    destruct (after 44 (skip_ws rest0)); [ | auto ].
    destruct (parse_elements f j) eqn:E; try discriminate.
    rewrite (IHe _ _ _ E). auto.
  - intros s l rest. rewrite (Roundtrip.parse_members_eq (S f)).
    rewrite (Roundtrip.parse_members_eq f).
    destruct (after 34 (skip_ws s)); [ | discriminate ].
    destruct (parse_string j) as [[k rest0] | ]; [ | discriminate ].
    destruct (after 58 (skip_ws rest0)); [ | discriminate ].
    destruct (parse_value f j0) eqn:Ev; try discriminate.
    rewrite (IHv _ _ _ Ev).
    destruct (after 44 (skip_ws rest1)); [ | auto ].
    destruct (parse_members f j1) eqn:E; try discriminate.
    rewrite (IHm _ _ _ E). auto.
Qed.

End Fuel.

(** ** The platform model on known results *)

Module Platform_examples.

(** Number::toString: shortest digits that read back as the number. *)
Example toString_decimals :
  List.map (fun s => Float64.toString (parseFloat (js s)))
    ["0.1"; "3.5"; "1e21"; "1.5e300"; "0.000001"; "0.0000001";
     "123456789012345680000"; "1152921504606846976"; "5e-324";
     "1.7976931348623157e308"; "1.7976931348623159e308";
     "0.30000000000000004"; "9007199254740993"; "-1.2"; "-0"]%string
  = List.map js
      ["0.1"; "3.5"; "1e+21"; "1.5e+300"; "0.000001"; "1e-7";
       "123456789012345680000"; "1152921504606847000"; "5e-324";
       "1.7976931348623157e+308"; "Infinity";
       "0.30000000000000004"; "9007199254740992"; "-1.2"; "0"]%string.
Proof. vm_compute. reflexivity. Qed.

(** On integers the search for the shortest digits finds the decimal
    expansion. *)
Example toString_integers :
  List.map (fun z => Float64.toString (Float64.of_Z z))
    [0; 7; 10; 1200; 1700000000000; 1700000000001; 8640000000000000;
     9007199254740991; -1; -1700000000123]%Z
  = List.map js
      ["0"; "7"; "10"; "1200"; "1700000000000"; "1700000000001";
       "8640000000000000"; "9007199254740991"; "-1"; "-1700000000123"]%string.
Proof. vm_compute. reflexivity. Qed.

(** toFixed rounds the binary value: [1.005] is below 1.005. *)
Example toFixed_rounding :
  List.map (fun '(s, f) => Float64.toFixed (parseFloat (js s)) f)
    [("1.005", 2); ("2.5", 0); ("1.45", 1); ("8.345", 2); ("-0.001", 2);
     ("0", 2); ("1e21", 2); ("123.456", 0); ("0.5", 0); ("-1.5", 0)]%string
  = List.map js
      ["1.00"; "3"; "1.4"; "8.35"; "-0.00"; "0.00"; "1e+21"; "123"; "1"; "-2"]%string.
Proof. vm_compute. reflexivity. Qed.

(** parseFloat reads the longest numeral the string starts with. *)
Example parseFloat_prefixes :
  List.map (fun s => Float64.toString (parseFloat (js s)))
    ["  12.345e1x"; ".5"; "-.5e1"; "+7"; "1."; "1.e2"; "."; "e5"; "1e";
     "1e+"; "1e-2x"; "0x10"; "1,000.5"; "$5"; "Infinityx"; "-Infinity"; "abc"]%string
  = List.map js
      ["123.45"; "0.5"; "-5"; "7"; "1"; "100"; "NaN"; "NaN"; "1";
       "1"; "0.01"; "0"; "1"; "NaN"; "Infinity"; "-Infinity"; "NaN"]%string.
Proof. vm_compute. reflexivity. Qed.

(** JSON.parse and JSON.stringify: white space, escapes, the order of
    the properties of an object (indices first, a repeated key keeps its
    place and takes the last value). *)
Example parse_then_stringify :
  obind
    (JSON.parse
       (js " [1, 2.5e3, -0, 0.1, true, null, "
          ++ JSON.quote (js "a") ++ js ", {"
          ++ JSON.quote (js "b") ++ js ":1,"
          ++ JSON.quote (js "2") ++ js ":[],"
          ++ JSON.quote (js "a") ++ js ":null,"
          ++ JSON.quote (js "1") ++ js ":{},"
          ++ JSON.quote (js "b") ++ js " : false}] "))
    (fun v => Ok (JSON.serialize v))
  = Ok (Some (js "[1,2500,0,0.1,true,null,"
                ++ JSON.quote (js "a") ++ js ",{"
                ++ JSON.quote (js "1") ++ js ":{},"
                ++ JSON.quote (js "2") ++ js ":[],"
                ++ JSON.quote (js "b") ++ js ":false,"
                ++ JSON.quote (js "a") ++ js ":null}]")).
Proof. vm_compute. reflexivity. Qed.

Example parse_rejects :
  List.map (fun s => JSON.parse (js s))
    [""; "{"; "[1,]"; "01"; "1."; ".5"; "+1"; "nul"; "[1 2]"; "[] x"; "-";
     "not json"]%string
  = List.repeat (Throw SyntaxError) 12.
Proof. vm_compute. reflexivity. Qed.

(** A lone surrogate is escaped by [stringify], a pair is not. *)
Example quote_surrogates :
  JSON.quote [55357; 56832; 55357; 65; 9; 34]
  = [34; 55357; 56832] ++ js "\ud83dA\t" ++ [92; 34; 34].
Proof. vm_compute. reflexivity. Qed.

Example encodeURIComponent_examples :
  URI.encodeURIComponent (js "a b&c/d?=") = Ok (js "a%20b%26c%2Fd%3F%3D")
  /\ URI.encodeURIComponent [233; 8364; 55357; 56832]
     = Ok (js "%C3%A9%E2%82%AC%F0%9F%98%80")
  /\ URI.encodeURIComponent [65; 55357] = Throw URIError.
Proof. vm_compute. repeat split; reflexivity. Qed.

End Platform_examples.

(** ** The clients *)

Module Client_facts.

Import Api.

(** A [try] whose handler does not throw does not throw. *)
Lemma try_catch_total {A} (m : M A) (h : exn -> M A) (w : World) :
  (forall e w', exists a, fst (h e w') = Ok a) ->
  exists a, fst (try_catch m h w) = Ok a.
Proof.
  intros Hh. unfold try_catch.
  destruct (m w) as [[a | e] w']; [ exists a; reflexivity | apply Hh ].
Qed.

Lemma nonempty_query (query : jsstring) :
  query <> [] ->
  Api_format.is_empty query || (List.length query <? 1)%nat = false.
Proof. destruct query; [ contradiction | reflexivity ]. Qed.

Lemma searchTickers_total (query : jsstring) (w : World) :
  exists results, fst (searchTickers query w) = Ok results.
Proof.
  unfold searchTickers.
  destruct (Api_format.is_empty query || (List.length query <? 1)%nat).
  - exists []. reflexivity.
  - apply try_catch_total. intros e w'. exists []. reflexivity.
Qed.

(** A quote of the response passes the filter when its type is EQUITY
    or ETF, and becomes a result with the name the code picks. *)
Lemma keep_quote (v : value) (q : Yahoo.YahooQuote) :
  Yahoo.is_quote v q -> is_stock v = Ok (Yahoo.is_equity_or_etf q).
Proof.
  intros (props & -> & _ & _ & _ & Htype & _). unfold is_stock. simpl.
  rewrite Htype. unfold Yahoo.is_equity_or_etf. simpl.
  destruct (Js.eqb (Yahoo.quoteType q) (js "EQUITY")); reflexivity.
Qed.

Lemma map_quote (v : value) (q : Yahoo.YahooQuote) :
  Yahoo.is_quote v q ->
  to_result v = Ok (Yahoo.result_of Yahoo.display_name q).
Proof.
  intros (props & -> & Hsym & Hshort & Hlong & _ & _).
  unfold to_result, Yahoo.result_of, Yahoo.display_name. simpl.
  rewrite Hsym, Hshort, Hlong.
  destruct (Yahoo.longname q) as [[ | c l] | ];
    destruct (Yahoo.shortname q) as [[ | d s] | ]; reflexivity.
Qed.

Lemma filter_quotes (vs : list value) (qs : list Yahoo.YahooQuote) :
  Forall2 Yahoo.is_quote vs qs ->
  exists vs',
    Value.filter_outcome is_stock vs = Ok vs'
    /\ Forall2 Yahoo.is_quote vs' (List.filter Yahoo.is_equity_or_etf qs).
Proof.
  induction 1 as [ | v q vs qs Hq _ (vs' & IH & IH') ].
  - exists []. split; [ reflexivity | constructor ].
  - cbn [Value.filter_outcome List.filter].
    rewrite (keep_quote v q Hq). cbn [obind]. rewrite IH. cbn [obind].
    destruct (Yahoo.is_equity_or_etf q); eexists; split; try reflexivity.
    + constructor; assumption.
    + assumption.
Qed.

Lemma map_quotes (vs : list value) (qs : list Yahoo.YahooQuote) :
  Forall2 Yahoo.is_quote vs qs ->
  map_outcome to_result vs
  = Ok (List.map (Yahoo.result_of Yahoo.display_name) qs).
Proof.
  induction 1 as [ | v q vs qs Hq _ IH ]; [ reflexivity | ].
  cbn [map_outcome List.map]. rewrite (map_quote v q Hq). cbn [obind].
  rewrite IH. reflexivity.
Qed.

Lemma to_value_is_quote (q : Yahoo.YahooQuote) :
  Yahoo.is_quote (Yahoo.to_value q) q.
Proof.
  exists ([(js "symbol", VString (Yahoo.symbol q))]
          ++ Yahoo.optional (js "shortname") (Yahoo.shortname q)
          ++ Yahoo.optional (js "longname") (Yahoo.longname q)
          ++ [(js "quoteType", VString (Yahoo.quoteType q));
              (js "exchange", VString (Yahoo.exchange q))]).
  split; [ reflexivity | ].
  destruct (Yahoo.shortname q), (Yahoo.longname q); repeat split; reflexivity.
Qed.

Lemma response_value_is_response (qs : list Yahoo.YahooQuote) :
  Yahoo.is_response (Yahoo.response_value qs) qs.
Proof.
  exists [(js "quotes", VArray (List.map Yahoo.to_value qs))],
         (List.map Yahoo.to_value qs).
  split; [ reflexivity | ]. split; [ reflexivity | ].
  induction qs; constructor; [ apply to_value_is_quote | assumption ].
Qed.

(** [searchTickers] on a request that is answered. *)
Lemma searchTickers_answered (query q : jsstring) (w : World) (r : Response) :
  query <> [] ->
  URI.encodeURIComponent query = Ok q ->
  network w (Requests.search q) = Responded r ->
  searchTickers query w
  = try_catch
      (if negb (ok r)
       then throw (Error (js "Search failed: " ++ Js.digits_of_N (status r)))
       else
         let* data := json r in
         let* quotes := lift (Value.get data (js "quotes")) in
         let* kept := lift (Value.filter is_stock quotes) in
         lift (map_outcome to_result kept))
      (fun error => console_error (js "Ticker search error:") error;; ret [])
      (log_request (Requests.search q) w).
Proof.
  intros Hne Henc Hnet. unfold searchTickers.
  rewrite nonempty_query by assumption.
  unfold try_catch, bind at 1, lift at 1. rewrite Henc.
  unfold bind at 1, fetch. fold (Requests.search q). rewrite Hnet.
  reflexivity.
Qed.

Section Quote.

Variable toUpperCase : jsstring -> jsstring.

Lemma getZacksData_total (ticker : value) (w : World) :
  exists v, fst (getZacksData toUpperCase ticker w) = Ok v.
Proof.
  unfold getZacksData. apply try_catch_total.
  intros e w'. exists VNull. reflexivity.
Qed.

(** [getZacksData] on a request that is answered. *)
Lemma getZacksData_answered (ticker t : jsstring) (w : World) (r : Response) :
  URI.encodeURIComponent (toUpperCase ticker) = Ok t ->
  network w (Requests.quote t) = Responded r ->
  getZacksData toUpperCase (VString ticker) w
  = try_catch
      (if negb (ok r)
       then throw (Error (js "Zacks API failed: " ++ Js.digits_of_N (status r)))
       else
         let* data := json r in
         let* tickerData := lift (Value.get data (toUpperCase ticker)) in
         ret (Value.or_else tickerData VNull))
      (fun error => console_error (js "Zacks API error:") error;; ret VNull)
      (log_request (Requests.quote t) w).
Proof.
  intros Henc Hnet. unfold getZacksData.
  unfold try_catch, bind at 1, lift at 1, upper at 1.
  unfold bind at 1, lift at 1. rewrite Henc.
  unfold bind at 1, fetch. fold (Requests.quote t). rewrite Hnet.
  destruct (negb (ok r)); [ reflexivity | ].
  unfold bind, json, lift, upper.
  destruct (JSON.parse (body r)); reflexivity.
Qed.

End Quote.

End Client_facts.

(** ** How the store operations compose *)

Module Compose_facts.

Import Recents History.

Lemma filter_all {A} (p : A -> bool) (l : list A) :
  Forall (fun a => p a = true) l -> List.filter p l = l.
Proof.
  induction 1 as [ | a l Ha _ IH ]; [ reflexivity | ].
  simpl. rewrite Ha, IH. reflexivity.
Qed.

Lemma filter_passes {A} (p : A -> bool) (l : list A) :
  Forall (fun a => p a = true) (List.filter p l).
Proof.
  induction l as [ | a l IH ]; simpl; [ constructor | ].
  destruct (p a) eqn:E; [ constructor; assumption | assumption ].
Qed.

Lemma filter_firstn_filter {A} (p : A -> bool) (n : nat) (l : list A) :
  List.filter p (firstn n (List.filter p l)) = firstn n (List.filter p l).
Proof. apply filter_all, List_facts.Forall_firstn, filter_passes. Qed.

Lemma other_same (sym nm : jsstring) (t : Z) :
  other sym {| symbol := sym; name := nm; timestamp := t |} = false.
Proof. unfold other. simpl. rewrite Js_facts.eqb_refl. reflexivity. Qed.

Lemma upserted_cons (sym nm : jsstring) (t : Z) (l : list RecentTicker) :
  upserted sym nm t l
  = {| symbol := sym; name := nm; timestamp := t |} :: firstn 9 (removed sym l).
Proof. reflexivity. Qed.

(** Removing the symbol just upserted. *)
Lemma removed_upserted (sym nm : jsstring) (t : Z) (l : list RecentTicker) :
  removed sym (upserted sym nm t l) = firstn 9 (removed sym l).
Proof.
  rewrite upserted_cons. unfold removed at 1. cbn [List.filter].
  rewrite other_same. apply filter_firstn_filter.
Qed.

(** Upserting a symbol again. *)
Lemma upserted_upserted (sym n1 n2 : jsstring) (t1 t2 : Z) (l : list RecentTicker) :
  upserted sym n2 t2 (upserted sym n1 t1 l) = upserted sym n2 t2 l.
Proof.
  rewrite (upserted_cons sym n2 t2 (upserted sym n1 t1 l)), removed_upserted.
  rewrite firstn_firstn. reflexivity.
Qed.

Lemma removed_length (sym : jsstring) (l : list RecentTicker) :
  (List.length (removed sym l) <= List.length l)%nat.
Proof. apply filter_length_le. Qed.

Lemma removed_shorter (sym : jsstring) (l : list RecentTicker) :
  In sym (symbols l) -> (List.length (removed sym l) < List.length l)%nat.
Proof.
  induction l as [ | r l IH ]; simpl; [ contradiction | ].
  intros [E | Hin].
  - unfold other at 1. rewrite E, Js_facts.eqb_refl. simpl.
    pose proof (removed_length sym l). unfold removed in *. lia.
  - specialize (IH Hin). unfold removed in *.
    destruct (other sym r); simpl; lia.
Qed.

Lemma removed_removed (a b : jsstring) (l : list RecentTicker) :
  removed a (removed b l) = removed b (removed a l).
Proof.
  unfold removed. induction l as [ | r l IH ]; [ reflexivity | ].
  simpl. destruct (other b r) eqn:Eb, (other a r) eqn:Ea; simpl;
    rewrite ?Ea, ?Eb, IH; reflexivity.
Qed.

Lemma removed_twice (sym : jsstring) (l : list RecentTicker) :
  removed sym (removed sym l) = removed sym l.
Proof. apply filter_all, filter_passes. Qed.

Lemma not_In_removed (sym : jsstring) (l : list RecentTicker) :
  ~ In sym (symbols (removed sym l)).
Proof.
  intros Hin. apply List_facts.In_symbols_filter in Hin as [_ Hne].
  apply Hne. reflexivity.
Qed.

(** The world after an action on a store that holds [l]. *)
Lemma upsert_holds (quick : bool) (t : Z) (w : World) (l : list RecentTicker)
  (sym nm : jsstring) :
  holds w l -> well_formed l ->
  holds (snd (perform (Upsert quick sym nm) (set_clock t w))) (upserted sym nm t l).
Proof.
  intros Hh Hwf. rewrite (History_facts.upsert_step quick t w l) by assumption.
  apply History_facts.holds_written.
Qed.

End Compose_facts.

(** ** The order of the stored list *)

Module Order_facts.

Import Recents History Order.

Lemma newest_first_cons (r : RecentTicker) (l : list RecentTicker) :
  newest_first (r :: l) = true
  <-> Forall (fun r' => (timestamp r' <= timestamp r)%Z) l
      /\ newest_first l = true.
Proof.
  cbn [newest_first]. rewrite andb_true_iff, forallb_forall, List.Forall_forall.
  split; intros [H1 H2]; (split; [ | exact H2 ]); intros x Hx;
    specialize (H1 x Hx); [ apply Z.leb_le | apply Z.leb_le ]; exact H1.
Qed.

Lemma newest_first_filter (p : RecentTicker -> bool) (l : list RecentTicker) :
  newest_first l = true -> newest_first (List.filter p l) = true.
Proof.
  induction l as [ | r l IH ]; [ reflexivity | ].
  intros H. apply newest_first_cons in H as [Hr Hl]. simpl.
  destruct (p r); [ | auto ].
  apply newest_first_cons. split; [ | auto ].
  apply List_facts.Forall_filter. exact Hr.
Qed.

Lemma newest_first_firstn (n : nat) (l : list RecentTicker) :
  newest_first l = true -> newest_first (firstn n l) = true.
Proof.
  revert n. induction l as [ | r l IH ]; intros n H.
  - rewrite firstn_nil. reflexivity.
  - destruct n as [ | n ]; [ reflexivity | ].
    apply newest_first_cons in H as [Hr Hl]. cbn [firstn].
    apply newest_first_cons. split; [ | auto ].
    apply List_facts.Forall_firstn. exact Hr.
Qed.

Lemma ordered_step (t t' : Z) (a : action) (w : World) :
  time_value t' -> (t <= t')%Z ->
  ordered_until t w -> ordered_until t' (snd (perform a (set_clock t' w))).
Proof.
  intros Ht' Hle (l & Hh & Hwf & Hord & Hmax).
  assert (Hmax' : Forall (fun r => (timestamp r <= t')%Z) l).
  { eapply List.Forall_impl; [ | exact Hmax ]. simpl. intros r Hr. lia. }
  destruct a as [quick sym nm | sym | ].
  - exists (upserted sym nm t' l).
    split; [ apply Compose_facts.upsert_holds; assumption | ].
    split; [ apply List_facts.upserted_well_formed; assumption | ].
    rewrite Compose_facts.upserted_cons. split.
    + apply newest_first_cons. split.
      * apply List_facts.Forall_firstn, List_facts.Forall_filter. exact Hmax'.
      * apply newest_first_firstn, newest_first_filter. exact Hord.
    + constructor; [ simpl; lia | ].
      apply List_facts.Forall_firstn, List_facts.Forall_filter. exact Hmax'.
  - exists (removed sym l).
    split; [ apply History_facts.remove_step; assumption | ].
    split; [ apply List_facts.Forall_filter; assumption | ].
    split; [ apply newest_first_filter; assumption
           | apply List_facts.Forall_filter; assumption ].
  - exists []. split; [ apply History_facts.clear_step | ].
    repeat split; constructor.
Qed.

Lemma ordered_run (h : list (Z * action)) :
  forall (t : Z) (w : World),
    timed h -> chronological t h = true ->
    ordered_until t w ->
    exists t', ordered_until t' (run h w).
Proof.
  induction h as [ | [t' a] h IH ]; intros t w Hh Hc Hinv.
  - exists t. exact Hinv.
  - inversion Hh as [ | ? ? Ht' Hrest ]; subst.
    cbn [chronological] in Hc. apply andb_true_iff in Hc as [Hle Hc].
    apply Z.leb_le in Hle. cbn [run].
    apply (IH t'); [ assumption | assumption | ].
    apply (ordered_step t); assumption.
Qed.

(** Where the entries of the store come from. *)
Lemma upserted_from (sym nm : jsstring) (t : Z) (l : list RecentTicker)
  (e : RecentTicker) :
  In e (upserted sym nm t l) ->
  e = {| symbol := sym; name := nm; timestamp := t |} \/ In e l.
Proof.
  rewrite Compose_facts.upserted_cons. intros [<- | Hin]; [ left; reflexivity | ].
  right. apply List_facts.In_firstn in Hin.
  apply filter_In in Hin as [Hin _]. exact Hin.
Qed.

Lemma run_from (h : list (Z * action)) :
  forall (w : World) (l0 : list RecentTicker),
    holds w l0 -> well_formed l0 -> timed h ->
    exists l, holds (run h w) l /\ well_formed l
              /\ (forall e, In e l -> In e l0 \/ In e (upserts h)).
Proof.
  induction h as [ | [t a] h IH ]; intros w l0 Hh Hwf Ht.
  - exists l0. repeat split; auto.
  - inversion Ht as [ | ? ? Htime Hrest ]; subst. cbn [run].
    destruct a as [quick sym nm | sym | ].
    + destruct (IH (snd (perform (Upsert quick sym nm) (set_clock t w)))
                  (upserted sym nm t l0)) as (l & Hl & Hwfl & Hfrom).
      * apply Compose_facts.upsert_holds; assumption.
      * apply List_facts.upserted_well_formed; assumption.
      * assumption.
      * exists l. split; [ exact Hl | ]. split; [ exact Hwfl | ].
        intros e He. cbn [upserts].
        destruct (Hfrom e He) as [Hin | Hin]; [ | right; right; exact Hin ].
        apply upserted_from in Hin as [-> | Hin];
          [ right; left; reflexivity | left; exact Hin ].
    + destruct (IH (snd (perform (Remove sym) (set_clock t w))) (removed sym l0))
        as (l & Hl & Hwfl & Hfrom).
      * apply History_facts.remove_step; assumption.
      * apply List_facts.Forall_filter. assumption.
      * assumption.
      * exists l. split; [ exact Hl | ]. split; [ exact Hwfl | ].
        intros e He. cbn [upserts].
        destruct (Hfrom e He) as [Hin | Hin]; [ | right; exact Hin ].
        left. apply filter_In in Hin as [Hin _]. exact Hin.
    + destruct (IH (snd (perform Clear (set_clock t w))) [])
        as (l & Hl & Hwfl & Hfrom).
      * apply History_facts.clear_step.
      * constructor.
      * assumption.
      * exists l. split; [ exact Hl | ]. split; [ exact Hwfl | ].
        intros e He. cbn [upserts].
        destruct (Hfrom e He) as [[] | Hin]. right. exact Hin.
Qed.

End Order_facts.

(** ** The store operations on any world *)

Module Frame_facts.

Import Recents History.

(** Reading the store changes nothing. *)
Lemma read_frame (w : World) :
  exists o, (let* stored := LocalStorage.getItem RECENTS_KEY in
             parse_stored stored) w = (o, w).
Proof.
  unfold bind, LocalStorage.getItem.
  destruct (storage w !! RECENTS_KEY) as [s | ]; cbn [parse_stored];
    [ | eexists; reflexivity ].
  destruct (Api_format.is_empty s); unfold lift, ret; eexists; reflexivity.
Qed.

Lemma bind_throw {A B} (m : M A) (k : A -> M B) (w w' : World) (e : exn) :
  m w = (Throw e, w') -> bind m k w = (Throw e, w').
Proof. intros H. unfold bind. rewrite H. reflexivity. Qed.

(** [addToRecents] throws and leaves the world, or writes one text
    under the key. *)
Lemma addToRecents_cases (sym nm : jsstring) (w : World) :
  (exists e, ZacksRank.addToRecents sym nm w = (Throw e, w))
  \/ (exists text,
         ZacksRank.addToRecents sym nm w
         = (Ok tt, set_storage (insert RECENTS_KEY text) w)).
Proof.
  unfold ZacksRank.addToRecents. rewrite <- Store_facts.bind_assoc.
  destruct (read_frame w) as ([recents | e] & Hread);
    [ rewrite (Store_facts.bind_eq _ _ _ _ _ Hread)
    | rewrite (bind_throw _ _ _ _ _ Hread); left; eexists; reflexivity ].
  unfold bind at 1, lift at 1.
  destruct (Value.filter (other_symbol sym) recents) as [filtered | e];
    [ | left; eexists; reflexivity ].
  right. eexists. reflexivity.
Qed.

(** [removeRecent] alike, with its toast and its reload. *)
Lemma removeRecent_cases (sym : jsstring) (w : World) :
  (exists e, RecentStocks.removeRecent sym w = (Throw e, w))
  \/ (exists text,
         RecentStocks.removeRecent sym w
         = (Ok tt,
            count_revalidation
              (log_toast (js "Removed " ++ sym)
                 (set_storage (insert RECENTS_KEY text) w)))).
Proof.
  unfold RecentStocks.removeRecent. rewrite <- Store_facts.bind_assoc.
  destruct (read_frame w) as ([recents | e] & Hread);
    [ rewrite (Store_facts.bind_eq _ _ _ _ _ Hread)
    | rewrite (bind_throw _ _ _ _ _ Hread); left; eexists; reflexivity ].
  unfold bind at 1, lift at 1.
  destruct (Value.filter (other_symbol sym) recents) as [filtered | e];
    [ | left; eexists; reflexivity ].
  right. eexists. reflexivity.
Qed.

Lemma parse_throws (text : jsstring) (e : exn) :
  JSON.parse text = Throw e -> e = SyntaxError.
Proof.
  unfold JSON.parse.
  destruct (JSON.parse_value (JSON.parse_fuel text) text) as [v rest | | ];
    [ destruct (JSON.skip_ws rest) | | ]; congruence.
Qed.

End Frame_facts.

(** ** What the clients leave of the world *)

Module Client_frame.

Import Api Frame.

Lemma logged_nil (w : World) : logged [] [] w = w.
Proof. destruct w. reflexivity. Qed.

Lemma logged_request (r : Request) (w : World) :
  log_request r w = logged [r] [] w.
Proof. reflexivity. Qed.

Lemma logged_console (c : jsstring * exn) (rs : list Request) (w : World) :
  log_console c (logged rs [] w) = logged rs [c] w.
Proof. reflexivity. Qed.

Ltac shape rs cs :=
  exists rs, cs; repeat split; simpl; try lia; try reflexivity;
  try (symmetry; apply logged_nil).

(** [searchTickers] adds at most one request and at most one console
    line, and changes nothing else. *)
Lemma searchTickers_world (query : jsstring) (w : World) :
  exists rs cs,
    (List.length rs <= 1)%nat /\ (List.length cs <= 1)%nat
    /\ snd (searchTickers query w) = logged rs cs w.
Proof.
  unfold searchTickers.
  destruct (Api_format.is_empty query || (List.length query <? 1)%nat);
    [ shape (@nil Request) (@nil (jsstring * exn)) | ].
  unfold try_catch, bind at 1, lift at 1.
  destruct (URI.encodeURIComponent query) as [q | e];
    [ | shape (@nil Request) [(js "Ticker search error:", e)] ].
  unfold bind at 1, fetch.
  match goal with
  | |- context [network w ?r] => set (req := r)
  end.
  destruct (network w req) as [ | r ];
    [ shape [req] [(js "Ticker search error:", NetworkFailure)] | ].
  destruct (negb (ok r));
    [ shape [req]
        [(js "Ticker search error:",
          Error (js "Search failed: " ++ Js.digits_of_N (status r)))] | ].
  unfold bind at 1, json, lift at 1.
  destruct (JSON.parse (body r)) as [data | e];
    [ | shape [req] [(js "Ticker search error:", e)] ].
  unfold bind at 1, lift at 1.
  destruct (Value.get data (js "quotes")) as [quotes | e];
    [ | shape [req] [(js "Ticker search error:", e)] ].
  unfold bind at 1, lift at 1.
  destruct (Value.filter is_stock quotes) as [kept | e];
    [ | shape [req] [(js "Ticker search error:", e)] ].
  unfold lift.
  destruct (map_outcome to_result kept) as [results | e];
    [ shape [req] (@nil (jsstring * exn))
    | shape [req] [(js "Ticker search error:", e)] ].
Qed.

Section Quote.

Variable toUpperCase : jsstring -> jsstring.

(** [getZacksData] alike. *)
Lemma getZacksData_world (ticker : value) (w : World) :
  exists rs cs,
    (List.length rs <= 1)%nat /\ (List.length cs <= 1)%nat
    /\ snd (getZacksData toUpperCase ticker w) = logged rs cs w.
Proof.
  unfold getZacksData.
  unfold try_catch, bind at 1, lift at 1.
  destruct (upper toUpperCase ticker) as [t | e];
    [ | shape (@nil Request) [(js "Zacks API error:", e)] ].
  unfold bind at 1, lift at 1.
  destruct (URI.encodeURIComponent t) as [q | e];
    [ | shape (@nil Request) [(js "Zacks API error:", e)] ].
  unfold bind at 1, fetch.
  match goal with
  | |- context [network w ?r] => set (req := r)
  end.
  destruct (network w req) as [ | r ];
    [ shape [req] [(js "Zacks API error:", NetworkFailure)] | ].
  destruct (negb (ok r));
    [ shape [req]
        [(js "Zacks API error:",
          Error (js "Zacks API failed: " ++ Js.digits_of_N (status r)))] | ].
  unfold bind at 1, json, lift at 1.
  destruct (JSON.parse (body r)) as [data | e];
    [ | shape [req] [(js "Zacks API error:", e)] ].
  unfold bind at 1, lift at 1.
  unfold bind at 1, lift at 1.
  destruct (Value.get data t) as [tickerData | e];
    [ shape [req] (@nil (jsstring * exn))
    | shape [req] [(js "Zacks API error:", e)] ].
Qed.

(** What [getZacksData] returns depends on the network only. *)
Lemma getZacksData_network (ticker : value) (w1 w2 : World) :
  network w1 = network w2 ->
  fst (getZacksData toUpperCase ticker w1) = fst (getZacksData toUpperCase ticker w2).
Proof.
  intros Hnet.
  cbv [getZacksData try_catch bind lift fetch json ret throw console_error].
  rewrite Hnet.
  destruct (upper toUpperCase ticker) as [t | e]; [ | reflexivity ].
  destruct (URI.encodeURIComponent t) as [q | e]; [ | reflexivity ].
  match goal with
  | |- context [network w2 ?req] => destruct (network w2 req) as [ | r ]
  end; [ reflexivity | ].
  destruct (negb (ok r)); [ reflexivity | ].
  destruct (JSON.parse (body r)) as [data | e]; [ | reflexivity ].
  destruct (Value.get data t) as [tickerData | e]; reflexivity.
Qed.

End Quote.

End Client_frame.

(** ** The loader of the recents view *)

Module Load_facts.

Import Recents History Frame RecentStocks.

(** A number that is not zero is not [=== 0]. *)
Lemma div_nearest_even_floor (n d : Z) :
  (n / d <= Float64.div_nearest_even n d)%Z.
Proof.
  unfold Float64.div_nearest_even.
  destruct (2 * (n mod d) <? d)%Z; [ lia | ].
  destruct (d <? 2 * (n mod d))%Z; [ lia | ].
  destruct (Z.even (n / d)); lia.
Qed.

Lemma round_positive (neg : bool) (n : Z) :
  (0 < n)%Z -> Value.is_zero (VNumber (Float64.round neg n 1)) = false.
Proof.
  intros Hn. unfold Float64.round.
  destruct (Z.eqb_spec n 0) as [-> | _]; [ lia | ].
  rewrite Float64_facts.log2_ratio_integer by assumption.
  pose proof (Z.log2_nonneg n) as Hl0.
  pose proof (Z.log2_spec n Hn) as [Hlo Hhi].
  rewrite Z.max_r by lia.
  set (e := (Z.log2 n - 52)%Z) in *.
  assert (Hq : (2 ^ 52 <= (if (e <? 0)%Z
                           then Float64.div_nearest_even (n * 2 ^ (- e)) 1
                           else Float64.div_nearest_even n (1 * 2 ^ e)))%Z).
  { destruct (Z.ltb_spec e 0) as [He | He].
    - rewrite Float64_facts.div_nearest_even_exact.
      replace (2 ^ 52)%Z with (2 ^ Z.log2 n * 2 ^ (- e))%Z
        by (rewrite <- Z.pow_add_r by lia; f_equal; lia).
      apply Z.mul_le_mono_nonneg_r; [ apply Z.pow_nonneg; lia | exact Hlo ].
    - eapply Z.le_trans; [ | apply div_nearest_even_floor ].
      rewrite Z.mul_1_l.
      assert (0 < 2 ^ e)%Z by (apply Z.pow_pos_nonneg; lia).
      apply Z.div_le_lower_bound; [ assumption | ].
      replace (2 ^ e * 2 ^ 52)%Z with (2 ^ Z.log2 n)%Z; [ exact Hlo | ].
      rewrite <- Z.pow_add_r by lia. f_equal. lia. }
  match type of Hq with
  | (_ <= ?x)%Z => generalize dependent x
  end.
  intros q Hq.
  destruct (Z.eqb_spec q (2 ^ 53)) as [_ | _].
  - destruct (971 <? e + 1)%Z; reflexivity.
  - destruct (971 <? e)%Z; [ reflexivity | ].
    cbn [Value.is_zero]. destruct (Z.to_N q) eqn:E; [ lia | reflexivity ].
Qed.

Lemma length_not_zero {A} (a : A) (l : list A) :
  Value.is_zero (VNumber (Float64.of_Z (Z.of_nat (List.length (a :: l))))) = false.
Proof.
  unfold Float64.of_Z, Float64.of_decimal. cbn [Z.ltb Z.compare].
  rewrite N2Z.inj_abs_N, Z.pow_0_r, Z.mul_1_r.
  apply round_positive. cbn [List.length]. lia.
Qed.

Section Rows.

Variable toUpperCase : jsstring -> jsstring.

(** The row of one stored element; the function that [load] maps over
    the list. *)
Lemma row_of_value (r : value) (w : World) :
  exists d rs cs,
    try_catch
      (let* sym := lift (Value.get r (js "symbol")) in
       let* data := Api.getZacksData toUpperCase sym in
       ret {| recent := r; zacksData := data |})
      (fun _ => ret {| recent := r; zacksData := VNull |}) w
    = (Ok {| recent := r; zacksData := d |}, logged rs cs w)
    /\ (List.length rs <= 1)%nat.
Proof.
  unfold try_catch, bind at 1, lift at 1.
  destruct (Value.get r (js "symbol")) as [sym | e].
  - destruct (Client_frame.getZacksData_world toUpperCase sym w)
      as (rs & cs & Hrs & _ & Hw).
    destruct (Client_facts.getZacksData_total toUpperCase sym w) as (d & Hd).
    unfold bind.
    destruct (Api.getZacksData toUpperCase sym w) as [o w'].
    cbn [fst snd] in Hw, Hd. subst o w'.
    exists d, rs, cs. split; [ reflexivity | exact Hrs ].
  - exists VNull, [], []. rewrite Client_frame.logged_nil.
    split; [ reflexivity | simpl; lia ].
Qed.

Lemma row_of_entry (e : RecentTicker) (w : World) :
  exists d rs cs,
    try_catch
      (let* sym := lift (Value.get (to_value e) (js "symbol")) in
       let* data := Api.getZacksData toUpperCase sym in
       ret {| recent := to_value e; zacksData := data |})
      (fun _ => ret {| recent := to_value e; zacksData := VNull |}) w
    = (Ok {| recent := to_value e; zacksData := d |}, logged rs cs w)
    /\ fst (Api.getZacksData toUpperCase (VString (symbol e)) w) = Ok d
    /\ (List.length rs <= 1)%nat.
Proof.
  unfold try_catch, bind at 1, lift at 1.
  change (Value.get (to_value e) (js "symbol")) with (Ok (VString (symbol e))).
  cbv iota.
  destruct (Client_frame.getZacksData_world toUpperCase (VString (symbol e)) w)
    as (rs & cs & Hrs & _ & Hw).
  destruct (Client_facts.getZacksData_total toUpperCase (VString (symbol e)) w)
    as (d & Hd).
  unfold bind.
  destruct (Api.getZacksData toUpperCase (VString (symbol e)) w) as [o w'].
  cbn [fst snd] in Hw, Hd |- *. subst o w'.
  exists d, rs, cs. split; [ reflexivity | ]. split; [ reflexivity | exact Hrs ].
Qed.

Lemma logged_logged (rs rs' : list Request) (cs cs' : list (jsstring * exn))
  (w : World) :
  logged rs' cs' (logged rs cs w) = logged (rs' ++ rs) (cs' ++ cs) w.
Proof. unfold logged. simpl. rewrite !app_assoc. reflexivity. Qed.

(** The rows of any list of elements. *)
Lemma rows_of_values (vs : list value) :
  forall w : World,
  exists rows rs cs,
    mapM (fun r =>
            try_catch
              (let* sym := lift (Value.get r (js "symbol")) in
               let* data := Api.getZacksData toUpperCase sym in
               ret {| recent := r; zacksData := data |})
              (fun _ => ret {| recent := r; zacksData := VNull |})) vs w
    = (Ok rows, logged rs cs w)
    /\ List.map recent rows = vs
    /\ (List.length rs <= List.length vs)%nat.
Proof.
  induction vs as [ | v vs IH ]; intros w.
  - exists [], [], []. rewrite Client_frame.logged_nil.
    repeat split; simpl; lia.
  - destruct (row_of_value v w) as (d & rs & cs & Hrow & Hrs).
    destruct (IH (logged rs cs w)) as (rows & rs' & cs' & Hrows & Hmap & Hrs').
    exists ({| recent := v; zacksData := d |} :: rows), (rs' ++ rs), (cs' ++ cs).
    cbn [mapM]. unfold bind at 1. rewrite Hrow.
    unfold bind at 1. rewrite Hrows. rewrite logged_logged.
    split; [ reflexivity | ]. split; [ simpl; f_equal; exact Hmap | ].
    rewrite length_app. simpl. lia.
Qed.

(** The rows of a list of entries: each carries its entry and what
    [getZacksData] returns for the symbol of the entry. *)
Lemma rows_of_entries (l : list RecentTicker) :
  forall w w0 : World,
  network w = network w0 ->
  exists rows rs cs,
    mapM (fun r =>
            try_catch
              (let* sym := lift (Value.get r (js "symbol")) in
               let* data := Api.getZacksData toUpperCase sym in
               ret {| recent := r; zacksData := data |})
              (fun _ => ret {| recent := r; zacksData := VNull |}))
         (List.map to_value l) w
    = (Ok rows, logged rs cs w)
    /\ Forall2
         (fun e row =>
            recent row = to_value e
            /\ fst (Api.getZacksData toUpperCase (VString (symbol e)) w0)
               = Ok (zacksData row))
         l rows
    /\ (List.length rs <= List.length l)%nat.
Proof.
  induction l as [ | e l IH ]; intros w w0 Hnet.
  - exists [], [], []. rewrite Client_frame.logged_nil.
    split; [ reflexivity | ]. split; [ constructor | simpl; lia ].
  - destruct (row_of_entry e w) as (d & rs & cs & Hrow & Hd & Hrs).
    destruct (IH (logged rs cs w) w0 Hnet) as (rows & rs' & cs' & Hrows & Hall & Hrs').
    exists ({| recent := to_value e; zacksData := d |} :: rows),
      (rs' ++ rs), (cs' ++ cs).
    cbn [mapM List.map]. unfold bind at 1. rewrite Hrow.
    unfold bind at 1. rewrite Hrows. rewrite logged_logged.
    split; [ reflexivity | ]. split.
    + constructor; [ | exact Hall ]. split; [ reflexivity | ].
      rewrite <- (Client_frame.getZacksData_network toUpperCase _ w w0 Hnet).
      exact Hd.
    + rewrite length_app. simpl. lia.
Qed.

End Rows.

(** The loader on a store that holds the list [l]. *)
Lemma load_holds (toUpperCase : jsstring -> jsstring) (w : World)
  (l : list RecentTicker) :
  holds w l -> well_formed l ->
  exists (rows : list RecentWithData) (rs : list Request)
         (cs : list (jsstring * exn)),
    load toUpperCase w = (Ok rows, logged rs cs w)
    /\ Forall2
         (fun e row =>
            recent row = to_value e
            /\ fst (Api.getZacksData toUpperCase (VString (symbol e)) w)
               = Ok (zacksData row))
         l rows
    /\ (List.length rs <= List.length l)%nat.
Proof.
  intros Hh Hwf. unfold load.
  rewrite <- Store_facts.bind_assoc.
  rewrite (Store_facts.bind_eq _ _ _ _ _ (Store_facts.read_holds w l Hh Hwf)).
  destruct l as [ | e l ].
  - exists [], [], []. rewrite Client_frame.logged_nil.
    split; [ reflexivity | ]. split; [ constructor | simpl; lia ].
  - unfold bind at 1, lift at 1. cbn [Value.get List.map].
    change (Value.array_index (js "length")) with (@None N).
    change (Js.eqb (js "length") (js "length")) with true. cbv iota.
    rewrite length_not_zero.
    unfold bind at 1, lift at 1.
    apply (rows_of_entries toUpperCase (e :: l) w w eq_refl).
Qed.

Lemma rows_recent (toUpperCase : jsstring -> jsstring) (w : World)
  (l : list RecentTicker) (rows : list RecentWithData) :
  Forall2
    (fun e row =>
       recent row = to_value e
       /\ fst (Api.getZacksData toUpperCase (VString (symbol e)) w)
          = Ok (zacksData row))
    l rows ->
  List.map recent rows = List.map to_value l.
Proof.
  induction 1 as [ | e row l' rows' [Hrec _] _ IH ]; [ reflexivity | ].
  cbn [List.map]. rewrite Hrec, IH. reflexivity.
Qed.

(** No row of a list without the symbol has the symbol. *)
Lemma rows_without (sym : jsstring) (l : list RecentTicker)
  (rows : list RecentWithData) :
  List.map recent rows = List.map to_value l ->
  ~ In sym (symbols l) ->
  Forall (fun row => Value.get (recent row) (js "symbol") <> Ok (VString sym)) rows.
Proof.
  revert rows. induction l as [ | e l IH ]; intros rows Hmap Hnot.
  - destruct rows; [ constructor | discriminate ].
  - destruct rows as [ | row rows ]; [ discriminate | ].
    cbn [List.map] in Hmap.
    pose proof (f_equal (List.hd VNull) Hmap) as Hhead.
    pose proof (f_equal (@List.tl value) Hmap) as Htail.
    cbn [List.hd List.tl] in Hhead, Htail.
    constructor.
    + rewrite Hhead.
      change (Value.get (to_value e) (js "symbol")) with (Ok (VString (symbol e))).
      intros E. apply Hnot. left. congruence.
    + apply IH; [ exact Htail | ]. intros Hin. apply Hnot. right. exact Hin.
Qed.

(** *** The requests of the loader *)

Section Requests_of_rows.

Variable toUpperCase : jsstring -> jsstring.

Lemma getZacksData_requests (s t : jsstring) (w : World) :
  URI.encodeURIComponent (toUpperCase s) = Ok t ->
  requests (snd (Api.getZacksData toUpperCase (VString s) w))
  = Requests.quote t :: requests w.
Proof.
  intros Henc.
  destruct (network w (Requests.quote t)) as [ | r ] eqn:Hnet.
  - unfold Api.getZacksData.
    unfold try_catch, bind at 1, lift at 1, Api.upper at 1.
    unfold bind at 1, lift at 1. rewrite Henc.
    unfold bind at 1, fetch. fold (Requests.quote t). rewrite Hnet.
    reflexivity.
  - rewrite (Client_facts.getZacksData_answered toUpperCase s t w r)
      by assumption.
    unfold try_catch. destruct (negb (ok r)); [ reflexivity | ].
    unfold bind at 1, json, lift at 1.
    destruct (JSON.parse (body r)) as [data | e]; [ | reflexivity ].
    unfold bind at 1, lift at 1.
    destruct (Value.get data (toUpperCase s)); reflexivity.
Qed.

Lemma row_of_entry_world (e : RecentTicker) (w : World) :
  exists d,
    try_catch
      (let* sym := lift (Value.get (to_value e) (js "symbol")) in
       let* data := Api.getZacksData toUpperCase sym in
       ret {| recent := to_value e; zacksData := data |})
      (fun _ => ret {| recent := to_value e; zacksData := VNull |}) w
    = (Ok {| recent := to_value e; zacksData := d |},
       snd (Api.getZacksData toUpperCase (VString (symbol e)) w)).
Proof.
  unfold try_catch, bind at 1, lift at 1.
  change (Value.get (to_value e) (js "symbol")) with (Ok (VString (symbol e))).
  cbv iota.
  destruct (Client_facts.getZacksData_total toUpperCase (VString (symbol e)) w)
    as (d & Hd).
  unfold bind.
  destruct (Api.getZacksData toUpperCase (VString (symbol e)) w) as [o w'].
  cbn [fst snd] in Hd |- *. subst o. exists d. reflexivity.
Qed.

Lemma rows_requests (l : list RecentTicker) :
  forall (ts : list jsstring) (w : World),
    Forall2 (fun e t => URI.encodeURIComponent (toUpperCase (symbol e)) = Ok t)
      l ts ->
    requests
      (snd (mapM (fun r =>
                    try_catch
                      (let* sym := lift (Value.get r (js "symbol")) in
                       let* data := Api.getZacksData toUpperCase sym in
                       ret {| recent := r; zacksData := data |})
                      (fun _ => ret {| recent := r; zacksData := VNull |}))
              (List.map to_value l) w))
    = rev (List.map Requests.quote ts) ++ requests w.
Proof.
  induction l as [ | e l IH ]; intros ts w Henc.
  - inversion Henc; subst. reflexivity.
  - inversion Henc as [ | ? t ? ts' Ht Hts ]; subst.
    destruct (row_of_entry_world e w) as (d & Hrow).
    cbn [mapM List.map]. unfold bind at 1. rewrite Hrow.
    set (w1 := snd (Api.getZacksData toUpperCase (VString (symbol e)) w)).
    destruct (rows_of_values toUpperCase (List.map to_value l) w1)
      as (rows & rs & cs & Hrows & _ & _).
    specialize (IH ts' w1 Hts). rewrite Hrows in IH.
    unfold bind at 1. rewrite Hrows. cbn [snd ret] in IH |- *.
    rewrite IH. unfold w1. rewrite (getZacksData_requests _ t) by assumption.
    cbn [List.map rev]. rewrite <- app_assoc. reflexivity.
Qed.

Lemma load_requests_holds (w : World) (l : list RecentTicker)
  (ts : list jsstring) :
  holds w l -> well_formed l ->
  Forall2 (fun e t => URI.encodeURIComponent (toUpperCase (symbol e)) = Ok t)
    l ts ->
  requests (snd (load toUpperCase w))
  = rev (List.map Requests.quote ts) ++ requests w.
Proof.
  intros Hh Hwf Henc. unfold load.
  rewrite <- Store_facts.bind_assoc.
  rewrite (Store_facts.bind_eq _ _ _ _ _ (Store_facts.read_holds w l Hh Hwf)).
  destruct l as [ | e l ].
  - inversion Henc; subst. reflexivity.
  - unfold bind at 1, lift at 1. cbn [Value.get List.map].
    change (Value.array_index (js "length")) with (@None N).
    change (Js.eqb (js "length") (js "length")) with true. cbv iota.
    rewrite length_not_zero.
    unfold bind at 1, lift at 1.
    apply (rows_requests (e :: l) ts w Henc).
Qed.

End Requests_of_rows.

End Load_facts.

(** ** Responses that are not what the clients expect *)

Module Response_facts.

Import Api Frame.

(** [is_stock] throws on [null] and [undefined], and a [filter] that
    meets one of them throws. *)
Lemma filter_outcome_throws (vs : list value) :
  In VNull vs \/ In VUndefined vs ->
  Value.filter_outcome is_stock vs = Throw TypeError.
Proof.
  induction vs as [ | v vs IH ]; intros Hin; [ destruct Hin as [[] | []] | ].
  cbn [Value.filter_outcome].
  assert (Hcases : v = VNull \/ v = VUndefined
                   \/ (In VNull vs \/ In VUndefined vs)).
  { destruct Hin as [[-> | H] | [-> | H]]; auto. }
  destruct Hcases as [-> | [-> | Hrest]]; [ reflexivity | reflexivity | ].
  rewrite (IH Hrest).
  destruct (is_stock v) as [keep | e] eqn:E; [ reflexivity | ].
  cbn [obind]. f_equal.
  unfold is_stock in E.
  destruct v; cbn [Value.get obind] in E; try congruence;
    repeat match type of E with
           | context [match ?x with _ => _ end] => destruct x; cbn [obind] in E
           end; congruence.
Qed.

Lemma upper_hex_digit_inert (n : N) : inert (URI.upper_hex_digit n) = true.
Proof.
  unfold URI.upper_hex_digit, inert.
  destruct (N.ltb_spec n 10);
    repeat match goal with
           | |- context [(?a =? ?b)] => destruct (N.eqb_spec a b); [ lia | ]
           end; reflexivity.
Qed.

Lemma percent_inert (b : N) : forallb inert (URI.percent b) = true.
Proof.
  unfold URI.percent. cbn [forallb].
  rewrite !upper_hex_digit_inert. reflexivity.
Qed.

Lemma encode_code_point_inert (cp : N) :
  forallb inert (URI.encode_code_point cp) = true.
Proof.
  unfold URI.encode_code_point.
  repeat match goal with
         | |- context [if ?b then _ else _] => destruct b
         end; rewrite ?forallb_app, ?percent_inert; reflexivity.
Qed.

Lemma unreserved_inert (c : N) : URI.is_unreserved c = true -> inert c = true.
Proof.
  unfold inert. intros H.
  repeat match goal with
         | |- context [(c =? ?b)] => destruct (N.eqb_spec c b); [ subst c; discriminate | ]
         end; reflexivity.
Qed.

Lemma encodeURIComponent_inert_bounded (n : nat) :
  forall s q : jsstring,
    (List.length s <= n)%nat ->
    URI.encodeURIComponent s = Ok q -> forallb inert q = true.
Proof.
  induction n as [ | n IH ]; intros s q Hlen H.
  - destruct s; [ | simpl in Hlen; lia ]. cbn in H. injection H as <-. reflexivity.
  - destruct s as [ | c r ]; [ cbn in H; injection H as <-; reflexivity | ].
    simpl in Hlen. cbn [URI.encodeURIComponent] in H.
    destruct (URI.is_unreserved c) eqn:Eu.
    + destruct (URI.encodeURIComponent r) as [t | ] eqn:Er; [ | discriminate ].
      injection H as <-. cbn [forallb].
      rewrite (unreserved_inert c Eu), (IH r t) by (lia || assumption).
      reflexivity.
    + destruct (JSON.is_low_surrogate c); [ discriminate | ].
      destruct (JSON.is_high_surrogate c).
      * destruct r as [ | d r' ]; [ discriminate | ].
        destruct (JSON.is_low_surrogate d); [ | discriminate ].
        destruct (URI.encodeURIComponent r') as [t | ] eqn:Er; [ | discriminate ].
        injection H as <-. simpl in Hlen.
        rewrite forallb_app, encode_code_point_inert, (IH r' t)
          by (lia || assumption).
        reflexivity.
      * destruct (URI.encodeURIComponent r) as [t | ] eqn:Er; [ | discriminate ].
        injection H as <-.
        rewrite forallb_app, encode_code_point_inert, (IH r t)
          by (lia || assumption).
        reflexivity.
Qed.

Lemma encodeURIComponent_inert (s q : jsstring) :
  URI.encodeURIComponent s = Ok q -> forallb inert q = true.
Proof. apply (encodeURIComponent_inert_bounded (List.length s)). lia. Qed.

Lemma encodeURIComponent_unreserved (s : jsstring) :
  forallb URI.is_unreserved s = true -> URI.encodeURIComponent s = Ok s.
Proof.
  induction s as [ | c r IH ]; [ reflexivity | ].
  cbn [forallb]. intros H. apply andb_true_iff in H as [Hc Hr].
  cbn [URI.encodeURIComponent]. rewrite Hc, (IH Hr). reflexivity.
Qed.

End Response_facts.

(** ** Arithmetic on whole numbers of milliseconds *)

Module Number_facts.

Import Float64 Number.

Local Open Scope Z_scope.

Lemma div_nearest_even_scaled (n d k : Z) :
  0 < d -> 0 < k -> div_nearest_even (n * k) (d * k) = div_nearest_even n d.
Proof.
  intros Hd Hk. unfold div_nearest_even.
  rewrite Z.div_mul_cancel_r by lia.
  rewrite Z.mul_mod_distr_r by lia.
  replace (2 * (n mod d * k)) with (2 * (n mod d) * k) by ring.
  destruct (Z.ltb_spec (2 * (n mod d)) d) as [H1 | H1];
    destruct (Z.ltb_spec (2 * (n mod d) * k) (d * k)) as [H2 | H2];
    try reflexivity; try nia.
  destruct (Z.ltb_spec d (2 * (n mod d))) as [H3 | H3];
    destruct (Z.ltb_spec (d * k) (2 * (n mod d) * k)) as [H4 | H4];
    try reflexivity; nia.
Qed.

Lemma log2_ratio_scaled_pow2 (n d j : Z) :
  0 < n -> 0 < d -> 0 <= j ->
  log2_ratio (n * 2 ^ j) (d * 2 ^ j) = log2_ratio n d.
Proof.
  intros Hn Hd Hj. unfold log2_ratio.
  rewrite !Z.log2_mul_pow2 by lia.
  replace (j + Z.log2 n - (j + Z.log2 d)) with (Z.log2 n - Z.log2 d) by lia.
  set (l := Z.log2 n - Z.log2 d).
  assert (Hp : 0 < 2 ^ j) by (apply Z.pow_pos_nonneg; lia).
  destruct (Z.leb_spec 0 l) as [Hl | Hl].
  - assert (Hq : 0 < 2 ^ l) by (apply Z.pow_pos_nonneg; lia).
    destruct (Z.leb_spec (d * 2 ^ l) n) as [H1 | H1];
      destruct (Z.leb_spec (d * 2 ^ j * 2 ^ l) (n * 2 ^ j)) as [H2 | H2];
      try reflexivity; nia.
  - assert (Hq : 0 < 2 ^ (- l)) by (apply Z.pow_pos_nonneg; lia).
    destruct (Z.leb_spec d (n * 2 ^ (- l))) as [H1 | H1];
      destruct (Z.leb_spec (d * 2 ^ j) (n * 2 ^ j * 2 ^ (- l))) as [H2 | H2];
      try reflexivity; nia.
Qed.

(** Rounding sees the value of the fraction only. *)
Lemma round_scaled_pow2 (neg : bool) (n d j : Z) :
  0 <= n -> 0 < d -> 0 <= j ->
  round neg (n * 2 ^ j) (d * 2 ^ j) = round neg n d.
Proof.
  intros Hn Hd Hj. unfold round.
  assert (Hp : 0 < 2 ^ j) by (apply Z.pow_pos_nonneg; lia).
  destruct (Z.eqb_spec n 0) as [-> | Hn0].
  - rewrite Z.mul_0_l. reflexivity.
  - destruct (Z.eqb_spec (n * 2 ^ j) 0) as [E | _]; [ nia | ].
    rewrite log2_ratio_scaled_pow2 by lia.
    set (e := Z.max (-1074) (log2_ratio n d - 52)).
    replace (n * 2 ^ j * 2 ^ (- e)) with (n * 2 ^ (- e) * 2 ^ j) by ring.
    replace (d * 2 ^ j * 2 ^ e) with (d * 2 ^ e * 2 ^ j) by ring.
    destruct (Z.ltb_spec e 0) as [He | He].
    + rewrite div_nearest_even_scaled by lia. reflexivity.
    + assert (0 < 2 ^ e) by (apply Z.pow_pos_nonneg; lia).
      rewrite div_nearest_even_scaled by nia. reflexivity.
Qed.

(** A whole number below [2^53], as the fraction the operations see. *)
Lemma of_Z_fraction (z : Z) :
  0 <= z < 2 ^ 53 ->
  exists (m : N) (e j : Z),
    of_Z z = Finite false m e /\ 0 <= j
    /\ fraction m e = (z * 2 ^ j, 2 ^ j)
    /\ (m =? 0)%N = (z =? 0).
Proof.
  intros Hz. destruct (Z.eq_dec z 0) as [-> | Hz0].
  - exists 0%N, (-1074), 1074. split; [ reflexivity | ]. split; [ lia | ].
    split; [ | reflexivity ].
    unfold fraction. cbn [Z.leb Z.compare Z.of_N Z.opp]. f_equal.
  - destruct (Float64_print.fraction_integer z) as (m & e & j & Hx & Hm & Hj & Hf);
      [ lia | ].
    exists m, e, j. split; [ | split; [ exact Hj | split; [ exact Hf | ] ] ].
    + unfold of_Z, of_decimal. cbn [Z.ltb Z.compare].
      rewrite N2Z.inj_abs_N, Z.pow_0_r, Z.mul_1_r.
      destruct (Z.ltb_spec z 0); [ lia | ].
      rewrite Z.abs_eq by lia. exact Hx.
    + rewrite Hm. symmetry. apply Z.eqb_neq. exact Hz0.
Qed.

Lemma of_Z_round (z : Z) : of_Z z = round (z <? 0) (Z.abs z) 1.
Proof.
  unfold of_Z, of_decimal. cbn [Z.ltb Z.compare].
  rewrite N2Z.inj_abs_N, Z.pow_0_r, Z.mul_1_r. reflexivity.
Qed.

(** The difference of two whole numbers. *)
Lemma sub_of_Z (a b : Z) :
  0 <= a < 2 ^ 53 -> 0 <= b < 2 ^ 53 ->
  sub (of_Z a) (of_Z b) = of_Z (a - b).
Proof.
  intros Ha Hb.
  destruct (of_Z_fraction a Ha) as (m & e & j & -> & Hj & Hf & Hm).
  destruct (of_Z_fraction b Hb) as (m' & e' & j' & -> & Hj' & Hf' & Hm').
  unfold sub. rewrite Hf, Hf'. cbn [signed andb].
  assert (Hp : 0 < 2 ^ j) by (apply Z.pow_pos_nonneg; lia).
  assert (Hp' : 0 < 2 ^ j') by (apply Z.pow_pos_nonneg; lia).
  replace (a * 2 ^ j * 2 ^ j' - b * 2 ^ j' * 2 ^ j)
    with ((a - b) * 2 ^ (j + j'))
    by (rewrite Z.pow_add_r by lia; ring).
  rewrite <- Z.pow_add_r by lia.
  assert (Hpp : 0 < 2 ^ (j + j')) by (apply Z.pow_pos_nonneg; lia).
  rewrite of_Z_round.
  destruct (Z.eqb_spec ((a - b) * 2 ^ (j + j')) 0) as [E | E].
  - assert (Eab : a - b = 0) by nia. rewrite Eab. reflexivity.
  - assert (Hab : a - b <> 0) by nia.
    rewrite Z.abs_mul, (Z.abs_eq (2 ^ (j + j'))) by lia.
    replace ((a - b) * 2 ^ (j + j') <? 0) with (a - b <? 0)
      by (destruct (Z.ltb_spec ((a - b) * 2 ^ (j + j')) 0);
          destruct (Z.ltb_spec (a - b) 0); try reflexivity; nia).
    rewrite <- (round_scaled_pow2 (a - b <? 0) (Z.abs (a - b)) 1 (j + j')) by lia.
    rewrite Z.mul_1_l. reflexivity.
Qed.

(** The quotient of two whole numbers: the fraction, rounded. *)
Lemma div_of_Z (a k : Z) :
  0 <= a < 2 ^ 53 -> 0 < k < 2 ^ 53 ->
  div (of_Z a) (of_Z k) = round false a k.
Proof.
  intros Ha Hk.
  destruct (of_Z_fraction a Ha) as (m & e & j & -> & Hj & Hf & Hm).
  destruct (of_Z_fraction k) as (m' & e' & j' & -> & Hj' & Hf' & Hm'); [ lia | ].
  unfold div. rewrite Hm', Hf, Hf'.
  destruct (Z.eqb_spec k 0); [ lia | ]. cbn [xorb].
  replace (a * 2 ^ j * 2 ^ j') with (a * 2 ^ (j + j'))
    by (rewrite Z.pow_add_r by lia; ring).
  replace (2 ^ j * (k * 2 ^ j')) with (k * 2 ^ (j + j'))
    by (rewrite Z.pow_add_r by lia; ring).
  apply round_scaled_pow2; lia.
Qed.

(** Comparing two whole numbers. *)
Lemma lt_of_Z (a b : Z) :
  0 <= a < 2 ^ 53 -> 0 <= b < 2 ^ 53 ->
  lt (of_Z a) (of_Z b) = (a <? b).
Proof.
  intros Ha Hb.
  destruct (of_Z_fraction a Ha) as (m & e & j & -> & Hj & Hf & Hm).
  destruct (of_Z_fraction b Hb) as (m' & e' & j' & -> & Hj' & Hf' & Hm').
  unfold lt. rewrite Hf, Hf'. cbn [signed].
  assert (Hp : 0 < 2 ^ j) by (apply Z.pow_pos_nonneg; lia).
  assert (Hp' : 0 < 2 ^ j') by (apply Z.pow_pos_nonneg; lia).
  replace (a * 2 ^ j * 2 ^ j') with (a * (2 ^ j * 2 ^ j')) by ring.
  replace (b * 2 ^ j' * 2 ^ j) with (b * (2 ^ j * 2 ^ j')) by ring.
  assert (Hpp : 0 < 2 ^ j * 2 ^ j') by nia.
  destruct (Z.ltb_spec (a * (2 ^ j * 2 ^ j')) (b * (2 ^ j * 2 ^ j')));
    destruct (Z.ltb_spec a b); try reflexivity; nia.
Qed.

(** The binary exponent of a quotient of whole numbers. *)
Lemma log2_ratio_range (n k : Z) :
  0 < n < 2 ^ 53 -> 0 < k < 2 ^ 53 ->
  -53 <= log2_ratio n k <= 52 /\ k < 2 ^ (53 - log2_ratio n k).
Proof.
  intros Hn Hk. unfold log2_ratio.
  pose proof (Z.log2_nonneg n) as Ha0.
  pose proof (Z.log2_nonneg k) as Hb0.
  assert (Ha : Z.log2 n < 53) by (apply Z.log2_lt_pow2; lia).
  assert (Hb : Z.log2 k < 53) by (apply Z.log2_lt_pow2; lia).
  pose proof (Z.log2_spec n (proj1 Hn)) as [Hnlo Hnhi].
  pose proof (Z.log2_spec k (proj1 Hk)) as [Hklo Hkhi].
  set (a := Z.log2 n) in *. set (b := Z.log2 k) in *.
  assert (Hmono : forall x y, 0 <= x <= y -> 2 ^ x <= 2 ^ y)
    by (intros x y Hxy; apply Z.pow_le_mono_r; lia).
  destruct (Z.leb_spec 0 (a - b)) as [Hl | Hl].
  - destruct (Z.leb_spec (k * 2 ^ (a - b)) n) as [Ht | Ht].
    + split; [ lia | ].
      assert (E : 2 ^ 53 = 2 ^ (a - b) * 2 ^ (53 - (a - b)))
        by (rewrite <- Z.pow_add_r by lia; f_equal; lia).
      assert (0 < 2 ^ (a - b)) by (apply Z.pow_pos_nonneg; lia).
      assert (0 < 2 ^ (53 - (a - b))) by (apply Z.pow_pos_nonneg; lia).
      nia.
    + split; [ lia | ].
      specialize (Hmono (Z.succ b) (53 - (a - b - 1))). lia.
  - assert (H53 : forall l, l <= 0 -> 2 ^ 53 <= 2 ^ (53 - l))
      by (intros l Hl0; apply Z.pow_le_mono_r; lia).
    destruct (k <=? n * 2 ^ (- (a - b))).
    + split; [ lia | ]. specialize (H53 (a - b)). lia.
    + split; [ lia | ]. specialize (H53 (a - b - 1)). lia.
Qed.

(** Rounding a quotient to the nearest scaled integer does not reach
    the next whole number. *)
Lemma div_nearest_even_below (n k p : Z) :
  0 <= n -> 0 < k -> 0 < p -> k < 2 * p ->
  n / k * p <= div_nearest_even (n * p) k < (n / k + 1) * p.
Proof.
  intros Hn Hk Hp Hkp.
  pose proof (Z.div_mod n k ltac:(lia)) as En.
  pose proof (Z.mod_pos_bound n k Hk) as Hr.
  pose proof (Z.div_mod (n * p) k ltac:(lia)) as Ex.
  pose proof (Z.mod_pos_bound (n * p) k Hk) as Hrho.
  set (Q := n / k) in *. set (R := n mod k) in *.
  set (f := n * p / k) in *. set (rho := (n * p) mod k) in *.
  assert (Hlo : Q * p <= f).
  { apply Z.div_le_lower_bound; [ exact Hk | ]. nia. }
  assert (Hhi : f < (Q + 1) * p).
  { apply Z.div_lt_upper_bound; [ exact Hk | ]. nia. }
  assert (Hup : k <= 2 * rho -> f + 1 < (Q + 1) * p).
  { intros Hhalf.
    destruct (Z.lt_ge_cases (f + 1) ((Q + 1) * p)) as [Hlt | Hge]; [ exact Hlt | ].
    exfalso.
    assert (Ef : f = (Q + 1) * p - 1) by lia.
    assert (Hx : n * p <= (k * (Q + 1) - 1) * p) by nia.
    rewrite Ex, Ef in Hx.
    assert (rho <= k - p) by nia. lia. }
  unfold div_nearest_even. fold f rho.
  destruct (Z.ltb_spec (2 * rho) k); [ lia | ].
  destruct (Z.ltb_spec k (2 * rho)); [ lia | ].
  destruct (Z.even f); lia.
Qed.

Lemma floor_value (m : N) (e num den q : Z) :
  fraction m e = (num, den) -> num / den = q ->
  floor (Finite false m e) = of_Z q.
Proof.
  intros Hf <-. unfold floor. rewrite Hf. cbn [signed].
  rewrite of_Z_round.
  destruct (Z.eqb_spec (num / den) 0) as [-> | _]; reflexivity.
Qed.

(** The floor of the rounded quotient of two whole numbers is the
    quotient of the integer division. *)
Lemma floor_round_div (n k : Z) :
  0 <= n < 2 ^ 53 -> 0 < k < 2 ^ 53 ->
  floor (round false n k) = of_Z (n / k).
Proof.
  intros Hn Hk. unfold round.
  destruct (Z.eqb_spec n 0) as [-> | Hn0].
  - rewrite Z.div_0_l by lia. reflexivity.
  - destruct (log2_ratio_range n k) as [HL Hk2]; [ lia | lia | ].
    set (L := log2_ratio n k) in *.
    rewrite Z.max_r by lia.
    set (s := 52 - L).
    assert (Hs : 0 <= s) by (unfold s; lia).
    assert (Hp : 0 < 2 ^ s) by (apply Z.pow_pos_nonneg; lia).
    assert (Hkp : k < 2 * 2 ^ s).
    { replace (2 * 2 ^ s) with (2 ^ (53 - L)); [ exact Hk2 | ].
      replace (53 - L) with (Z.succ s) by (unfold s; lia).
      apply Z.pow_succ_r. exact Hs. }
    pose proof (div_nearest_even_below n k (2 ^ s) ltac:(lia) ltac:(lia) Hp Hkp)
      as Hq.
    assert (Eq : (if L - 52 <? 0
                  then div_nearest_even (n * 2 ^ (- (L - 52))) k
                  else div_nearest_even n (k * 2 ^ (L - 52)))
                 = div_nearest_even (n * 2 ^ s) k).
    { destruct (Z.ltb_spec (L - 52) 0) as [He | He].
      - replace (- (L - 52)) with s by (unfold s; lia). reflexivity.
      - assert (Es : s = 0) by (unfold s; lia).
        replace (L - 52) with 0 by lia. rewrite Es.
        change (2 ^ 0) with 1. rewrite !Z.mul_1_r. reflexivity. }
    rewrite Eq. clear Eq.
    set (q := div_nearest_even (n * 2 ^ s) k) in *.
    set (Q := n / k) in *.
    assert (HQ : 0 <= Q) by (apply Z.div_pos; lia).
    destruct (Z.eqb_spec q (2 ^ 53)) as [E53 | _].
    + destruct (Z.ltb_spec 971 (L - 52 + 1)); [ lia | ].
      apply (floor_value _ _ (fst (fraction (Z.to_N (2 ^ 52)) (L - 52 + 1)))
               (snd (fraction (Z.to_N (2 ^ 52)) (L - 52 + 1))));
        [ destruct (fraction _ _); reflexivity | ].
      unfold fraction. rewrite Z2N.id by lia.
      destruct (Z.leb_spec 0 (L - 52 + 1)) as [He | He]; cbn [fst snd].
      * rewrite Z.div_1_r.
        assert (Es : s = 0 \/ s = 1) by (unfold s; lia).
        destruct Es as [Es | Es]; rewrite Es in *;
          [ replace (L - 52 + 1) with 1 by lia
          | replace (L - 52 + 1) with 0 by lia ];
          change (2 ^ 1) with 2 in *; change (2 ^ 0) with 1 in *; lia.
      * replace (- (L - 52 + 1)) with (s - 1) by (unfold s; lia).
        assert (Hp1 : 0 < 2 ^ (s - 1)) by (apply Z.pow_pos_nonneg; unfold s; lia).
        assert (E2 : 2 ^ s = 2 * 2 ^ (s - 1)).
        { replace s with (Z.succ (s - 1)) at 1 by lia.
          apply Z.pow_succ_r. unfold s. lia. }
        symmetry. apply (Z.div_unique _ _ Q (2 ^ 52 - 2 ^ (s - 1) * Q)); lia.
    + destruct (Z.ltb_spec 971 (L - 52)); [ lia | ].
      assert (Hq0 : 0 <= q) by nia.
      apply (floor_value _ _ (fst (fraction (Z.to_N q) (L - 52)))
               (snd (fraction (Z.to_N q) (L - 52))));
        [ destruct (fraction _ _); reflexivity | ].
      unfold fraction. rewrite Z2N.id by lia.
      destruct (Z.leb_spec 0 (L - 52)) as [He | He]; cbn [fst snd].
      * assert (Es : s = 0) by (unfold s; lia). rewrite Es in *.
        replace (L - 52) with 0 by lia. change (2 ^ 0) with 1 in *.
        rewrite Z.div_1_r. lia.
      * replace (- (L - 52)) with s by (unfold s; lia).
        symmetry. apply (Z.div_unique _ _ Q (q - 2 ^ s * Q)); lia.
Qed.

(** The floor of the quotient of two whole numbers. *)
Lemma floor_div_of_Z (n k : Z) :
  0 <= n < 2 ^ 53 -> 0 < k < 2 ^ 53 ->
  floor (div (of_Z n) (of_Z k)) = of_Z (n / k).
Proof.
  intros Hn Hk. rewrite div_of_Z by assumption.
  apply floor_round_div; assumption.
Qed.

(** *** Numbers below zero *)

Lemma round_sign (neg : bool) (n d : Z) : sign_bit (round neg n d) = neg.
Proof.
  unfold round. destruct (n =? 0); [ reflexivity | ].
  match goal with
  | |- context [let '(q, e) := ?p in _] => destruct p as [q e]
  end.
  destruct (971 <? e); reflexivity.
Qed.

Lemma fraction_bounds (m : N) (e : Z) :
  0 <= fst (fraction m e) /\ 0 < snd (fraction m e).
Proof.
  unfold fraction. destruct (Z.leb_spec 0 e); cbn [fst snd].
  - assert (0 < 2 ^ e) by (apply Z.pow_pos_nonneg; lia). nia.
  - assert (0 < 2 ^ (- e)) by (apply Z.pow_pos_nonneg; lia). lia.
Qed.

Lemma div_sign (x : t) (k : Z) :
  0 < k < 2 ^ 53 -> sign_bit x = true -> sign_bit (div x (of_Z k)) = true.
Proof.
  intros Hk Hx.
  destruct (of_Z_fraction k) as (m' & e' & j' & -> & Hj' & Hf' & Hm'); [ lia | ].
  destruct x as [ | neg | neg m e ]; cbn [sign_bit] in Hx; subst;
    [ discriminate | reflexivity | ].
  unfold div. rewrite Hm'. destruct (Z.eqb_spec k 0); [ lia | ].
  destruct (fraction m e), (fraction m' e'). apply round_sign.
Qed.

Lemma floor_sign (x : t) : sign_bit x = true -> sign_bit (floor x) = true.
Proof.
  destruct x as [ | neg | neg m e ]; cbn [sign_bit]; intros Hx; subst;
    [ discriminate | reflexivity | ].
  unfold floor. pose proof (fraction_bounds m e) as [Hn Hd].
  destruct (fraction m e) as [n d]. cbn [fst snd signed] in *.
  destruct (Z.eqb_spec (- n / d) 0); [ reflexivity | ].
  rewrite round_sign.
  assert (- n / d <= 0) by (apply Z.div_le_upper_bound; lia).
  apply Z.ltb_lt. lia.
Qed.

Lemma lt_sign (x : t) (k : Z) :
  0 < k < 2 ^ 53 -> sign_bit x = true -> lt x (of_Z k) = true.
Proof.
  intros Hk Hx.
  destruct (of_Z_fraction k) as (m' & e' & j' & -> & Hj' & Hf' & Hm'); [ lia | ].
  destruct x as [ | neg | neg m e ]; cbn [sign_bit] in Hx; subst;
    [ discriminate | reflexivity | ].
  unfold lt. rewrite Hf'. pose proof (fraction_bounds m e) as [Hn Hd].
  destruct (fraction m e) as [n d]. cbn [fst snd signed] in *.
  assert (0 < 2 ^ j') by (apply Z.pow_pos_nonneg; lia).
  apply Z.ltb_lt. nia.
Qed.

Lemma of_Z_sign (z : Z) : z < 0 -> sign_bit (of_Z z) = true.
Proof.
  intros Hz. rewrite of_Z_round, round_sign. apply Z.ltb_lt. exact Hz.
Qed.

(** *** [formatTimeAgo] *)

Lemma toString_count (z : Z) :
  0 <= z <= 8640000000000000 ->
  toString (of_Z z) = Js.digits_of_N (Z.to_N z).
Proof.
  intros Hz. rewrite Float64_print.toString_of_Z by lia.
  destruct (Z.ltb_spec z 0); [ lia | ].
  cbn [app]. f_equal. lia.
Qed.

Lemma formatTimeAgo_time_ago (w : World) (t : Z) :
  0 <= t <= 8640000000000000 -> 0 <= clock w <= 8640000000000000 ->
  RecentsView.formatTimeAgo (of_Z t) w
  = (Ok (RecentsView.time_ago (clock w - t)), w).
Proof.
  intros Ht Hc. unfold RecentsView.formatTimeAgo, bind, Date_now.
  rewrite sub_of_Z by lia.
  set (d := clock w - t).
  assert (Hd : - 8640000000000000 <= d <= 8640000000000000) by (unfold d; lia).
  unfold RecentsView.time_ago.
  destruct (Z.lt_ge_cases d 0) as [Hneg | Hpos].
  - rewrite lt_sign;
      [ | lia | apply floor_sign, div_sign; [ lia | apply of_Z_sign; exact Hneg ] ].
    destruct (Z.ltb_spec d 60000); [ reflexivity | lia ].
  - rewrite (floor_div_of_Z d 1000) by lia.
    assert (Hs : 0 <= d / 1000 <= 8640000000000000).
    { split; [ apply Z.div_pos; lia | ].
      apply Z.div_le_upper_bound; lia. }
    rewrite lt_of_Z by lia.
    assert (E1 : (d / 1000 <? 60) = (d <? 60000)).
    { destruct (Z.ltb_spec (d / 1000) 60) as [H | H];
        destruct (Z.ltb_spec d 60000) as [H' | H']; try reflexivity; exfalso.
      - assert (60 <= d / 1000) by (apply Z.div_le_lower_bound; lia). lia.
      - assert (d / 1000 < 60) by (apply Z.div_lt_upper_bound; lia). lia. }
    rewrite E1. destruct (d <? 60000); [ reflexivity | ].
    rewrite (floor_div_of_Z (d / 1000) 60) by lia.
    rewrite Z.div_div by lia. change (1000 * 60) with 60000.
    assert (Hm : 0 <= d / 60000 <= 8640000000000000).
    { split; [ apply Z.div_pos; lia | ].
      apply Z.div_le_upper_bound; lia. }
    rewrite lt_of_Z by lia.
    assert (E2 : (d / 60000 <? 60) = (d <? 3600000)).
    { destruct (Z.ltb_spec (d / 60000) 60) as [H | H];
        destruct (Z.ltb_spec d 3600000) as [H' | H']; try reflexivity; exfalso.
      - assert (60 <= d / 60000) by (apply Z.div_le_lower_bound; lia). lia.
      - assert (d / 60000 < 60) by (apply Z.div_lt_upper_bound; lia). lia. }
    rewrite E2. destruct (d <? 3600000).
    { rewrite toString_count by lia. reflexivity. }
    rewrite (floor_div_of_Z (d / 60000) 60) by lia.
    rewrite Z.div_div by lia. change (60000 * 60) with 3600000.
    assert (Hh : 0 <= d / 3600000 <= 8640000000000000).
    { split; [ apply Z.div_pos; lia | ].
      apply Z.div_le_upper_bound; lia. }
    rewrite lt_of_Z by lia.
    assert (E3 : (d / 3600000 <? 24) = (d <? 86400000)).
    { destruct (Z.ltb_spec (d / 3600000) 24) as [H | H];
        destruct (Z.ltb_spec d 86400000) as [H' | H']; try reflexivity; exfalso.
      - assert (24 <= d / 3600000) by (apply Z.div_le_lower_bound; lia). lia.
      - assert (d / 3600000 < 24) by (apply Z.div_lt_upper_bound; lia). lia. }
    rewrite E3. destruct (d <? 86400000).
    { rewrite toString_count by lia. reflexivity. }
    rewrite (floor_div_of_Z (d / 3600000) 24) by lia.
    rewrite Z.div_div by lia. change (3600000 * 24) with 86400000.
    assert (Hdays : 0 <= d / 86400000 <= 8640000000000000).
    { split; [ apply Z.div_pos; lia | ].
      apply Z.div_le_upper_bound; lia. }
    rewrite toString_count by lia. reflexivity.
Qed.

(** [formatTimeAgo] reads the clock and returns. *)
Lemma formatTimeAgo_total (x : t) (w : World) :
  exists text, RecentsView.formatTimeAgo x w = (Ok text, w).
Proof.
  unfold RecentsView.formatTimeAgo, bind, Date_now.
  repeat match goal with
         | |- context [if ?b then _ else _] => destruct b
         end; eexists; reflexivity.
Qed.

End Number_facts.

(** ** The shape of what the formatters print *)

Module Format_facts.

Import Float64.

Lemma digits_nonempty (n : N) : Js.digits_of_N n <> [].
Proof.
  destruct (Js_facts.digits_of_N_head n) as (c & r & Hd & _).
  rewrite Hd. discriminate.
Qed.

Lemma forallb_repeat_digit (k : nat) :
  forallb Js.is_digit (Js.repeat_unit 48 k) = true.
Proof. induction k as [ | k IH ]; [ reflexivity | exact IH ]. Qed.

Lemma digits_forallb (n : N) : forallb Js.is_digit (Js.digits_of_N n) = true.
Proof.
  apply forallb_forall. intros c Hc.
  pose proof (Js_facts.digits_of_N_digits n) as Hall.
  rewrite List.Forall_forall in Hall. apply Hall. exact Hc.
Qed.

(** A list of three elements or more, cut two before its end. *)
Lemma split_last_two {A} (l : list A) :
  (3 <= List.length l)%nat ->
  exists (front : list A) (a b : A),
    firstn (List.length l - 2) l = front
    /\ skipn (List.length l - 2) l = [a; b]
    /\ front <> [] /\ l = front ++ [a; b].
Proof.
  intros Hlen.
  pose proof (firstn_skipn (List.length l - 2) l) as Hsplit.
  pose proof (length_skipn (List.length l - 2) l) as Hskip.
  pose proof (length_firstn (List.length l - 2) l) as Hfirst.
  destruct (skipn (List.length l - 2) l) as [ | a [ | b [ | c r ] ] ];
    simpl in Hskip; try lia.
  exists (firstn (List.length l - 2) l), a, b.
  split; [ reflexivity | ]. split; [ reflexivity | ].
  split; [ | symmetry; exact Hsplit ].
  intros E. rewrite E in Hfirst. simpl in Hfirst. lia.
Qed.

(** [toFixed(2)] prints a sign or none, digits, a point and two
    digits. *)
Lemma toFixed_2_shape (x : t) :
  Number.fixed_range x = true ->
  exists (int : jsstring) (d1 d2 : N),
    toFixed x 2
    = (if lt_zero x then [45%N] else []) ++ int ++ [46%N; d1; d2]
    /\ int <> [] /\ forallb Js.is_digit (int ++ [d1; d2]) = true.
Proof.
  destruct x as [ | neg | neg m e ]; cbn [Number.fixed_range]; try discriminate.
  intros Hrange. unfold toFixed.
  destruct (fraction m e) as [num den].
  destruct (10 ^ 21 * den <=? num)%Z; [ discriminate | ].
  change ((2 =? 0)%N) with false. cbv iota.
  set (ds := Js.digits_of_N
               (Z.to_N ((2 * num * 10 ^ Z.of_N 2 + den) / (2 * den)))).
  set (ds' := if (List.length ds <=? N.to_nat 2)%nat
              then Js.repeat_unit 48 (N.to_nat 2 + 1 - List.length ds) ++ ds
              else ds).
  assert (Hds : forallb Js.is_digit ds = true) by apply digits_forallb.
  assert (Hds' : forallb Js.is_digit ds' = true).
  { unfold ds'. destruct (List.length ds <=? N.to_nat 2)%nat; [ | exact Hds ].
    rewrite forallb_app, forallb_repeat_digit, Hds. reflexivity. }
  assert (Hlen : (3 <= List.length ds')%nat).
  { unfold ds'. change (N.to_nat 2) with 2%nat.
    destruct (Nat.leb_spec (List.length ds) 2) as [H | H]; [ | lia ].
    rewrite length_app. unfold Js.repeat_unit. rewrite repeat_length. lia. }
  destruct (split_last_two ds' Hlen) as (int & d1 & d2 & Hf & Hs & Hne & Hall).
  exists int, d1, d2. change (N.to_nat 2) with 2%nat in *.
  rewrite Hf, Hs. split; [ reflexivity | ]. split; [ exact Hne | ].
  rewrite <- Hall. exact Hds'.
Qed.

End Format_facts.

(** ** The loaders of the detail views *)

Module Lookup_facts.

Import Recents History Frame.

Lemma holds_logged (rs : list Request) (cs : list (jsstring * exn)) (w : World)
  (l : list RecentTicker) :
  holds w l -> holds (logged rs cs w) l.
Proof. intros H. exact H. Qed.

(** The [addToRecents] of the loader is that of the command, on a name
    that is a string. *)
Lemma addToRecents_string (symbol name : jsstring) :
  QuickLookupView.addToRecents symbol (VString name)
  = QuickLookup.addToRecents symbol name.
Proof. reflexivity. Qed.

(** [trim] leaves no white space at either end. *)
Lemma trim_start_head (s : jsstring) :
  match ParseFloat.trim_start s with
  | c :: _ => ParseFloat.is_white_space c = false
  | [] => True
  end.
Proof.
  induction s as [ | c r IH ]; [ exact I | ].
  cbn [ParseFloat.trim_start].
  destruct (ParseFloat.is_white_space c) eqn:E; [ exact IH | exact E ].
Qed.

Lemma trim_start_suffix (s : jsstring) :
  exists p, s = p ++ ParseFloat.trim_start s
            /\ forallb ParseFloat.is_white_space p = true.
Proof.
  induction s as [ | c r (p & Hp & Hws) ]; [ exists []; split; reflexivity | ].
  cbn [ParseFloat.trim_start].
  destruct (ParseFloat.is_white_space c) eqn:E.
  - exists (c :: p). split; [ simpl; f_equal; exact Hp | ].
    simpl. rewrite E, Hws. reflexivity.
  - exists []. split; reflexivity.
Qed.

Lemma trim_ends (s : jsstring) :
  match QuickLookupView.trim s with
  | c :: _ => ParseFloat.is_white_space c = false
  | [] => True
  end
  /\ match rev (QuickLookupView.trim s) with
     | c :: _ => ParseFloat.is_white_space c = false
     | [] => True
     end.
Proof.
  unfold QuickLookupView.trim. split.
  - pose proof (trim_start_head s) as Hhead.
    destruct (trim_start_suffix (rev (ParseFloat.trim_start s))) as (p & Hp & Hws).
    set (u := ParseFloat.trim_start (rev (ParseFloat.trim_start s))) in *.
    apply (f_equal (@rev N)) in Hp. rewrite rev_involutive, rev_app_distr in Hp.
    destruct (rev u) as [ | c r ] eqn:Eu; [ exact I | ].
    rewrite Hp in Hhead. exact Hhead.
  - rewrite rev_involutive. apply trim_start_head.
Qed.

End Lookup_facts.

(** ** What the store after a history depends on *)

Module Depend_facts.

Import Recents History.

(** An action sees the store through the recents key and the clock
    only. *)
Lemma perform_key (a : action) (w1 w2 : World) :
  storage w1 !! RECENTS_KEY = storage w2 !! RECENTS_KEY ->
  clock w1 = clock w2 ->
  fst (perform a w1) = fst (perform a w2)
  /\ storage (snd (perform a w1)) !! RECENTS_KEY
     = storage (snd (perform a w2)) !! RECENTS_KEY.
Proof.
  intros Hkey Hclock.
  destruct a as [quick sym nm | sym | ].
  - assert (H : forall w, perform (Upsert quick sym nm) w
                          = ZacksRank.addToRecents sym nm w)
      by (intros w; destruct quick; reflexivity).
    rewrite !H.
    cbv [ZacksRank.addToRecents bind LocalStorage.getItem Date_now
         LocalStorage.setItem lift].
    rewrite Hkey.
    destruct (storage w2 !! RECENTS_KEY) as [s | ] eqn:Hk2; cbv [parse_stored ret lift].
    + destruct (Api_format.is_empty s).
      * rewrite Hclock. split; [ reflexivity | ].
        simpl. rewrite !lookup_insert_eq. reflexivity.
      * destruct (JSON.parse s) as [v | e]; [ | split; [ reflexivity | cbn [snd]; congruence ] ].
        destruct (Value.filter (other_symbol sym) v) as [f | e];
          [ | split; [ reflexivity | cbn [snd]; congruence ] ].
        rewrite Hclock. split; [ reflexivity | ].
        simpl. rewrite !lookup_insert_eq. reflexivity.
    + rewrite Hclock. split; [ reflexivity | ].
      simpl. rewrite !lookup_insert_eq. reflexivity.
  - cbn [perform].
    cbv [RecentStocks.removeRecent bind LocalStorage.getItem
         LocalStorage.setItem lift showToast revalidate].
    rewrite Hkey.
    destruct (storage w2 !! RECENTS_KEY) as [s | ] eqn:Hk2; cbv [parse_stored ret lift].
    + destruct (Api_format.is_empty s).
      * split; [ reflexivity | ]. simpl. rewrite !lookup_insert_eq. reflexivity.
      * destruct (JSON.parse s) as [v | e]; [ | split; [ reflexivity | cbn [snd]; congruence ] ].
        destruct (Value.filter (other_symbol sym) v) as [f | e];
          [ | split; [ reflexivity | cbn [snd]; congruence ] ].
        split; [ reflexivity | ]. simpl. rewrite !lookup_insert_eq. reflexivity.
    + split; [ reflexivity | ].
      simpl. rewrite !lookup_insert_eq. reflexivity.
  - cbn [perform]. split; [ reflexivity | ].
    simpl. rewrite !lookup_delete_eq. reflexivity.
Qed.

Lemma run_key (h : list (Z * action)) :
  forall w1 w2 : World,
    storage w1 !! RECENTS_KEY = storage w2 !! RECENTS_KEY ->
    storage (run h w1) !! RECENTS_KEY = storage (run h w2) !! RECENTS_KEY.
Proof.
  induction h as [ | [t a] h IH ]; intros w1 w2 Hkey; [ exact Hkey | ].
  cbn [run]. apply IH.
  apply (perform_key a (set_clock t w1) (set_clock t w2)); [ exact Hkey | reflexivity ].
Qed.

Lemma run_app (h1 h2 : list (Z * action)) (w : World) :
  run (h1 ++ h2) w = run h2 (run h1 w).
Proof.
  revert w. induction h1 as [ | [t a] h1 IH ]; intros w; [ reflexivity | ].
  cbn [app run]. apply IH.
Qed.

End Depend_facts.

(** * The specification, statement by statement *)

Import Recents History Examples.

(** ** C1: upsert *)

(** C1.  On a store that holds the list [l], an upsert of [(symbol,
    name)], from either command, writes back the list made of the new
    entry [{symbol, name, Date.now()}] in front of the entries of [l]
    with another symbol, cut to its first ten entries.  Upserting AAPL,
    MSFT and AAPL again on an empty store, at the times [t1], [t2], [t3],
    leaves [AAPL; MSFT], AAPL with the time of the third call. *)
Theorem addToRecents_upserts :
  (forall (quick : bool) (w : World) (l : list RecentTicker)
          (symbol name : jsstring),
      holds w l -> well_formed l ->
      perform (Upsert quick symbol name) w
      = (Ok tt,
         set_storage
           (insert RECENTS_KEY
              (stored
                 (firstn 10
                    ({| symbol := symbol; name := name; timestamp := clock w |}
                     :: List.filter
                          (fun r => negb (Js.eqb (Recents.symbol r) symbol)) l))))
           w))
  /\ (forall (w : World) (t1 t2 t3 : Z),
         storage w !! RECENTS_KEY = None ->
         time_value t1 -> time_value t2 -> time_value t3 ->
         storage
           (run [(t1, Upsert false (js "AAPL") (js "Apple Inc."));
                 (t2, Upsert true (js "MSFT") (js "Microsoft"));
                 (t3, Upsert false (js "AAPL") (js "Apple Inc."))] w)
         !! RECENTS_KEY
         = Some (stored [AAPL t3; MSFT t2])).
Proof.
  split.
  - intros quick w l symbol name Hh Hwf.
    assert (H : perform (Upsert quick symbol name) w
                = ZacksRank.addToRecents symbol name w)
      by (destruct quick; reflexivity).
    rewrite H. apply Store_facts.addToRecents_holds; assumption.
  - intros w t1 t2 t3 Hnone Ht1 Ht2 Ht3. cbn [run].
    rewrite (History_facts.upsert_step false t1 w []);
      [ | apply History_facts.holds_empty; assumption | constructor ].
    change (upserted (js "AAPL") (js "Apple Inc.") t1 []) with [AAPL t1].
    rewrite (History_facts.upsert_step true t2 _ [AAPL t1]);
      [ | apply History_facts.holds_written
        | constructor; [ assumption | constructor ] ].
    assert (E2 : upserted (js "MSFT") (js "Microsoft") t2 [AAPL t1]
                 = [MSFT t2; AAPL t1]) by reflexivity.
    rewrite E2.
    rewrite (History_facts.upsert_step false t3 _ [MSFT t2; AAPL t1]).
    + assert (E3 : upserted (js "AAPL") (js "Apple Inc.") t3 [MSFT t2; AAPL t1]
                   = [AAPL t3; MSFT t2]) by reflexivity.
      rewrite E3. simpl. apply lookup_insert_eq.
    + apply History_facts.holds_written.
    + repeat constructor; assumption.
Qed.

Lemma addToRecents_upserts_witness :
  perform (Upsert false (js "AAPL") (js "Apple Inc.")) empty_world
  = (Ok tt,
     set_storage (insert RECENTS_KEY (stored [AAPL 1700000000000])) empty_world)
  /\ storage
       (run [(1700000000001%Z, Upsert false (js "AAPL") (js "Apple Inc."));
             (1700000000002%Z, Upsert true (js "MSFT") (js "Microsoft"));
             (1700000000003%Z, Upsert false (js "AAPL") (js "Apple Inc."))]
            empty_world)
     !! RECENTS_KEY
     = Some (stored [AAPL 1700000000003%Z; MSFT 1700000000002%Z]).
Proof.
  split.
  - apply (proj1 addToRecents_upserts false empty_world [] (js "AAPL")
             (js "Apple Inc.")).
    + right. split; reflexivity.
    + constructor.
  - apply (proj2 addToRecents_upserts empty_world 1700000000001%Z
             1700000000002%Z 1700000000003%Z).
    + reflexivity.
    + apply History_facts.time_value_example. reflexivity.
    + apply History_facts.time_value_example. reflexivity.
    + apply History_facts.time_value_example. reflexivity.
Defined.

(** ** C2: the invariant of the store *)

(** C2.  Whatever upserts, removals and clearings are run on an empty
    store, the list the store then holds has distinct symbols and at
    most ten entries.  After eleven upserts of distinct symbols it holds
    exactly ten entries, none with the symbol of the first upsert. *)
Theorem recents_unique_and_capped :
  (forall (h : list (Z * action)) (w : World),
      storage w !! RECENTS_KEY = None -> timed h ->
      exists l : list RecentTicker,
        holds (run h w) l /\ well_formed l
        /\ List.NoDup (symbols l) /\ (List.length l <= 10)%nat
        /\ (forall l' : list RecentTicker,
               holds (run h w) l' -> well_formed l' -> l' = l))
  /\ (forall (quick : bool) (first : RecentTicker) (others : list RecentTicker)
             (w : World),
         storage w !! RECENTS_KEY = None ->
         List.length others = 10%nat ->
         List.NoDup (symbols (first :: others)) ->
         well_formed (first :: others) ->
         exists l : list RecentTicker,
           holds
             (run (List.map
                     (fun e => (timestamp e, Upsert quick (symbol e) (name e)))
                     (first :: others)) w) l
           /\ List.length l = 10%nat
           /\ ~ In (symbol first) (symbols l)).
Proof.
  split.
  - intros h w Hnone Hh.
    destruct (History_facts.invariant_run h w Hh) as (l & Hl & Hwf & Hnd & Hlen).
    + exists []. split; [ apply History_facts.holds_empty; assumption | ].
      split; [ constructor | ]. split; [ constructor | simpl; lia ].
    + exists l. repeat split; try assumption.
      intros l' Hl' Hwf'. apply (History_facts.holds_unique (run h w)); assumption.
  - intros quick first others w Hnone Hlen Hnd Hwf.
    exists (rev others).
    pose proof (History_facts.run_fresh_upserts quick (first :: others) w []
                  (History_facts.holds_empty w Hnone)) as H.
    rewrite app_nil_r in H.
    replace (firstn 10 (rev (first :: others))) with (rev others) in H.
    + split; [ | split ].
      * apply H; try assumption; try constructor. simpl. lia.
        intros s _ [].
      * rewrite length_rev. assumption.
      * apply NoDup_cons_iff in Hnd as [Hnotin _].
        intros Hin. apply Hnotin. unfold symbols in *.
        apply in_map_iff in Hin as (r & Hr & Hin).
        apply in_map_iff. exists r. split; [ assumption | ].
        apply in_rev. assumption.
    + simpl. rewrite firstn_app, firstn_all2 by (rewrite length_rev; lia).
      rewrite length_rev, Hlen. simpl. symmetry. apply app_nil_r.
Qed.

Lemma recents_unique_and_capped_witness :
  (exists l : list RecentTicker,
      holds
        (run [(1700000000001%Z, Upsert false (js "AAPL") (js "Apple Inc."));
              (1700000000002%Z, Remove (js "MSFT"));
              (1700000000003%Z, Upsert true (js "AAPL") (js "Apple"));
              (1700000000004%Z, Clear);
              (1700000000005%Z, Upsert true (js "MSFT") (js "Microsoft"))]
           empty_world) l
      /\ well_formed l
      /\ List.NoDup (symbols l) /\ (List.length l <= 10)%nat
      /\ (forall l' : list RecentTicker,
             holds
               (run [(1700000000001%Z, Upsert false (js "AAPL") (js "Apple Inc."));
                     (1700000000002%Z, Remove (js "MSFT"));
                     (1700000000003%Z, Upsert true (js "AAPL") (js "Apple"));
                     (1700000000004%Z, Clear);
                     (1700000000005%Z, Upsert true (js "MSFT") (js "Microsoft"))]
                  empty_world) l' ->
             well_formed l' -> l' = l))
  /\ (exists l : list RecentTicker,
         holds
           (run (List.map
                   (fun e => (timestamp e, Upsert false (symbol e) (name e)))
                   (ticker 0 :: List.map ticker [1; 2; 3; 4; 5; 6; 7; 8; 9; 10]))
              empty_world) l
         /\ List.length l = 10%nat
         /\ ~ In (symbol (ticker 0)) (symbols l)).
Proof.
  split.
  - apply (proj1 recents_unique_and_capped).
    + reflexivity.
    + repeat constructor; apply History_facts.time_value_example; reflexivity.
  - apply (proj2 recents_unique_and_capped false (ticker 0)
             (List.map ticker [1; 2; 3; 4; 5; 6; 7; 8; 9; 10]) empty_world).
    + reflexivity.
    + reflexivity.
    + repeat (apply List.NoDup_cons; [ vm_compute; intuition discriminate | ]).
      apply List.NoDup_nil.
    + repeat constructor; apply History_facts.time_value_example; reflexivity.
Defined.

(** ** C3: reading the store *)

(** C3, as the claim states it, fails: with the text [{] in the store,
    which is not JSON, the list and the upsert both throw the
    SyntaxError of [JSON.parse]. *)
Lemma unparseable_store_counterexample :
  JSON.parse (js "{") = Throw SyntaxError
  /\ RecentStocks.load ascii_toUpperCase (world_with (js "{"))
     = (Throw SyntaxError, world_with (js "{"))
  /\ ZacksRank.addToRecents (js "AAPL") (js "Apple Inc.") (world_with (js "{"))
     = (Throw SyntaxError, world_with (js "{"))
  /\ QuickLookup.addToRecents (js "AAPL") (js "Apple Inc.") (world_with (js "{"))
     = (Throw SyntaxError, world_with (js "{")).
Proof. repeat split; vm_compute; reflexivity. Qed.

(** C3, amended.  When the key is absent and when the stored value is
    the empty string, the list is the empty sequence and the upsert
    writes the new entry alone.  A stored value that [JSON.parse]
    rejects is not read as an empty list: the list and the upsert throw
    the SyntaxError, and the store is left as it was. *)
Theorem recents_read_parse_failure :
  forall (toUpperCase : jsstring -> jsstring) (w : World),
    (storage w !! RECENTS_KEY = None \/ storage w !! RECENTS_KEY = Some (js "") ->
     RecentStocks.load toUpperCase w = (Ok [], w)
     /\ (forall (quick : bool) (symbol name : jsstring),
            perform (Upsert quick symbol name) w
            = (Ok tt,
               set_storage
                 (insert RECENTS_KEY
                    (stored [ {| symbol := symbol; name := name;
                                 timestamp := clock w |} ])) w)))
    /\ (forall (text : jsstring) (e : exn),
           storage w !! RECENTS_KEY = Some text ->
           text <> js "" ->
           JSON.parse text = Throw e ->
           e = SyntaxError
           /\ RecentStocks.load toUpperCase w = (Throw SyntaxError, w)
           /\ (forall (quick : bool) (symbol name : jsstring),
                  perform (Upsert quick symbol name) w = (Throw SyntaxError, w))).
Proof.
  intros toUpperCase w. split.
  - intros Hstored.
    assert (Hread : (let* stored := LocalStorage.getItem RECENTS_KEY in
                     parse_stored stored) w = (Ok (VArray []), w)).
    { unfold bind, LocalStorage.getItem.
      destruct Hstored as [-> | ->]; reflexivity. }
    split.
    + unfold RecentStocks.load. rewrite <- Store_facts.bind_assoc.
      rewrite (Store_facts.bind_eq _ _ _ _ _ Hread). reflexivity.
    + intros quick symbol name.
      assert (H : perform (Upsert quick symbol name) w
                  = ZacksRank.addToRecents symbol name w)
        by (destruct quick; reflexivity).
      rewrite H. unfold ZacksRank.addToRecents.
      rewrite <- Store_facts.bind_assoc.
      rewrite (Store_facts.bind_eq _ _ _ _ _ Hread). reflexivity.
  - intros text e Hsome Hne Hparse.
    assert (He : e = SyntaxError).
    { unfold JSON.parse in Hparse.
      destruct (JSON.parse_value (JSON.parse_fuel text) text) as [v rest | | ];
        [ destruct (JSON.skip_ws rest) | | ]; congruence. }
    subst e.
    assert (Hread : parse_stored (Some text) w = (Throw SyntaxError, w)).
    { unfold parse_stored. destruct text; [ contradiction | ].
      cbn [Api_format.is_empty]. unfold lift. rewrite Hparse. reflexivity. }
    split; [ reflexivity | ]. split.
    + unfold RecentStocks.load, bind at 1, LocalStorage.getItem.
      rewrite Hsome. unfold bind at 1. rewrite Hread. reflexivity.
    + intros quick symbol name.
      assert (H : perform (Upsert quick symbol name) w
                  = ZacksRank.addToRecents symbol name w)
        by (destruct quick; reflexivity).
      rewrite H. unfold ZacksRank.addToRecents, bind at 1, LocalStorage.getItem.
      rewrite Hsome. unfold bind at 1. rewrite Hread. reflexivity.
Qed.

Lemma recents_read_parse_failure_witness :
  RecentStocks.load ascii_toUpperCase empty_world = (Ok [], empty_world)
  /\ RecentStocks.load ascii_toUpperCase (world_with (js "not json"))
     = (Throw SyntaxError, world_with (js "not json"))
  /\ perform (Upsert true (js "AAPL") (js "Apple Inc.")) (world_with (js "not json"))
     = (Throw SyntaxError, world_with (js "not json")).
Proof.
  split.
  - apply (proj1 (recents_read_parse_failure ascii_toUpperCase empty_world)).
    left. reflexivity.
  - destruct (proj2 (recents_read_parse_failure ascii_toUpperCase
                       (world_with (js "not json")))
                (js "not json") SyntaxError) as (_ & Hload & Hupsert).
    + apply lookup_insert_eq.
    + discriminate.
    + vm_compute. reflexivity.
    + split; [ exact Hload | apply Hupsert ].
Defined.

(** ** C4: the quote of a ticker *)

(** C4.  [getZacksData] never throws.  It requests the quote of the
    upper-cased ticker.  When the response is an object, it returns the
    record stored under the upper-cased ticker, and [null] when there
    is none (or a value that is not a record and is falsy); when the
    request fails, when the status is not 2xx and when the body is not
    JSON, it returns [null] as well, and so it does when the ticker
    cannot be encoded in the URL. *)
Theorem getZacksData_fails_soft :
  forall (toUpperCase : jsstring -> jsstring) (ticker : jsstring) (w : World),
    (exists v, fst (Api.getZacksData toUpperCase (VString ticker) w) = Ok v)
    /\ (forall t : jsstring,
           URI.encodeURIComponent (toUpperCase ticker) = Ok t ->
           requests (snd (Api.getZacksData toUpperCase (VString ticker) w))
           = Requests.quote t :: requests w
           /\ (forall (r : Response) (props record : list (jsstring * value)),
                  network w (Requests.quote t) = Responded r ->
                  ok r = true ->
                  JSON.parse (body r) = Ok (VObject props) ->
                  Value.lookup (toUpperCase ticker) props = Some (VObject record) ->
                  fst (Api.getZacksData toUpperCase (VString ticker) w)
                  = Ok (VObject record))
           /\ (forall (r : Response) (props : list (jsstring * value)),
                  network w (Requests.quote t) = Responded r ->
                  ok r = true ->
                  JSON.parse (body r) = Ok (VObject props) ->
                  Value.lookup (toUpperCase ticker) props = None ->
                  fst (Api.getZacksData toUpperCase (VString ticker) w)
                  = Ok VNull)
           /\ (network w (Requests.quote t) = NetworkError ->
               fst (Api.getZacksData toUpperCase (VString ticker) w) = Ok VNull)
           /\ (forall r : Response,
                  network w (Requests.quote t) = Responded r ->
                  ok r = false ->
                  fst (Api.getZacksData toUpperCase (VString ticker) w) = Ok VNull)
           /\ (forall (r : Response) (e : exn),
                  network w (Requests.quote t) = Responded r ->
                  ok r = true ->
                  JSON.parse (body r) = Throw e ->
                  fst (Api.getZacksData toUpperCase (VString ticker) w)
                  = Ok VNull)
           /\ (forall (r : Response) (props : list (jsstring * value))
                      (v : value),
                  network w (Requests.quote t) = Responded r ->
                  ok r = true ->
                  JSON.parse (body r) = Ok (VObject props) ->
                  Value.lookup (toUpperCase ticker) props = Some v ->
                  fst (Api.getZacksData toUpperCase (VString ticker) w)
                  = Ok (if Value.truthy v then v else VNull)))
    /\ (forall e : exn,
           URI.encodeURIComponent (toUpperCase ticker) = Throw e ->
           Api.getZacksData toUpperCase (VString ticker) w
           = (Ok VNull, log_console (js "Zacks API error:", e) w)).
Proof.
  intros toUpperCase ticker w.
  split; [ apply Client_facts.getZacksData_total | ].
  split;
    [ | intros e Henc; unfold Api.getZacksData;
        unfold try_catch, bind at 1, lift at 1, Api.upper at 1;
        unfold bind at 1, lift at 1; rewrite Henc; reflexivity ].
  intros t Henc.
  assert (Hreq : requests (snd (Api.getZacksData toUpperCase (VString ticker) w))
                 = Requests.quote t :: requests w).
  { destruct (network w (Requests.quote t)) as [ | r ] eqn:Hnet.
    - unfold Api.getZacksData.
      unfold try_catch, bind at 1, lift at 1, Api.upper at 1.
      unfold bind at 1, lift at 1. rewrite Henc.
      unfold bind at 1, fetch. fold (Requests.quote t). rewrite Hnet.
      reflexivity.
    - rewrite (Client_facts.getZacksData_answered toUpperCase ticker t w r)
        by assumption.
      unfold try_catch. destruct (negb (ok r)); [ reflexivity | ].
      unfold bind at 1, json, lift at 1.
      destruct (JSON.parse (body r)) as [data | e]; [ | reflexivity ].
      unfold bind at 1, lift at 1.
      destruct (Value.get data (toUpperCase ticker)); reflexivity. }
  split; [ exact Hreq | ].
  split; [ | split; [ | split; [ | split; [ | split ] ] ] ].
  - intros r props record Hnet Hok Hparse Hlookup.
    rewrite (Client_facts.getZacksData_answered toUpperCase ticker t w r)
      by assumption.
    unfold try_catch. rewrite Hok. cbn [negb].
    unfold bind at 1, json, lift at 1. rewrite Hparse.
    unfold bind at 1, lift at 1. cbn [Value.get]. rewrite Hlookup.
    reflexivity.
  - intros r props Hnet Hok Hparse Hlookup.
    rewrite (Client_facts.getZacksData_answered toUpperCase ticker t w r)
      by assumption.
    unfold try_catch. rewrite Hok. cbn [negb].
    unfold bind at 1, json, lift at 1. rewrite Hparse.
    unfold bind at 1, lift at 1. cbn [Value.get]. rewrite Hlookup.
    reflexivity.
  - intros Hnet. unfold Api.getZacksData.
    unfold try_catch, bind at 1, lift at 1, Api.upper at 1.
    unfold bind at 1, lift at 1. rewrite Henc.
    unfold bind at 1, fetch. fold (Requests.quote t). rewrite Hnet.
    reflexivity.
  - intros r Hnet Hok.
    rewrite (Client_facts.getZacksData_answered toUpperCase ticker t w r)
      by assumption.
    unfold try_catch. rewrite Hok. reflexivity.
  - intros r e Hnet Hok Hparse.
    rewrite (Client_facts.getZacksData_answered toUpperCase ticker t w r)
      by assumption.
    unfold try_catch. rewrite Hok. cbn [negb].
    unfold bind at 1, json, lift at 1. rewrite Hparse. reflexivity.
  - intros r props v Hnet Hok Hparse Hlookup.
    rewrite (Client_facts.getZacksData_answered toUpperCase ticker t w r)
      by assumption.
    unfold try_catch. rewrite Hok. cbn [negb].
    unfold bind at 1, json, lift at 1. rewrite Hparse.
    unfold bind at 1, lift at 1. cbn [Value.get]. rewrite Hlookup.
    reflexivity.
Qed.

Lemma getZacksData_fails_soft_witness :
  requests (snd (Api.getZacksData ascii_toUpperCase (VString (js "aapl"))
                   (world_answering (Requests.always apple_response))))
  = [Requests.quote (js "AAPL")]
  /\ fst (Api.getZacksData ascii_toUpperCase (VString (js "aapl"))
            (world_answering (Requests.always apple_response)))
     = Ok (VObject apple_quote).
Proof.
  pose proof (proj1 (proj2 (getZacksData_fails_soft ascii_toUpperCase (js "aapl")
                              (world_answering (Requests.always apple_response))))
                (js "AAPL")) as H.
  destruct H as (Hreq & Hrecord & _); [ reflexivity | ].
  split; [ exact Hreq | ].
  apply (Hrecord apple_response [(js "AAPL", VObject apple_quote)] apple_quote).
  - reflexivity.
  - reflexivity.
  - vm_compute. reflexivity.
  - reflexivity.
Defined.

(** ** C5: a failed search *)

(** C5.  [searchTickers] never throws.  When the request fails, when
    the status is not 2xx and when the body is not JSON, it returns the
    empty sequence, which is what it returns for a response with no
    quotes. *)
Theorem searchTickers_fails_soft :
  forall (query : jsstring) (w : World),
    (exists results, fst (Api.searchTickers query w) = Ok results)
    /\ (forall q : jsstring,
           query <> [] ->
           URI.encodeURIComponent query = Ok q ->
           (network w (Requests.search q) = NetworkError ->
            fst (Api.searchTickers query w) = Ok [])
           /\ (forall r : Response,
                  network w (Requests.search q) = Responded r ->
                  ok r = false ->
                  fst (Api.searchTickers query w) = Ok [])
           /\ (forall (r : Response) (e : exn),
                  network w (Requests.search q) = Responded r ->
                  ok r = true ->
                  JSON.parse (body r) = Throw e ->
                  fst (Api.searchTickers query w) = Ok [])
           /\ (forall r : Response,
                  network w (Requests.search q) = Responded r ->
                  ok r = true ->
                  JSON.parse (body r) = Ok (Yahoo.response_value []) ->
                  fst (Api.searchTickers query w) = Ok []))
    /\ (forall e : exn,
           URI.encodeURIComponent query = Throw e ->
           fst (Api.searchTickers query w) = Ok []).
Proof.
  intros query w. split; [ apply Client_facts.searchTickers_total | ].
  split.
  - intros q Hne Henc. split; [ | split; [ | split ] ].
    + intros Hnet. unfold Api.searchTickers.
      rewrite Client_facts.nonempty_query by assumption.
      unfold try_catch, bind at 1, lift at 1. rewrite Henc.
      unfold bind at 1, fetch. fold (Requests.search q). rewrite Hnet.
      reflexivity.
    + intros r Hnet Hok.
      rewrite (Client_facts.searchTickers_answered query q w r) by assumption.
      unfold try_catch. rewrite Hok. reflexivity.
    + intros r e Hnet Hok Hparse.
      rewrite (Client_facts.searchTickers_answered query q w r) by assumption.
      unfold try_catch. rewrite Hok. cbn [negb].
      unfold bind at 1, json, lift at 1. rewrite Hparse. reflexivity.
    + intros r Hnet Hok Hparse.
      rewrite (Client_facts.searchTickers_answered query q w r) by assumption.
      unfold try_catch. rewrite Hok. cbn [negb].
      unfold bind at 1, json, lift at 1. rewrite Hparse. reflexivity.
  - intros e Henc. unfold Api.searchTickers.
    destruct (Api_format.is_empty query || (List.length query <? 1)%nat);
      [ reflexivity | ].
    unfold try_catch, bind at 1, lift at 1. rewrite Henc. reflexivity.
Qed.

Lemma searchTickers_fails_soft_witness :
  fst (Api.searchTickers (js "apple")
         (world_answering
            (Requests.always {| status := 503; body := js "Service Unavailable" |})))
  = Ok [].
Proof.
  refine (proj1 (proj2 (proj1 (proj2
            (searchTickers_fails_soft (js "apple")
               (world_answering
                  (Requests.always
                     {| status := 503; body := js "Service Unavailable" |}))))
            (js "apple") _ _))
            {| status := 503; body := js "Service Unavailable" |} _ _).
  - discriminate.
  - reflexivity.
  - reflexivity.
  - reflexivity.
Defined.

(** ** C6: the results of a search *)

(** C6, as the claim states it, fails: a quote whose long name is
    present and empty gets its short name, not its long name. *)
Lemma searchTickers_name_counterexample :
  JSON.parse (body unnamed_response) = Ok (Yahoo.response_value [unnamed_quote])
  /\ Yahoo.is_response (Yahoo.response_value [unnamed_quote]) [unnamed_quote]
  /\ fst (Api.searchTickers (js "acme")
              (world_answering (Requests.always unnamed_response)))
     = Ok [ {| Api.symbol := VString (js "ACME");
               Api.name := VString (js "Acme Corp") |} ]
  /\ fst (Api.searchTickers (js "acme")
            (world_answering (Requests.always unnamed_response)))
     <> Ok (List.map (Yahoo.result_of Yahoo.name_if_present)
              (List.filter Yahoo.is_equity_or_etf [unnamed_quote])).
Proof.
  split; [ vm_compute; reflexivity | ].
  split; [ apply Client_facts.response_value_is_response | ].
  split; [ vm_compute; reflexivity | ].
  vm_compute. discriminate.
Qed.

(** C6, amended.  For a well-formed response, [searchTickers] returns,
    in the order of the response, the quotes whose type is EQUITY or
    ETF, each as [{symbol, name}], the name being the long name if it
    is present and not empty, else the short name if it is present and
    not empty, else the symbol. *)
Theorem searchTickers_maps_quotes :
  forall (query q : jsstring) (w : World) (r : Response) (data : value)
         (quotes : list Yahoo.YahooQuote),
    query <> [] ->
    URI.encodeURIComponent query = Ok q ->
    network w (Requests.search q) = Responded r ->
    ok r = true ->
    JSON.parse (body r) = Ok data ->
    Yahoo.is_response data quotes ->
    fst (Api.searchTickers query w)
    = Ok (List.map (Yahoo.result_of Yahoo.display_name)
            (List.filter Yahoo.is_equity_or_etf quotes)).
Proof.
  intros query q w r data quotes Hne Henc Hnet Hok Hparse
         (props & vs & -> & Hquotes & Hvs).
  rewrite (Client_facts.searchTickers_answered query q w r) by assumption.
  unfold try_catch. rewrite Hok. cbn [negb].
  unfold bind at 1, json, lift at 1. rewrite Hparse.
  unfold bind at 1, lift at 1. cbn [Value.get]. rewrite Hquotes.
  destruct (Client_facts.filter_quotes vs quotes Hvs) as (vs' & Hf & Hvs').
  unfold bind at 1, lift at 1. cbn [Value.filter]. rewrite Hf.
  unfold lift. rewrite (Client_facts.map_quotes vs' _ Hvs'). reflexivity.
Qed.

Lemma searchTickers_maps_quotes_witness :
  fst (Api.searchTickers (js "acme")
         (world_answering (Requests.always unnamed_response)))
  = Ok (List.map (Yahoo.result_of Yahoo.display_name)
          (List.filter Yahoo.is_equity_or_etf [unnamed_quote])).
Proof.
  apply (searchTickers_maps_quotes (js "acme") (js "acme")
           (world_answering (Requests.always unnamed_response))
           unnamed_response (Yahoo.response_value [unnamed_quote])
           [unnamed_quote]).
  - discriminate.
  - reflexivity.
  - reflexivity.
  - reflexivity.
  - vm_compute. reflexivity.
  - apply Client_facts.response_value_is_response.
Defined.

(** ** C7: the empty query *)

(** C7.  For a query of length 0, [searchTickers] returns the empty
    sequence and leaves the world as it was: no request is issued. *)
Theorem searchTickers_empty_query :
  forall (query : jsstring) (w : World),
    List.length query = 0%nat ->
    Api.searchTickers query w = (Ok [], w)
    /\ requests (snd (Api.searchTickers query w)) = requests w.
Proof.
  intros query w Hlen. destruct query; [ | discriminate ].
  split; reflexivity.
Qed.

Lemma searchTickers_empty_query_witness :
  Api.searchTickers (js "") empty_world = (Ok [], empty_world)
  /\ requests (snd (Api.searchTickers (js "") empty_world))
     = requests empty_world.
Proof. apply (searchTickers_empty_query (js "") empty_world). reflexivity. Defined.

(** ** C8: the formatters on the examples *)


(** ** C9: remove *)

(** C9.  On a store that holds the list [l], [removeRecent symbol]
    writes back, whether or not an entry matched, the entries of [l]
    with another symbol, each as it was and in the order they had; when
    no entry has the symbol, the list written is [l] itself. *)
Theorem removeRecent_filters :
  forall (w : World) (l : list RecentTicker) (symbol : jsstring),
    holds w l -> well_formed l ->
    exists w' : World,
      RecentStocks.removeRecent symbol w = (Ok tt, w')
      /\ storage w'
         = <[RECENTS_KEY :=
               stored
                 (List.filter
                    (fun r => negb (Js.eqb (Recents.symbol r) symbol)) l)]>
             (storage w)
      /\ (~ In symbol (symbols l) ->
          storage w' !! RECENTS_KEY = Some (stored l)).
Proof.
  intros w l symbol Hh Hwf.
  eexists. split; [ apply Store_facts.removeRecent_holds; eassumption | ].
  split; [ reflexivity | ].
  intros Hnotin. simpl. unfold removed.
  rewrite List_facts.filter_other_id by assumption.
  apply lookup_insert_eq.
Qed.

Lemma removeRecent_filters_witness :
  exists w' : World,
    RecentStocks.removeRecent (js "AAPL")
      (world_with (stored [MSFT 1700000000002; AAPL 1700000000001]))
    = (Ok tt, w')
    /\ storage w'
       = <[RECENTS_KEY := stored [MSFT 1700000000002]]>
           (storage (world_with (stored [MSFT 1700000000002; AAPL 1700000000001])))
    /\ (~ In (js "AAPL") (symbols [MSFT 1700000000002; AAPL 1700000000001]) ->
        storage w' !! RECENTS_KEY
        = Some (stored [MSFT 1700000000002; AAPL 1700000000001])).
Proof.
  apply (removeRecent_filters
           (world_with (stored [MSFT 1700000000002; AAPL 1700000000001]))
           [MSFT 1700000000002; AAPL 1700000000001] (js "AAPL")).
  - left. apply lookup_insert_eq.
  - repeat constructor; apply History_facts.time_value_example; reflexivity.
Defined.

(** ** C10: the formatters read a numeric prefix *)

Lemma missing_numeral (sign ip : jsstring) (frac : option jsstring)
  (rest : jsstring) :
  Numeral.is_sign sign = true -> ip <> [] -> Numeral.all_digits ip = true ->
  missing (Numeral.text sign ip frac ++ rest) = false.
Proof.
  intros Hsign Hne Hip. unfold missing.
  destruct ip as [ | c ip' ]; [ contradiction | ].
  assert (Hc : 48 <= c <= 57).
  { apply ParseFloat_facts.digit_range.
    apply ParseFloat_facts.all_digits_Forall in Hip. inversion Hip; assumption. }
  unfold Numeral.text.
  apply ParseFloat_facts.is_sign_cases in Hsign as [-> | [-> | ->]];
    cbn [app Api_format.is_empty orb];
    apply orb_false_iff; split; apply Js_facts.eqb_neq; intros E;
    inversion E; subst; lia.
Qed.

(** C10.  A string made of a numeral (a sign or none, digits, a fraction
    or none) and of other text after it is formatted as the number the
    numeral denotes: ["3.5abc"] gives ["$3.50"] and ["+3.50%"].
    [parseFloat] fails exactly on the strings that start with no
    numeral, and every other string, unless it is empty, ["NA"] or
    ["-"], is formatted as the number [parseFloat] reads from it. *)
Theorem formatters_read_numeric_prefix :
  (forall (sign ip : jsstring) (frac : option jsstring) (rest : jsstring),
      Numeral.is_sign sign = true ->
      ip <> [] ->
      Numeral.all_digits ip = true ->
      Numeral.all_digits (Numeral.fraction_digits frac) = true ->
      Numeral.continues rest = false ->
      let value := Numeral.text sign ip frac ++ rest in
      let num := Numeral.number sign ip frac in
      formatCurrency value = js "$" ++ Float64.toFixed num 2
      /\ formatPercent value
         = (if Float64.ge_zero num then js "+" else js "")
             ++ Float64.toFixed num 2 ++ js "%")
  /\ formatCurrency (js "3.5abc") = js "$3.50"
  /\ formatPercent (js "3.5abc") = js "+3.50%"
  /\ (forall value : jsstring,
         Float64.isNaN (parseFloat value) = negb (Numeral.starts value))
  /\ (forall value : jsstring,
         missing value = false ->
         Numeral.starts value = true ->
         formatCurrency value = js "$" ++ Float64.toFixed (parseFloat value) 2
         /\ formatPercent value
            = (if Float64.ge_zero (parseFloat value) then js "+" else js "")
                ++ Float64.toFixed (parseFloat value) 2 ++ js "%").
Proof.
  split; [ | split; [ | split; [ | split ] ] ].
  - intros sign ip frac rest Hsign Hne Hip Hfp Hrest value num.
    unfold formatCurrency, formatPercent. subst value.
    rewrite missing_numeral by assumption.
    rewrite ParseFloat_facts.parseFloat_prefix by assumption.
    fold num. unfold num, Numeral.number.
    rewrite Float64_facts.of_decimal_not_NaN. split; reflexivity.
  - vm_compute. reflexivity.
  - vm_compute. reflexivity.
  - apply ParseFloat_facts.parseFloat_NaN.
  - intros value Hmissing Hstarts. unfold formatCurrency, formatPercent.
    rewrite Hmissing, ParseFloat_facts.parseFloat_NaN, Hstarts.
    split; reflexivity.
Qed.

Lemma formatters_read_numeric_prefix_witness :
  formatCurrency (js "-12.5 USD") = js "$-12.50"
  /\ formatPercent (js "-12.5 USD") = js "-12.50%".
Proof.
  pose proof (proj1 formatters_read_numeric_prefix (js "-") (js "12")
                (Some (js "5")) (js " USD")) as H.
  cbv zeta in H.
  assert (E : Float64.toFixed (Numeral.number (js "-") (js "12") (Some (js "5"))) 2
              = js "-12.50") by (vm_compute; reflexivity).
  rewrite E in H.
  apply H.
  - reflexivity.
  - discriminate.
  - reflexivity.
  - reflexivity.
  - reflexivity.
Defined.

(** * Further properties of the code *)

(** ** The recents store: how upserts and removals compose *)

(** X1.  Upserting a symbol twice is upserting it once, the second
    time: the store ends as after the second upsert alone, with one
    entry for the symbol, in front, carrying the second name and the
    second time. *)
Theorem addToRecents_refreshes :
  forall (q1 q2 : bool) (w : World) (l : list RecentTicker)
         (symbol n1 n2 : jsstring) (t1 t2 : Z),
    holds w l -> well_formed l -> time_value t1 ->
    holds (run [(t1, Upsert q1 symbol n1); (t2, Upsert q2 symbol n2)] w)
      ({| symbol := symbol; name := n2; timestamp := t2 |}
       :: firstn 9 (removed symbol l))
    /\ ~ In symbol (symbols (firstn 9 (removed symbol l)))
    /\ storage (run [(t1, Upsert q1 symbol n1); (t2, Upsert q2 symbol n2)] w)
       = storage (run [(t2, Upsert q2 symbol n2)] w).
Proof.
  intros q1 q2 w l symbol n1 n2 t1 t2 Hh Hwf Ht1.
  assert (Hwf1 : well_formed (upserted symbol n1 t1 l))
    by (apply List_facts.upserted_well_formed; assumption).
  cbn [run].
  rewrite (History_facts.upsert_step q1 t1 w l) by assumption.
  rewrite (History_facts.upsert_step q2 t2 _ (upserted symbol n1 t1 l))
    by (try apply History_facts.holds_written; assumption).
  rewrite (History_facts.upsert_step q2 t2 w l) by assumption.
  rewrite Compose_facts.upserted_upserted.
  split; [ | split ].
  - rewrite <- Compose_facts.upserted_cons. apply History_facts.holds_written.
  - intros Hin. unfold symbols in Hin. rewrite <- firstn_map in Hin.
    apply List_facts.In_firstn in Hin.
    exact (Compose_facts.not_In_removed symbol l Hin).
  - simpl. apply insert_insert_eq.
Qed.

Lemma addToRecents_refreshes_witness :
  holds
    (run [(1700000000001%Z, Upsert false (js "AAPL") (js "Apple"));
          (1700000000002%Z, Upsert true (js "AAPL") (js "Apple Inc."))]
       (world_with (stored [MSFT 1700000000000])))
    [AAPL 1700000000002; MSFT 1700000000000].
Proof.
  destruct (addToRecents_refreshes false true
              (world_with (stored [MSFT 1700000000000]))
              [MSFT 1700000000000] (js "AAPL") (js "Apple") (js "Apple Inc.")
              1700000000001%Z 1700000000002%Z) as (H & _).
  - left. apply lookup_insert_eq.
  - repeat constructor; apply History_facts.time_value_example; reflexivity.
  - apply History_facts.time_value_example. reflexivity.
  - exact H.
Defined.

(** X2.  An upsert drops an entry of another symbol only from a full
    list that does not have the symbol yet, and then it drops the last
    entry, the oldest: otherwise every entry of another symbol stays,
    behind the new one. *)
Theorem addToRecents_evicts_oldest :
  forall (quick : bool) (w : World) (l : list RecentTicker)
         (symbol name : jsstring),
    holds w l -> well_formed l -> (List.length l <= 10)%nat ->
    (In symbol (symbols l) \/ (List.length l < 10)%nat ->
     holds (snd (perform (Upsert quick symbol name) w))
       ({| symbol := symbol; name := name; timestamp := clock w |}
        :: List.filter (fun r => negb (Js.eqb (Recents.symbol r) symbol)) l))
    /\ (~ In symbol (symbols l) -> List.length l = 10%nat ->
        holds (snd (perform (Upsert quick symbol name) w))
          ({| symbol := symbol; name := name; timestamp := clock w |}
           :: removelast l)).
Proof.
  intros quick w l symbol name Hh Hwf Hlen.
  assert (H : perform (Upsert quick symbol name) w
              = ZacksRank.addToRecents symbol name w)
    by (destruct quick; reflexivity).
  rewrite H, (Store_facts.addToRecents_holds w l) by assumption.
  cbn [snd]. rewrite Compose_facts.upserted_cons.
  split.
  - intros Hroom.
    rewrite firstn_all2; [ apply History_facts.holds_written | ].
    destruct Hroom as [Hin | Hlt].
    + pose proof (Compose_facts.removed_shorter symbol l Hin). lia.
    + pose proof (Compose_facts.removed_length symbol l). lia.
  - intros Hnew Hfull. unfold removed.
    rewrite List_facts.filter_other_id by assumption.
    rewrite removelast_firstn_len, Hfull.
    apply History_facts.holds_written.
Qed.

Lemma addToRecents_evicts_oldest_witness :
  holds
    (snd (perform (Upsert false (js "AAPL") (js "Apple Inc."))
            (world_with (stored (List.map ticker [1; 2; 3; 4; 5; 6; 7; 8; 9; 10])))))
    (AAPL 1700000000000 :: List.map ticker [1; 2; 3; 4; 5; 6; 7; 8; 9]).
Proof.
  destruct (addToRecents_evicts_oldest false
              (world_with (stored (List.map ticker [1; 2; 3; 4; 5; 6; 7; 8; 9; 10])))
              (List.map ticker [1; 2; 3; 4; 5; 6; 7; 8; 9; 10])
              (js "AAPL") (js "Apple Inc.")) as (_ & H).
  - left. apply lookup_insert_eq.
  - repeat constructor; apply History_facts.time_value_example; reflexivity.
  - simpl. lia.
  - apply H.
    + vm_compute. intuition discriminate.
    + reflexivity.
Defined.

(** X3.  Looking a symbol up and then removing it leaves what removing
    it alone leaves, cut to nine entries: the lists agree when the
    symbol was stored already or fewer than ten entries were, and
    otherwise the upsert has pushed the oldest entry out for good. *)
Theorem removeRecent_after_addToRecents :
  forall (quick : bool) (w : World) (l : list RecentTicker)
         (symbol name : jsstring) (t1 t2 : Z),
    holds w l -> well_formed l -> time_value t1 ->
    holds (run [(t1, Upsert quick symbol name); (t2, Remove symbol)] w)
      (firstn 9 (List.filter (fun r => negb (Js.eqb (Recents.symbol r) symbol)) l))
    /\ ((In symbol (symbols l) /\ (List.length l <= 10)%nat)
        \/ (List.length l <= 9)%nat ->
        storage (run [(t1, Upsert quick symbol name); (t2, Remove symbol)] w)
        = storage (run [(t2, Remove symbol)] w)).
Proof.
  intros quick w l symbol name t1 t2 Hh Hwf Ht1.
  assert (Hwf1 : well_formed (upserted symbol name t1 l))
    by (apply List_facts.upserted_well_formed; assumption).
  cbn [run].
  rewrite (History_facts.upsert_step quick t1 w l) by assumption.
  cbn [perform].
  rewrite (Store_facts.removeRecent_holds _ (upserted symbol name t1 l))
    by (try apply History_facts.holds_written; assumption).
  rewrite (Store_facts.removeRecent_holds (set_clock t2 w) l) by assumption.
  rewrite Compose_facts.removed_upserted. cbn [snd].
  split.
  - left. simpl. apply lookup_insert_eq.
  - intros Hroom. simpl. rewrite insert_insert_eq.
    rewrite firstn_all2; [ reflexivity | ].
    destruct Hroom as [[Hin Hlen] | Hlen].
    + pose proof (Compose_facts.removed_shorter symbol l Hin). lia.
    + pose proof (Compose_facts.removed_length symbol l). lia.
Qed.

Lemma removeRecent_after_addToRecents_witness :
  holds
    (run [(1700000000020%Z, Upsert true (js "AAPL") (js "Apple Inc."));
          (1700000000021%Z, Remove (js "AAPL"))]
       (world_with (stored (List.map ticker [1; 2; 3; 4; 5; 6; 7; 8; 9; 10]))))
    (List.map ticker [1; 2; 3; 4; 5; 6; 7; 8; 9]).
Proof.
  destruct (removeRecent_after_addToRecents true
              (world_with (stored (List.map ticker [1; 2; 3; 4; 5; 6; 7; 8; 9; 10])))
              (List.map ticker [1; 2; 3; 4; 5; 6; 7; 8; 9; 10])
              (js "AAPL") (js "Apple Inc.")
              1700000000020%Z 1700000000021%Z) as (H & _).
  - left. apply lookup_insert_eq.
  - repeat constructor; apply History_facts.time_value_example; reflexivity.
  - apply History_facts.time_value_example. reflexivity.
  - exact H.
Defined.

(** X4.  Removals commute, and removing a symbol a second time changes
    nothing in the store. *)
Theorem removeRecent_commutes :
  forall (w : World) (l : list RecentTicker) (a b : jsstring) (t1 t2 t3 t4 : Z),
    holds w l -> well_formed l ->
    storage (run [(t1, Remove a); (t2, Remove b)] w)
    = storage (run [(t3, Remove b); (t4, Remove a)] w)
    /\ storage (run [(t1, Remove a); (t2, Remove a)] w)
       = storage (run [(t1, Remove a)] w)
    /\ holds (run [(t1, Remove a); (t2, Remove b)] w)
         (List.filter
            (fun r => negb (Js.eqb (Recents.symbol r) a)
                      && negb (Js.eqb (Recents.symbol r) b)) l).
Proof.
  intros w l a b t1 t2 t3 t4 Hh Hwf.
  assert (Hstep : forall (x y : jsstring) (s t : Z),
             storage (run [(s, Remove x); (t, Remove y)] w)
             = <[RECENTS_KEY := stored (removed y (removed x l))]> (storage w)).
  { intros x y s t. cbn [run perform].
    rewrite (Store_facts.removeRecent_holds (set_clock s w) l) by assumption.
    cbn [snd].
    rewrite (Store_facts.removeRecent_holds _ (removed x l)).
    - simpl. apply insert_insert_eq.
    - left. simpl. apply lookup_insert_eq.
    - apply List_facts.Forall_filter. assumption. }
  split; [ | split ].
  - rewrite !Hstep, Compose_facts.removed_removed. reflexivity.
  - rewrite Hstep, Compose_facts.removed_twice. cbn [run perform].
    rewrite (Store_facts.removeRecent_holds (set_clock t1 w) l) by assumption.
    reflexivity.
  - left. rewrite Hstep, lookup_insert_eq. do 2 f_equal.
    unfold removed, other. clear. induction l as [ | r l IH ]; [ reflexivity | ].
    simpl. destruct (Js.eqb (symbol r) a); simpl; [ exact IH | ].
    destruct (Js.eqb (symbol r) b); simpl; [ exact IH | ].
    rewrite IH. reflexivity.
Qed.

Lemma removeRecent_commutes_witness :
  storage
    (run [(1%Z, Remove (js "AAPL")); (2%Z, Remove (js "MSFT"))]
       (world_with (stored [MSFT 1700000000002; AAPL 1700000000001])))
  = storage
      (run [(3%Z, Remove (js "MSFT")); (4%Z, Remove (js "AAPL"))]
         (world_with (stored [MSFT 1700000000002; AAPL 1700000000001]))).
Proof.
  destruct (removeRecent_commutes
              (world_with (stored [MSFT 1700000000002; AAPL 1700000000001]))
              [MSFT 1700000000002; AAPL 1700000000001]
              (js "AAPL") (js "MSFT") 1%Z 2%Z 3%Z 4%Z) as (H & _).
  - left. apply lookup_insert_eq.
  - repeat constructor; apply History_facts.time_value_example; reflexivity.
  - exact H.
Defined.
(** ** The recents store: what every history keeps *)

(** X5.  When the clock never goes back, the list in the store is
    ordered most recent first, after any upserts, removals and
    clearings run on an empty store. *)
Theorem recents_newest_first :
  forall (h : list (Z * action)) (w : World) (t0 : Z),
    storage w !! RECENTS_KEY = None -> timed h ->
    Order.chronological t0 h = true ->
    exists l : list RecentTicker,
      holds (run h w) l /\ well_formed l /\ Order.newest_first l = true.
Proof.
  intros h w t0 Hnone Hh Hc.
  destruct (Order_facts.ordered_run h t0 w Hh Hc) as (t' & l & Hl & Hwf & Hord & _).
  - exists []. split; [ apply History_facts.holds_empty; assumption | ].
    repeat split; constructor.
  - exists l. auto.
Qed.

Lemma recents_newest_first_witness :
  exists l : list RecentTicker,
    holds
      (run [(1700000000001%Z, Upsert false (js "AAPL") (js "Apple Inc."));
            (1700000000002%Z, Upsert true (js "MSFT") (js "Microsoft"));
            (1700000000002%Z, Remove (js "TSLA"));
            (1700000000005%Z, Upsert true (js "AAPL") (js "Apple"))]
         empty_world) l
    /\ well_formed l /\ Order.newest_first l = true.
Proof.
  apply (recents_newest_first _ empty_world 0%Z).
  - reflexivity.
  - repeat constructor; apply History_facts.time_value_example; reflexivity.
  - reflexivity.
Defined.

(** X6.  The store invents nothing: after any upserts, removals and
    clearings run on an empty store, every entry of the list is the
    symbol, the name and the time of one of the upserts. *)
Theorem recents_only_upserted :
  forall (h : list (Z * action)) (w : World),
    storage w !! RECENTS_KEY = None -> timed h ->
    exists l : list RecentTicker,
      holds (run h w) l /\ well_formed l
      /\ (forall e : RecentTicker, In e l -> In e (Order.upserts h)).
Proof.
  intros h w Hnone Hh.
  destruct (Order_facts.run_from h w [])
    as (l & Hl & Hwf & Hfrom);
    [ apply History_facts.holds_empty; assumption | constructor | assumption | ].
  exists l. split; [ exact Hl | ]. split; [ exact Hwf | ].
  intros e He. destruct (Hfrom e He) as [[] | Hin]. exact Hin.
Qed.

Lemma recents_only_upserted_witness :
  exists l : list RecentTicker,
    holds
      (run [(1700000000001%Z, Upsert false (js "AAPL") (js "Apple Inc."));
            (1700000000002%Z, Clear);
            (1700000000003%Z, Upsert true (js "MSFT") (js "Microsoft"))]
         empty_world) l
    /\ well_formed l
    /\ (forall e : RecentTicker,
           In e l -> In e [AAPL 1700000000001; MSFT 1700000000003]).
Proof.
  apply (recents_only_upserted
           [(1700000000001%Z, Upsert false (js "AAPL") (js "Apple Inc."));
            (1700000000002%Z, Clear);
            (1700000000003%Z, Upsert true (js "MSFT") (js "Microsoft"))]
           empty_world).
  - reflexivity.
  - repeat constructor; apply History_facts.time_value_example; reflexivity.
Defined.
(** ** The recents store: edge cases and frame *)

(** X7.  [removeRecent] on a store without the key, or with the empty
    string under it, creates the entry: it writes the text of the empty
    list, shows its toast and asks for a reload.  On a stored value
    that [JSON.parse] rejects it throws the SyntaxError and does
    nothing else: no write, no toast, no reload. *)
Theorem removeRecent_edge_cases :
  forall (w : World) (symbol : jsstring),
    (storage w !! RECENTS_KEY = None \/ storage w !! RECENTS_KEY = Some (js "") ->
     RecentStocks.removeRecent symbol w
     = (Ok tt,
        count_revalidation
          (log_toast (js "Removed " ++ symbol)
             (set_storage (insert RECENTS_KEY (js "[]")) w))))
    /\ (forall (text : jsstring) (e : exn),
           storage w !! RECENTS_KEY = Some text ->
           text <> js "" ->
           JSON.parse text = Throw e ->
           RecentStocks.removeRecent symbol w = (Throw SyntaxError, w)).
Proof.
  intros w symbol. split.
  - intros Hstored. unfold RecentStocks.removeRecent, bind at 1, LocalStorage.getItem.
    destruct Hstored as [-> | ->]; reflexivity.
  - intros text e Hsome Hne Hparse.
    apply Frame_facts.parse_throws in Hparse as He. subst e.
    unfold RecentStocks.removeRecent, bind at 1, LocalStorage.getItem.
    rewrite Hsome. unfold bind at 1, parse_stored.
    destruct text; [ contradiction | ].
    cbn [Api_format.is_empty]. unfold lift. rewrite Hparse. reflexivity.
Qed.

Lemma removeRecent_edge_cases_witness :
  storage (snd (RecentStocks.removeRecent (js "AAPL") empty_world)) !! RECENTS_KEY
  = Some (js "[]")
  /\ RecentStocks.removeRecent (js "AAPL") (world_with (js "[1,"))
     = (Throw SyntaxError, world_with (js "[1,")).
Proof.
  split.
  - rewrite (proj1 (removeRecent_edge_cases empty_world (js "AAPL")))
      by (left; reflexivity).
    reflexivity.
  - apply (proj2 (removeRecent_edge_cases (world_with (js "[1,")) (js "AAPL"))
             (js "[1,") SyntaxError).
    + apply lookup_insert_eq.
    + discriminate.
    + vm_compute. reflexivity.
Defined.

(** X8.  [clearRecents] always succeeds, whatever the store holds, also
    a text that is not JSON: it deletes the key and nothing else of the
    store, shows its toast and asks for a reload; the list read after
    it is empty, and no request is issued for it. *)
Theorem clearRecents_empties :
  forall (toUpperCase : jsstring -> jsstring) (w : World),
    exists w' : World,
      RecentStocks.clearRecents w = (Ok tt, w')
      /\ storage w' = delete RECENTS_KEY (storage w)
      /\ toasts w' = js "Cleared recent stocks" :: toasts w
      /\ revalidations w' = S (revalidations w)
      /\ holds w' []
      /\ RecentStocks.load toUpperCase w' = (Ok [], w').
Proof.
  intros toUpperCase w. eexists. split; [ reflexivity | ].
  split; [ reflexivity | ]. split; [ reflexivity | ]. split; [ reflexivity | ].
  split.
  - right. split; [ simpl; apply lookup_delete_eq | reflexivity ].
  - unfold RecentStocks.load, bind at 1, LocalStorage.getItem.
    cbn [storage count_revalidation log_toast set_storage].
    rewrite lookup_delete_eq. reflexivity.
Qed.

(** X9.  The store operations touch nothing but the recents key: the
    other keys of the store, the clock, the network and the logs of
    requests and of console lines are as before; an upsert shows no
    toast and asks for no reload; and an operation that throws leaves
    the whole world as it was. *)
Theorem store_operations_frame :
  forall (a : action) (w : World),
    (forall k : jsstring,
        k <> RECENTS_KEY ->
        storage (snd (perform a w)) !! k = storage w !! k)
    /\ clock (snd (perform a w)) = clock w
    /\ network (snd (perform a w)) = network w
    /\ requests (snd (perform a w)) = requests w
    /\ console (snd (perform a w)) = console w
    /\ (forall (quick : bool) (symbol name : jsstring),
           a = Upsert quick symbol name ->
           toasts (snd (perform a w)) = toasts w
           /\ revalidations (snd (perform a w)) = revalidations w)
    /\ (forall e : exn, fst (perform a w) = Throw e -> snd (perform a w) = w).
Proof.
  intros a w.
  destruct a as [quick sym nm | sym | ].
  - assert (H : perform (Upsert quick sym nm) w = ZacksRank.addToRecents sym nm w)
      by (destruct quick; reflexivity).
    rewrite H.
    destruct (Frame_facts.addToRecents_cases sym nm w) as [(e & ->) | (text & ->)];
      cbn [fst snd]; repeat split; try reflexivity; try discriminate.
    + intros k Hk. simpl. apply lookup_insert_ne. congruence.
  - cbn [perform].
    destruct (Frame_facts.removeRecent_cases sym w) as [(e & ->) | (text & ->)];
      cbn [fst snd]; repeat split; try reflexivity; try discriminate.
    intros k Hk. simpl. apply lookup_insert_ne. congruence.
  - cbn [perform]. repeat split; try reflexivity; try discriminate.
    intros k Hk. simpl. apply lookup_delete_ne. congruence.
Qed.

Lemma store_operations_frame_witness :
  storage (snd (perform (Upsert false (js "AAPL") (js "Apple Inc."))
                  (set_storage (insert (js "theme") (js "dark")) empty_world)))
  !! js "theme"
  = Some (js "dark").
Proof.
  rewrite (proj1 (store_operations_frame (Upsert false (js "AAPL") (js "Apple Inc."))
                    (set_storage (insert (js "theme") (js "dark")) empty_world))
             (js "theme")) by discriminate.
  apply lookup_insert_eq.
Defined.
(** ** The loader of the recents view *)

(** X10.  On a store that holds the list [l], the loader of the recents
    view returns one row for each entry, in the order of the list; each
    row carries its entry and what [getZacksData] returns for the
    symbol of the entry (the quote, or [null] when there is none or the
    request failed).  It reads the store without writing it, and issues
    at most one request for each entry. *)
Theorem load_rows :
  forall (toUpperCase : jsstring -> jsstring) (w : World)
         (l : list RecentTicker),
    holds w l -> well_formed l ->
    exists (rows : list RecentStocks.RecentWithData) (rs : list Request)
           (cs : list (jsstring * exn)),
      RecentStocks.load toUpperCase w = (Ok rows, Frame.logged rs cs w)
      /\ Forall2
           (fun e row =>
              RecentStocks.recent row = to_value e
              /\ fst (Api.getZacksData toUpperCase (VString (symbol e)) w)
                 = Ok (RecentStocks.zacksData row))
           l rows
      /\ (List.length rs <= List.length l)%nat.
Proof.
  intros toUpperCase w l Hh Hwf.
  destruct (Load_facts.load_holds toUpperCase w l Hh Hwf)
    as (rows & rs & cs & Hload & Hrows & Hrs).
  exists rows, rs, cs. split; [ exact Hload | ].
  split; [ exact Hrows | exact Hrs ].
Qed.

Lemma load_rows_witness :
  exists (rows : list RecentStocks.RecentWithData) (rs : list Request)
         (cs : list (jsstring * exn)),
    RecentStocks.load ascii_toUpperCase
      (world_with (stored [MSFT 1700000000002; AAPL 1700000000001]))
    = (Ok rows,
       Frame.logged rs cs
         (world_with (stored [MSFT 1700000000002; AAPL 1700000000001])))
    /\ Forall2
         (fun e row =>
            RecentStocks.recent row = to_value e
            /\ fst (Api.getZacksData ascii_toUpperCase (VString (symbol e))
                      (world_with (stored [MSFT 1700000000002; AAPL 1700000000001])))
               = Ok (RecentStocks.zacksData row))
         [MSFT 1700000000002; AAPL 1700000000001] rows
    /\ (List.length rs <= 2)%nat.
Proof.
  apply (load_rows ascii_toUpperCase
           (world_with (stored [MSFT 1700000000002; AAPL 1700000000001]))
           [MSFT 1700000000002; AAPL 1700000000001]).
  - left. apply lookup_insert_eq.
  - repeat constructor; apply History_facts.time_value_example; reflexivity.
Defined.

(** X11.  Whatever JSON array the store holds, also one whose elements
    are not entries (a [null], a number, an object without a symbol),
    the loader does not throw: it returns one row for each element, in
    order.  A stored [null], boolean or number is a TypeError, and the
    world is then as it was. *)
Theorem load_any_array :
  forall (toUpperCase : jsstring -> jsstring) (w : World) (text : jsstring)
         (v : value),
    storage w !! RECENTS_KEY = Some text ->
    text <> js "" ->
    JSON.parse text = Ok v ->
    (forall vs : list value,
        v = VArray vs ->
        exists (rows : list RecentStocks.RecentWithData) (rs : list Request)
               (cs : list (jsstring * exn)),
          RecentStocks.load toUpperCase w = (Ok rows, Frame.logged rs cs w)
          /\ List.map RecentStocks.recent rows = vs
          /\ (List.length rs <= List.length vs)%nat)
    /\ (v = VNull \/ (exists b, v = VBool b) \/ (exists x, v = VNumber x) ->
        RecentStocks.load toUpperCase w = (Throw TypeError, w)).
Proof.
  intros toUpperCase w text v Hsome Hne Hparse.
  assert (Hread : (let* stored := LocalStorage.getItem RECENTS_KEY in
                   parse_stored stored) w = (Ok v, w)).
  { unfold bind, LocalStorage.getItem. rewrite Hsome. unfold parse_stored.
    destruct text as [ | c text ]; [ contradiction | ].
    cbn [Api_format.is_empty]. unfold lift. rewrite Hparse. reflexivity. }
  unfold RecentStocks.load. rewrite <- Store_facts.bind_assoc.
  rewrite (Store_facts.bind_eq _ _ _ _ _ Hread).
  split.
  - intros vs ->. destruct vs as [ | v vs ].
    + exists [], [], []. rewrite Client_frame.logged_nil.
      split; [ reflexivity | ]. split; [ reflexivity | simpl; lia ].
    + unfold bind at 1, lift at 1. cbn [Value.get].
      change (Value.array_index (js "length")) with (@None N).
      change (Js.eqb (js "length") (js "length")) with true. cbv iota.
      rewrite Load_facts.length_not_zero.
      unfold bind at 1, lift at 1.
      apply (Load_facts.rows_of_values toUpperCase (v :: vs) w).
  - intros [-> | [(b & ->) | (x & ->)]]; reflexivity.
Qed.

Lemma load_any_array_witness :
  exists (rows : list RecentStocks.RecentWithData) (rs : list Request)
         (cs : list (jsstring * exn)),
    RecentStocks.load ascii_toUpperCase (world_with (js "[null,7]"))
    = (Ok rows, Frame.logged rs cs (world_with (js "[null,7]")))
    /\ List.map RecentStocks.recent rows
       = [VNull; VNumber (Float64.of_Z 7)]
    /\ (List.length rs <= 2)%nat.
Proof.
  destruct (load_any_array ascii_toUpperCase (world_with (js "[null,7]"))
              (js "[null,7]") (VArray [VNull; VNumber (Float64.of_Z 7)]))
    as (H & _).
  - apply lookup_insert_eq.
  - discriminate.
  - vm_compute. reflexivity.
  - apply H. reflexivity.
Defined.



(** X13.  What the store operations write, the readers read back: the
    text of a list of entries, whatever the characters of its symbols
    and names (quotes, backslashes, control characters, surrogates),
    parses to that list, and two lists with the same text are the same
    list. *)
Theorem stored_round_trip :
  forall l : list RecentTicker,
    well_formed l ->
    JSON.parse (stored l) = Ok (VArray (List.map to_value l))
    /\ (forall l' : list RecentTicker,
           well_formed l' -> stored l = stored l' -> l = l').
Proof.
  intros l Hwf. split.
  - apply Roundtrip.parse_stored_list. exact Hwf.
  - intros l' Hwf' E. apply Roundtrip.stored_inj; assumption.
Qed.

Lemma stored_round_trip_witness :
  JSON.parse
    (stored [ {| symbol := JSON.quote (js "A") ++ [92; 10; 55357];
                 name := [0; 34; 8232]; timestamp := 1700000000000 |} ])
  = Ok (VArray
          [to_value {| symbol := JSON.quote (js "A") ++ [92; 10; 55357];
                       name := [0; 34; 8232]; timestamp := 1700000000000 |}]).
Proof.
  destruct (stored_round_trip
              [ {| symbol := JSON.quote (js "A") ++ [92; 10; 55357];
                   name := [0; 34; 8232]; timestamp := 1700000000000 |} ])
    as (H & _).
  - repeat constructor; apply History_facts.time_value_example; reflexivity.
  - exact H.
Defined.

(** X14.  The stock just looked up is at the top of the recents view:
    after an upsert on a store that holds a list, the loader returns
    the row of the new entry first, and no other row has its symbol. *)
Theorem load_after_addToRecents :
  forall (toUpperCase : jsstring -> jsstring) (quick : bool) (w : World)
         (l : list RecentTicker) (symbol name : jsstring),
    holds w l -> well_formed l -> time_value (clock w) ->
    exists (row : RecentStocks.RecentWithData)
           (rows : list RecentStocks.RecentWithData)
           (rs : list Request) (cs : list (jsstring * exn)),
      RecentStocks.load toUpperCase (snd (perform (Upsert quick symbol name) w))
      = (Ok (row :: rows),
         Frame.logged rs cs (snd (perform (Upsert quick symbol name) w)))
      /\ RecentStocks.recent row
         = recent_entry symbol name (Float64.of_Z (clock w))
      /\ Forall
           (fun r =>
              Value.get (RecentStocks.recent r) (js "symbol")
              <> Ok (VString symbol))
           rows.
Proof.
  intros toUpperCase quick w l symbol name Hh Hwf Ht.
  assert (H : perform (Upsert quick symbol name) w
              = ZacksRank.addToRecents symbol name w)
    by (destruct quick; reflexivity).
  rewrite H, (Store_facts.addToRecents_holds w l) by assumption.
  cbn [snd].
  destruct (Load_facts.load_holds toUpperCase
              (set_storage
                 (insert RECENTS_KEY (stored (upserted symbol name (clock w) l))) w)
              (upserted symbol name (clock w) l))
    as (rows & rs & cs & Hload & Hrows & _).
  - apply History_facts.holds_written.
  - apply List_facts.upserted_well_formed; assumption.
  - pose proof (Load_facts.rows_recent _ _ _ _ Hrows) as Hmap.
    rewrite Compose_facts.upserted_cons in Hmap.
    destruct rows as [ | row rows ]; [ discriminate | ].
    cbn [List.map] in Hmap.
    pose proof (f_equal (List.hd VNull) Hmap) as Hhead.
    pose proof (f_equal (@List.tl value) Hmap) as Htail.
    cbn [List.hd List.tl] in Hhead, Htail.
    exists row, rows, rs, cs. split; [ exact Hload | ].
    split; [ exact Hhead | ].
    apply (Load_facts.rows_without symbol (firstn 9 (removed symbol l)));
      [ exact Htail | ].
    intros Hin. unfold symbols in Hin. rewrite <- firstn_map in Hin.
    apply List_facts.In_firstn in Hin.
    exact (Compose_facts.not_In_removed symbol l Hin).
Qed.

Lemma load_after_addToRecents_witness :
  exists (row : RecentStocks.RecentWithData)
         (rows : list RecentStocks.RecentWithData)
         (rs : list Request) (cs : list (jsstring * exn)),
    RecentStocks.load ascii_toUpperCase
      (snd (perform (Upsert true (js "AAPL") (js "Apple Inc."))
              (world_with (stored [MSFT 1700000000000; AAPL 1600000000000]))))
    = (Ok (row :: rows),
       Frame.logged rs cs
         (snd (perform (Upsert true (js "AAPL") (js "Apple Inc."))
                 (world_with (stored [MSFT 1700000000000; AAPL 1600000000000])))))
    /\ RecentStocks.recent row
       = recent_entry (js "AAPL") (js "Apple Inc.") (Float64.of_Z 1700000000000)
    /\ Forall
         (fun r =>
            Value.get (RecentStocks.recent r) (js "symbol")
            <> Ok (VString (js "AAPL")))
         rows.
Proof.
  apply (load_after_addToRecents ascii_toUpperCase true
           (world_with (stored [MSFT 1700000000000; AAPL 1600000000000]))
           [MSFT 1700000000000; AAPL 1600000000000]).
  - left. apply lookup_insert_eq.
  - repeat constructor; apply History_facts.time_value_example; reflexivity.
  - apply History_facts.time_value_example. reflexivity.
Defined.

(** X15.  A removed stock is gone from the recents view: after
    [removeRecent] on a store that holds a list, the loader returns the
    rows of the entries with another symbol, in their order, and none
    with the symbol removed. *)
Theorem load_after_removeRecent :
  forall (toUpperCase : jsstring -> jsstring) (w : World)
         (l : list RecentTicker) (symbol : jsstring),
    holds w l -> well_formed l ->
    exists (rows : list RecentStocks.RecentWithData)
           (rs : list Request) (cs : list (jsstring * exn)),
      RecentStocks.load toUpperCase (snd (RecentStocks.removeRecent symbol w))
      = (Ok rows, Frame.logged rs cs (snd (RecentStocks.removeRecent symbol w)))
      /\ List.map RecentStocks.recent rows
         = List.map to_value
             (List.filter (fun r => negb (Js.eqb (Recents.symbol r) symbol)) l)
      /\ Forall
           (fun r =>
              Value.get (RecentStocks.recent r) (js "symbol")
              <> Ok (VString symbol))
           rows.
Proof.
  intros toUpperCase w l symbol Hh Hwf.
  rewrite (Store_facts.removeRecent_holds w l) by assumption. cbn [snd].
  match goal with
  | |- context [RecentStocks.load toUpperCase ?w'] =>
      destruct (Load_facts.load_holds toUpperCase w' (removed symbol l))
        as (rows & rs & cs & Hload & Hrows & _)
  end.
  - left. simpl. apply lookup_insert_eq.
  - apply List_facts.Forall_filter. assumption.
  - pose proof (Load_facts.rows_recent _ _ _ _ Hrows) as Hmap.
    exists rows, rs, cs. split; [ exact Hload | ]. split; [ exact Hmap | ].
    apply (Load_facts.rows_without symbol (removed symbol l)); [ exact Hmap | ].
    apply Compose_facts.not_In_removed.
Qed.

Lemma load_after_removeRecent_witness :
  exists (rows : list RecentStocks.RecentWithData)
         (rs : list Request) (cs : list (jsstring * exn)),
    RecentStocks.load ascii_toUpperCase
      (snd (RecentStocks.removeRecent (js "AAPL")
              (world_with (stored [MSFT 1700000000000; AAPL 1600000000000]))))
    = (Ok rows,
       Frame.logged rs cs
         (snd (RecentStocks.removeRecent (js "AAPL")
                 (world_with (stored [MSFT 1700000000000; AAPL 1600000000000])))))
    /\ List.map RecentStocks.recent rows
       = List.map to_value
           (List.filter (fun r => negb (Js.eqb (Recents.symbol r) (js "AAPL")))
              [MSFT 1700000000000; AAPL 1600000000000])
    /\ Forall
         (fun r =>
            Value.get (RecentStocks.recent r) (js "symbol")
            <> Ok (VString (js "AAPL")))
         rows.
Proof.
  apply (load_after_removeRecent ascii_toUpperCase
           (world_with (stored [MSFT 1700000000000; AAPL 1600000000000]))
           [MSFT 1700000000000; AAPL 1600000000000]).
  - left. apply lookup_insert_eq.
  - repeat constructor; apply History_facts.time_value_example; reflexivity.
Defined.

(** X16.  The loader requests the quote of every stored entry, for its
    symbol in upper case, and issues the requests in the order of the
    list (the log of requests has the latest first). *)
Theorem load_requests :
  forall (toUpperCase : jsstring -> jsstring) (w : World)
         (l : list RecentTicker) (ts : list jsstring),
    holds w l -> well_formed l ->
    Forall2
      (fun e t => URI.encodeURIComponent (toUpperCase (symbol e)) = Ok t) l ts ->
    requests (snd (RecentStocks.load toUpperCase w))
    = rev (List.map Requests.quote ts) ++ requests w.
Proof.
  intros toUpperCase w l ts Hh Hwf Henc.
  apply (Load_facts.load_requests_holds toUpperCase w l ts); assumption.
Qed.

Lemma load_requests_witness :
  requests
    (snd (RecentStocks.load ascii_toUpperCase
            (world_with (stored [MSFT 1700000000002;
                                 {| symbol := js "brk.b"; name := js "Berkshire";
                                    timestamp := 1700000000001 |}]))))
  = [Requests.quote (js "BRK.B"); Requests.quote (js "MSFT")].
Proof.
  apply (load_requests ascii_toUpperCase
           (world_with (stored [MSFT 1700000000002;
                                {| symbol := js "brk.b"; name := js "Berkshire";
                                   timestamp := 1700000000001 |}]))
           [MSFT 1700000000002;
            {| symbol := js "brk.b"; name := js "Berkshire";
               timestamp := 1700000000001 |}]
           [js "MSFT"; js "BRK.B"]).
  - left. apply lookup_insert_eq.
  - repeat constructor; apply History_facts.time_value_example; reflexivity.
  - repeat constructor.
Defined.
(** ** The clients: requests, logs and unexpected responses *)

(** X17.  The two clients change nothing of the world but its logs:
    whatever the query, the ticker and the answer of the network, the
    store, the clock, the toasts and the reload count are as before, at
    most one request is issued and at most one console line written. *)
Theorem clients_log_only :
  forall (toUpperCase : jsstring -> jsstring) (query : jsstring)
         (ticker : value) (w : World),
    (exists (rs : list Request) (cs : list (jsstring * exn)),
        (List.length rs <= 1)%nat /\ (List.length cs <= 1)%nat
        /\ snd (Api.searchTickers query w) = Frame.logged rs cs w)
    /\ (exists (rs : list Request) (cs : list (jsstring * exn)),
           (List.length rs <= 1)%nat /\ (List.length cs <= 1)%nat
           /\ snd (Api.getZacksData toUpperCase ticker w) = Frame.logged rs cs w).
Proof.
  intros toUpperCase query ticker w. split.
  - apply Client_frame.searchTickers_world.
  - apply Client_frame.getZacksData_world.
Qed.

(** X18.  For a query that is not empty, [searchTickers] issues the one
    request of the search URL with the encoded query and the
    User-Agent header.  The encoded query holds none of the characters
    [&], [=], [?], [#], [/], [+] and no space, so that the query cannot
    add or change a parameter of the URL; a query of letters, digits
    and [-_.!~*'()] is sent as it is.  A query that cannot be encoded
    (a lone surrogate) issues no request and gives no results. *)
Theorem searchTickers_request :
  forall (query : jsstring) (w : World),
    query <> [] ->
    (forall q : jsstring,
        URI.encodeURIComponent query = Ok q ->
        requests (snd (Api.searchTickers query w))
        = {| url := Api.YAHOO_SEARCH_BASE ++ js "?q=" ++ q
                    ++ js "&quotesCount=10&newsCount=0&listsCount=0";
             headers := [(js "User-Agent",
                          js "Mozilla/5.0 (Macintosh; Intel Mac OS X 10_15_7)")] |}
          :: requests w
        /\ forallb Frame.inert q = true)
    /\ (forallb URI.is_unreserved query = true ->
        URI.encodeURIComponent query = Ok query)
    /\ (forall e : exn,
           URI.encodeURIComponent query = Throw e ->
           Api.searchTickers query w
           = (Ok [], log_console (js "Ticker search error:", e) w)).
Proof.
  intros query w Hne. split; [ | split ].
  - intros q Henc. split; [ | apply (Response_facts.encodeURIComponent_inert query q Henc) ].
    fold (Requests.search q).
    destruct (network w (Requests.search q)) as [ | r ] eqn:Hnet.
    + unfold Api.searchTickers.
      rewrite Client_facts.nonempty_query by assumption.
      unfold try_catch, bind at 1, lift at 1. rewrite Henc.
      unfold bind at 1, fetch. fold (Requests.search q). rewrite Hnet.
      reflexivity.
    + rewrite (Client_facts.searchTickers_answered query q w r) by assumption.
      unfold try_catch.
      destruct (negb (ok r)); [ reflexivity | ].
      match goal with
      | |- context [match ?m with _ => _ end] => destruct m as [[a | e] w'] eqn:E
      end.
      * assert (Hw' : w' = log_request (Requests.search q) w).
        { revert E. unfold bind at 1, json, lift at 1.
          destruct (JSON.parse (body r)); [ | discriminate ].
          unfold bind at 1, lift at 1.
          destruct (Value.get _ _); [ | discriminate ].
          unfold bind at 1, lift at 1.
          destruct (Value.filter _ _); [ | discriminate ].
          unfold lift. congruence. }
        subst w'. reflexivity.
      * assert (Hw' : w' = log_request (Requests.search q) w).
        { revert E. unfold bind at 1, json, lift at 1.
          destruct (JSON.parse (body r)); [ | congruence ].
          unfold bind at 1, lift at 1.
          destruct (Value.get _ _); [ | congruence ].
          unfold bind at 1, lift at 1.
          destruct (Value.filter _ _); [ | congruence ].
          unfold lift. congruence. }
        subst w'. reflexivity.
  - apply Response_facts.encodeURIComponent_unreserved.
  - intros e Henc. unfold Api.searchTickers.
    rewrite Client_facts.nonempty_query by assumption.
    unfold try_catch, bind at 1, lift at 1. rewrite Henc. reflexivity.
Qed.

Lemma searchTickers_request_witness :
  requests (snd (Api.searchTickers (js "a&b=c d") empty_world))
  = [ {| url := Api.YAHOO_SEARCH_BASE ++ js "?q=a%26b%3Dc%20d"
                ++ js "&quotesCount=10&newsCount=0&listsCount=0";
         headers := [(js "User-Agent",
                      js "Mozilla/5.0 (Macintosh; Intel Mac OS X 10_15_7)")] |} ].
Proof.
  destruct (searchTickers_request (js "a&b=c d") empty_world) as (H & _).
  - discriminate.
  - apply (H (js "a%26b%3Dc%20d")). reflexivity.
Defined.

(** X19.  [getZacksData] tells a failure from a ticker that is not in
    the response by its console line only: a failed request, a status
    that is not 2xx (the line carries the status) and a body that is
    not JSON each write the line [Zacks API error:] with the error,
    while an object response, with the ticker or without it, writes
    none. *)
Theorem getZacksData_logs_failures :
  forall (toUpperCase : jsstring -> jsstring) (ticker t : jsstring) (w : World),
    URI.encodeURIComponent (toUpperCase ticker) = Ok t ->
    (network w (Requests.quote t) = NetworkError ->
     console (snd (Api.getZacksData toUpperCase (VString ticker) w))
     = (js "Zacks API error:", NetworkFailure) :: console w)
    /\ (forall r : Response,
           network w (Requests.quote t) = Responded r ->
           ok r = false ->
           console (snd (Api.getZacksData toUpperCase (VString ticker) w))
           = (js "Zacks API error:",
              Error (js "Zacks API failed: " ++ Js.digits_of_N (status r)))
             :: console w)
    /\ (forall (r : Response) (e : exn),
           network w (Requests.quote t) = Responded r ->
           ok r = true ->
           JSON.parse (body r) = Throw e ->
           console (snd (Api.getZacksData toUpperCase (VString ticker) w))
           = (js "Zacks API error:", SyntaxError) :: console w)
    /\ (forall (r : Response) (props : list (jsstring * value)),
           network w (Requests.quote t) = Responded r ->
           ok r = true ->
           JSON.parse (body r) = Ok (VObject props) ->
           console (snd (Api.getZacksData toUpperCase (VString ticker) w))
           = console w).
Proof.
  intros toUpperCase ticker t w Henc.
  split; [ | split; [ | split ] ].
  - intros Hnet. unfold Api.getZacksData.
    unfold try_catch, bind at 1, lift at 1, Api.upper at 1.
    unfold bind at 1, lift at 1. rewrite Henc.
    unfold bind at 1, fetch. fold (Requests.quote t). rewrite Hnet.
    reflexivity.
  - intros r Hnet Hok.
    rewrite (Client_facts.getZacksData_answered toUpperCase ticker t w r)
      by assumption.
    unfold try_catch. rewrite Hok. reflexivity.
  - intros r e Hnet Hok Hparse.
    apply Frame_facts.parse_throws in Hparse as He. subst e.
    rewrite (Client_facts.getZacksData_answered toUpperCase ticker t w r)
      by assumption.
    unfold try_catch. rewrite Hok. cbn [negb].
    unfold bind at 1, json, lift at 1. rewrite Hparse. reflexivity.
  - intros r props Hnet Hok Hparse.
    rewrite (Client_facts.getZacksData_answered toUpperCase ticker t w r)
      by assumption.
    unfold try_catch. rewrite Hok. cbn [negb].
    unfold bind at 1, json, lift at 1. rewrite Hparse.
    unfold bind at 1, lift at 1. cbn [Value.get].
    destruct (Value.lookup (toUpperCase ticker) props); reflexivity.
Qed.

Lemma getZacksData_logs_failures_witness :
  console (snd (Api.getZacksData ascii_toUpperCase (VString (js "aapl"))
                  (world_answering
                     (Requests.always {| status := 503; body := js "" |}))))
  = [(js "Zacks API error:", Error (js "Zacks API failed: 503"))].
Proof.
  destruct (getZacksData_logs_failures ascii_toUpperCase (js "aapl") (js "AAPL")
              (world_answering (Requests.always {| status := 503; body := js "" |})))
    as (_ & H & _).
  - reflexivity.
  - apply (H {| status := 503; body := js "" |}); reflexivity.
Defined.

(** X20.  A response that parses but is not a search response gives no
    results and the console line of a TypeError: when [quotes] is
    missing or is not an array, and also when one element of [quotes]
    is [null], which loses the other quotes of the response with it. *)
Theorem searchTickers_malformed_response :
  forall (query q : jsstring) (w : World) (r : Response) (data : value),
    query <> [] ->
    URI.encodeURIComponent query = Ok q ->
    network w (Requests.search q) = Responded r ->
    ok r = true ->
    JSON.parse (body r) = Ok data ->
    ((forall vs : list value, Value.get data (js "quotes") <> Ok (VArray vs)) ->
     Api.searchTickers query w
     = (Ok [],
        log_console (js "Ticker search error:", TypeError)
          (log_request (Requests.search q) w)))
    /\ (forall vs : list value,
           Value.get data (js "quotes") = Ok (VArray vs) ->
           In VNull vs ->
           Api.searchTickers query w
           = (Ok [],
              log_console (js "Ticker search error:", TypeError)
                (log_request (Requests.search q) w))).
Proof.
  intros query q w r data Hne Henc Hnet Hok Hparse.
  rewrite (Client_facts.searchTickers_answered query q w r) by assumption.
  unfold try_catch. rewrite Hok. cbn [negb].
  unfold bind, json, lift. rewrite Hparse.
  split.
  - intros Hnot.
    destruct (Value.get data (js "quotes")) as [quotes | e] eqn:Hget.
    + destruct quotes; try reflexivity.
      exfalso. eapply Hnot. reflexivity.
    + destruct data; cbn [Value.get] in Hget;
        repeat match type of Hget with
               | context [match ?x with _ => _ end] => destruct x
               end; try discriminate; injection Hget as <-; reflexivity.
  - intros vs Hget Hin. rewrite Hget. cbn [Value.filter].
    rewrite Response_facts.filter_outcome_throws by (left; exact Hin).
    reflexivity.
Qed.

Lemma searchTickers_malformed_response_witness :
  Api.searchTickers (js "acme")
    (world_answering
       (Requests.always
          {| status := 200;
             body := JSON.serialize_element
                       (VObject [(js "quotes",
                                  VArray [Yahoo.to_value unnamed_quote; VNull])]) |}))
  = (Ok [],
     log_console (js "Ticker search error:", TypeError)
       (log_request (Requests.search (js "acme"))
          (world_answering
             (Requests.always
                {| status := 200;
                   body := JSON.serialize_element
                             (VObject [(js "quotes",
                                        VArray [Yahoo.to_value unnamed_quote;
                                                VNull])]) |})))).
Proof.
  destruct (searchTickers_malformed_response (js "acme") (js "acme")
              (world_answering
                 (Requests.always
                    {| status := 200;
                       body := JSON.serialize_element
                                 (VObject [(js "quotes",
                                            VArray [Yahoo.to_value unnamed_quote;
                                                    VNull])]) |}))
              {| status := 200;
                 body := JSON.serialize_element
                           (VObject [(js "quotes",
                                      VArray [Yahoo.to_value unnamed_quote;
                                              VNull])]) |}
              (VObject [(js "quotes", VArray [Yahoo.to_value unnamed_quote; VNull])]))
    as (_ & H).
  - discriminate.
  - reflexivity.
  - reflexivity.
  - reflexivity.
  - vm_compute. reflexivity.
  - apply (H [Yahoo.to_value unnamed_quote; VNull]).
    + reflexivity.
    + right. left. reflexivity.
Defined.
(** ** The recents view: how long ago *)

(** X21.  For a timestamp and a clock that are whole numbers of
    milliseconds since the epoch, [formatTimeAgo] reads the clock and
    nothing else, and gives ["just now"] when less than a minute has
    gone by (also for a timestamp ahead of the clock), else the whole
    minutes gone by when they are less than an hour, else the whole
    hours when they are less than a day, else the whole days: the
    divisions and [Math.floor] on numbers come to the integer
    divisions of the elapsed milliseconds. *)
Theorem formatTimeAgo_buckets :
  forall (w : World) (t : Z),
    (0 <= t <= 8640000000000000)%Z ->
    (0 <= clock w <= 8640000000000000)%Z ->
    exists text : jsstring,
      RecentsView.formatTimeAgo (Float64.of_Z t) w = (Ok text, w)
      /\ ((clock w - t < 60000)%Z -> text = js "just now")
      /\ ((60000 <= clock w - t < 3600000)%Z ->
          text = Js.digits_of_N (Z.to_N ((clock w - t) / 60000)) ++ js "m ago")
      /\ ((3600000 <= clock w - t < 86400000)%Z ->
          text = Js.digits_of_N (Z.to_N ((clock w - t) / 3600000)) ++ js "h ago")
      /\ ((86400000 <= clock w - t)%Z ->
          text = Js.digits_of_N (Z.to_N ((clock w - t) / 86400000)) ++ js "d ago").
Proof.
  intros w t Ht Hc. exists (RecentsView.time_ago (clock w - t)).
  split; [ apply Number_facts.formatTimeAgo_time_ago; assumption | ].
  unfold RecentsView.time_ago.
  destruct (Z.ltb_spec (clock w - t) 60000);
    destruct (Z.ltb_spec (clock w - t) 3600000);
    destruct (Z.ltb_spec (clock w - t) 86400000);
    repeat split; intros; try reflexivity; lia.
Qed.

Lemma formatTimeAgo_buckets_witness :
  exists text : jsstring,
    RecentsView.formatTimeAgo (Float64.of_Z 1699990000000) empty_world
    = (Ok text, empty_world)
    /\ text = js "2h ago".
Proof.
  destruct (formatTimeAgo_buckets empty_world 1699990000000%Z)
    as (text & Hrun & _ & _ & Hhours & _).
  - simpl. lia.
  - simpl. lia.
  - exists text. split; [ exact Hrun | ].
    rewrite Hhours by (simpl; lia). reflexivity.
Defined.
(** ** The formatters *)

(** X22.  A value that reads as a finite number of magnitude below
    [10^21] is printed with exactly two decimals: [formatCurrency]
    gives [$], a minus sign for a number below zero, one digit or more,
    a point and two digits; [formatPercent] gives the same digits
    between a sign, which is [+] for zero and above and [-] below zero
    (also for a number that rounds to [0.00]), and [%]. *)
Theorem formatters_two_decimals :
  forall value : jsstring,
    missing value = false ->
    Number.fixed_range (parseFloat value) = true ->
    exists (int : jsstring) (d1 d2 : N),
      int <> []
      /\ forallb Js.is_digit (int ++ [d1; d2]) = true
      /\ formatCurrency value
         = js "$" ++ (if Float64.lt_zero (parseFloat value) then js "-" else [])
             ++ int ++ [46; d1; d2]
      /\ formatPercent value
         = (if Float64.ge_zero (parseFloat value) then js "+" else js "-")
             ++ int ++ [46; d1; d2] ++ js "%".
Proof.
  intros value Hmissing Hrange.
  destruct (Format_facts.toFixed_2_shape _ Hrange) as (int & d1 & d2 & Hfix & Hne & Hall).
  exists int, d1, d2. split; [ exact Hne | ]. split; [ exact Hall | ].
  unfold formatCurrency, formatPercent. rewrite Hmissing, Hfix.
  destruct (parseFloat value) as [ | neg | neg m e ]; try discriminate.
  cbn [Float64.isNaN Float64.ge_zero Float64.lt_zero].
  split; [ reflexivity | ].
  destruct neg, (m =? 0); cbn [negb andb orb app];
    rewrite <- ?app_assoc; reflexivity.
Qed.

Lemma formatters_two_decimals_witness :
  exists (int : jsstring) (d1 d2 : N),
    int <> []
    /\ forallb Js.is_digit (int ++ [d1; d2]) = true
    /\ formatCurrency (js "-0.001")
       = js "$" ++ (if Float64.lt_zero (parseFloat (js "-0.001")) then js "-" else [])
           ++ int ++ [46; d1; d2]
    /\ formatPercent (js "-0.001")
       = (if Float64.ge_zero (parseFloat (js "-0.001")) then js "+" else js "-")
           ++ int ++ [46; d1; d2] ++ js "%".
Proof.
  apply (formatters_two_decimals (js "-0.001")).
  - reflexivity.
  - vm_compute. reflexivity.
Defined.

(** X23.  [formatNumber] and [formatCurrency] are idempotent: what they
    return, they return unchanged when applied to it again.  None of
    the three formatters returns the empty string. *)
Theorem formatters_idempotent :
  forall value : jsstring,
    formatNumber (formatNumber value) = formatNumber value
    /\ formatCurrency (formatCurrency value) = formatCurrency value
    /\ formatNumber value <> []
    /\ formatCurrency value <> []
    /\ formatPercent value <> [].
Proof.
  intros value.
  assert (Hdollar : forall r, formatCurrency (36 :: r) = 36 :: r).
  { intros r. unfold formatCurrency.
    assert (Hm : missing (36 :: r) = false).
    { unfold missing, Api_format.is_empty. cbn [orb].
      apply orb_false_iff. split; apply Js_facts.eqb_neq; discriminate. }
    rewrite Hm, ParseFloat_facts.parseFloat_NaN. reflexivity. }
  unfold formatNumber, formatCurrency, formatPercent.
  destruct (missing value) eqn:Hm.
  - repeat split; try reflexivity; discriminate.
  - rewrite Hm.
    assert (Hne : value <> []) by (intros ->; discriminate).
    destruct (Float64.isNaN (parseFloat value)) eqn:Hnan.
    + fold (formatCurrency value). unfold formatCurrency. rewrite Hm, Hnan.
      repeat split; try reflexivity; assumption.
    + fold (formatCurrency (js "$" ++ Float64.toFixed (parseFloat value) 2)).
      split; [ reflexivity | ]. split; [ apply Hdollar | ].
      split; [ assumption | ]. split; [ discriminate | ].
      destruct (Float64.ge_zero (parseFloat value)); [ discriminate | ].
      change (js "" ++ Float64.toFixed (parseFloat value) 2 ++ js "%")
        with (Float64.toFixed (parseFloat value) 2 ++ js "%").
      intros E. apply app_eq_nil in E as [_ E]. discriminate.
Qed.

(** X24.  The rank colour and the rank emoji fall back together: the
    colour is the gray one exactly for the ranks other than ["1"] to
    ["5"], for which the emoji is the white circle; and the five ranks
    have five different colours. *)
Theorem rank_colour_and_emoji :
  forall rank : jsstring,
    (getZacksRankColor rank = js "#9E9E9E"
     <-> ~ In rank [js "1"; js "2"; js "3"; js "4"; js "5"])
    /\ (ZacksRankView.getRankEmoji rank = [9898]
        <-> ~ In rank [js "1"; js "2"; js "3"; js "4"; js "5"])
    /\ (forall other : jsstring,
           In rank [js "1"; js "2"; js "3"; js "4"; js "5"] ->
           getZacksRankColor other = getZacksRankColor rank -> other = rank).
Proof.
  intros rank.
  assert (Hcases : In rank [js "1"; js "2"; js "3"; js "4"; js "5"]
                   \/ (Js.eqb rank (js "1") = false /\ Js.eqb rank (js "2") = false
                       /\ Js.eqb rank (js "3") = false /\ Js.eqb rank (js "4") = false
                       /\ Js.eqb rank (js "5") = false)).
  { destruct (Js.eqb rank (js "1")) eqn:E1;
      [ apply Js_facts.eqb_eq in E1; subst; left; simpl; auto | ].
    destruct (Js.eqb rank (js "2")) eqn:E2;
      [ apply Js_facts.eqb_eq in E2; subst; left; simpl; auto | ].
    destruct (Js.eqb rank (js "3")) eqn:E3;
      [ apply Js_facts.eqb_eq in E3; subst; left; simpl; auto | ].
    destruct (Js.eqb rank (js "4")) eqn:E4;
      [ apply Js_facts.eqb_eq in E4; subst; left; simpl; auto 6 | ].
    destruct (Js.eqb rank (js "5")) eqn:E5;
      [ apply Js_facts.eqb_eq in E5; subst; left; simpl; auto 6 | ].
    right. auto. }
  assert (Hnot : Js.eqb rank (js "1") = false /\ Js.eqb rank (js "2") = false
                 /\ Js.eqb rank (js "3") = false /\ Js.eqb rank (js "4") = false
                 /\ Js.eqb rank (js "5") = false ->
                 ~ In rank [js "1"; js "2"; js "3"; js "4"; js "5"]).
  { intros (E1 & E2 & E3 & E4 & E5) Hin. simpl in Hin.
    destruct Hin as [<- | [<- | [<- | [<- | [<- | []]]]]]; discriminate. }
  split; [ | split ].
  - destruct Hcases as [Hin | Hout].
    + split; [ | contradiction ].
      simpl in Hin.
      destruct Hin as [<- | [<- | [<- | [<- | [<- | []]]]]]; discriminate.
    + split; [ intros _; apply Hnot; exact Hout | intros _ ].
      destruct Hout as (E1 & E2 & E3 & E4 & E5).
      unfold getZacksRankColor. rewrite E1, E2, E3, E4, E5. reflexivity.
  - destruct Hcases as [Hin | Hout].
    + split; [ | contradiction ].
      simpl in Hin.
      destruct Hin as [<- | [<- | [<- | [<- | [<- | []]]]]]; discriminate.
    + split; [ intros _; apply Hnot; exact Hout | intros _ ].
      destruct Hout as (E1 & E2 & E3 & E4 & E5).
      unfold ZacksRankView.getRankEmoji. rewrite E1, E2, E3, E4, E5. reflexivity.
  - intros other Hin Hcol.
    unfold getZacksRankColor in Hcol at 1.
    destruct (Js.eqb other (js "1")) eqn:E1;
      [ apply Js_facts.eqb_eq in E1; subst other | ];
      [ simpl in Hin; destruct Hin as [<- | [<- | [<- | [<- | [<- | []]]]]];
        try reflexivity; discriminate | ].
    destruct (Js.eqb other (js "2")) eqn:E2;
      [ apply Js_facts.eqb_eq in E2; subst other | ];
      [ simpl in Hin; destruct Hin as [<- | [<- | [<- | [<- | [<- | []]]]]];
        try reflexivity; discriminate | ].
    destruct (Js.eqb other (js "3")) eqn:E3;
      [ apply Js_facts.eqb_eq in E3; subst other | ];
      [ simpl in Hin; destruct Hin as [<- | [<- | [<- | [<- | [<- | []]]]]];
        try reflexivity; discriminate | ].
    destruct (Js.eqb other (js "4")) eqn:E4;
      [ apply Js_facts.eqb_eq in E4; subst other | ];
      [ simpl in Hin; destruct Hin as [<- | [<- | [<- | [<- | [<- | []]]]]];
        try reflexivity; discriminate | ].
    destruct (Js.eqb other (js "5")) eqn:E5;
      [ apply Js_facts.eqb_eq in E5; subst other | ];
      [ simpl in Hin; destruct Hin as [<- | [<- | [<- | [<- | [<- | []]]]]];
        try reflexivity; discriminate | ].
    simpl in Hin. destruct Hin as [<- | [<- | [<- | [<- | [<- | []]]]]];
      discriminate.
Qed.

Lemma rank_colour_and_emoji_witness :
  getZacksRankColor (js "NA") = js "#9E9E9E"
  /\ ZacksRankView.getRankEmoji (js "NA") = [9898].
Proof.
  destruct (rank_colour_and_emoji (js "NA")) as (Hc & He & _).
  split; [ apply Hc | apply He ]; simpl; intuition discriminate.
Defined.
(** ** The loaders of the views *)

(** X25.  The loader of the detail view records a ticker in the recents
    only when its quote was found.  When [getZacksData] returns [null],
    the loader returns [null] and the store is as before.  When it
    returns a quote, the loader returns it and, on a store that holds
    the list [l], has upserted the ticker as given together with the
    name of the search result.  But when the stored value is not JSON
    the upsert throws, and the loader with it, although the quote was
    fetched. *)
Theorem StockDetail_load_records :
  forall (toUpperCase : jsstring -> jsstring) (name symbol : jsstring)
         (w : World) (result : value),
    fst (Api.getZacksData toUpperCase (VString symbol) w) = Ok result ->
    (Value.truthy result = false ->
     ZacksRankView.StockDetail_load toUpperCase name symbol w
     = (Ok result, snd (Api.getZacksData toUpperCase (VString symbol) w))
     /\ storage (snd (ZacksRankView.StockDetail_load toUpperCase name symbol w))
        = storage w)
    /\ (Value.truthy result = true ->
        forall l : list RecentTicker,
          holds w l -> well_formed l ->
          ZacksRankView.StockDetail_load toUpperCase name symbol w
          = (Ok result,
             set_storage
               (insert RECENTS_KEY (stored (upserted symbol name (clock w) l)))
               (snd (Api.getZacksData toUpperCase (VString symbol) w))))
    /\ (Value.truthy result = true ->
        forall (text : jsstring) (e : exn),
          storage w !! RECENTS_KEY = Some text ->
          text <> js "" ->
          JSON.parse text = Throw e ->
          fst (ZacksRankView.StockDetail_load toUpperCase name symbol w)
          = Throw SyntaxError).
Proof.
  intros toUpperCase name symbol w result Hres.
  destruct (Client_frame.getZacksData_world toUpperCase (VString symbol) w)
    as (rs & cs & _ & _ & Hw).
  assert (Hpair : Api.getZacksData toUpperCase (VString symbol) w
                  = (Ok result, Frame.logged rs cs w)).
  { destruct (Api.getZacksData toUpperCase (VString symbol) w) as [o w1].
    cbn [fst snd] in *. subst o w1. reflexivity. }
  rewrite Hw.
  split; [ | split ].
  - intros Hfalse.
    assert (E : ZacksRankView.StockDetail_load toUpperCase name symbol w
                = (Ok result, Frame.logged rs cs w)).
    { unfold ZacksRankView.StockDetail_load, bind at 1.
      rewrite Hpair, Hfalse. reflexivity. }
    rewrite E. split; reflexivity.
  - intros Htrue l Hh Hwf.
    unfold ZacksRankView.StockDetail_load, bind at 1.
    rewrite Hpair, Htrue. unfold bind at 1.
    rewrite (Store_facts.addToRecents_holds (Frame.logged rs cs w) l)
      by (try apply Lookup_facts.holds_logged; assumption).
    reflexivity.
  - intros Htrue text e Hsome Hne Hparse.
    apply Frame_facts.parse_throws in Hparse as He. subst e.
    unfold ZacksRankView.StockDetail_load, bind at 1.
    rewrite Hpair, Htrue. unfold bind at 1.
    unfold ZacksRank.addToRecents, bind at 1, LocalStorage.getItem.
    cbn [storage Frame.logged]. rewrite Hsome.
    unfold bind at 1, parse_stored.
    destruct text as [ | c text ]; [ contradiction | ].
    cbn [Api_format.is_empty]. unfold lift. rewrite Hparse. reflexivity.
Qed.

Lemma StockDetail_load_records_witness :
  ZacksRankView.StockDetail_load ascii_toUpperCase (js "Apple Inc.") (js "AAPL")
    (world_answering (Requests.always apple_response))
  = (Ok (VObject apple_quote),
     set_storage
       (insert RECENTS_KEY (stored [AAPL 1700000000000]))
       (snd (Api.getZacksData ascii_toUpperCase (VString (js "AAPL"))
               (world_answering (Requests.always apple_response))))).
Proof.
  destruct (StockDetail_load_records ascii_toUpperCase (js "Apple Inc.") (js "AAPL")
              (world_answering (Requests.always apple_response))
              (VObject apple_quote)) as (_ & H & _).
  - vm_compute. reflexivity.
  - apply (H eq_refl []).
    + right. split; reflexivity.
    + constructor.
Defined.

(** X26.  The ticker of the quick look-up, which is its argument in
    upper case and trimmed, has no white space at either end.  The
    loader leaves the store as it was when no quote is found; when a
    quote is found it upserts the symbol with the name of the quote, or
    with the symbol itself as the name when the quote has no name or an
    empty one. *)
Theorem QuickLookup_load_records :
  forall (toUpperCase : jsstring -> jsstring) (argument symbol : jsstring)
         (w : World),
    (match QuickLookupView.ticker_of toUpperCase argument with
     | c :: _ => ParseFloat.is_white_space c = false
     | [] => True
     end
     /\ match rev (QuickLookupView.ticker_of toUpperCase argument) with
        | c :: _ => ParseFloat.is_white_space c = false
        | [] => True
        end)
    /\ (forall result : value,
           fst (Api.getZacksData toUpperCase (VString symbol) w) = Ok result ->
           Value.truthy result = false ->
           QuickLookupView.load toUpperCase symbol w
           = (Ok result, snd (Api.getZacksData toUpperCase (VString symbol) w)))
    /\ (forall (props : list (jsstring * value)) (l : list RecentTicker),
           fst (Api.getZacksData toUpperCase (VString symbol) w)
           = Ok (VObject props) ->
           holds w l -> well_formed l ->
           (forall name : jsstring,
               Value.lookup (js "name") props = Some (VString name) ->
               name <> [] ->
               QuickLookupView.load toUpperCase symbol w
               = (Ok (VObject props),
                  set_storage
                    (insert RECENTS_KEY
                       (stored (upserted symbol name (clock w) l)))
                    (snd (Api.getZacksData toUpperCase (VString symbol) w))))
           /\ (Value.lookup (js "name") props = None
               \/ Value.lookup (js "name") props = Some (VString []) ->
               QuickLookupView.load toUpperCase symbol w
               = (Ok (VObject props),
                  set_storage
                    (insert RECENTS_KEY
                       (stored (upserted symbol symbol (clock w) l)))
                    (snd (Api.getZacksData toUpperCase (VString symbol) w))))).
Proof.
  intros toUpperCase argument symbol w.
  split; [ apply Lookup_facts.trim_ends | ].
  destruct (Client_frame.getZacksData_world toUpperCase (VString symbol) w)
    as (rs & cs & _ & _ & Hw).
  assert (Hpair : forall result,
             fst (Api.getZacksData toUpperCase (VString symbol) w) = Ok result ->
             Api.getZacksData toUpperCase (VString symbol) w
             = (Ok result, Frame.logged rs cs w)).
  { intros result Hres.
    destruct (Api.getZacksData toUpperCase (VString symbol) w) as [o w1].
    cbn [fst snd] in *. subst o w1. reflexivity. }
  rewrite Hw.
  split.
  - intros result Hres Hfalse.
    unfold QuickLookupView.load, bind at 1.
    rewrite (Hpair result Hres), Hfalse. reflexivity.
  - intros props l Hres Hh Hwf.
    assert (Hupsert : forall name : jsstring,
               QuickLookupView.addToRecents symbol (VString name)
                 (Frame.logged rs cs w)
               = (Ok tt,
                  set_storage
                    (insert RECENTS_KEY (stored (upserted symbol name (clock w) l)))
                    (Frame.logged rs cs w))).
    { intros name. rewrite Lookup_facts.addToRecents_string.
      apply (Store_facts.addToRecents_holds (Frame.logged rs cs w) l);
        [ apply Lookup_facts.holds_logged | ]; assumption. }
    split.
    + intros name Hname Hne.
      unfold QuickLookupView.load, bind at 1.
      rewrite (Hpair _ Hres). cbn [Value.truthy].
      unfold bind at 1, bind at 1, lift at 1.
      cbn [Value.get]. rewrite Hname.
      destruct name as [ | c name ]; [ contradiction | ].
      cbn [Value.or_else Value.truthy Api_format.is_empty negb].
      rewrite Hupsert. reflexivity.
    + intros Hnone.
      unfold QuickLookupView.load, bind at 1.
      rewrite (Hpair _ Hres). cbn [Value.truthy].
      unfold bind at 1, bind at 1, lift at 1.
      cbn [Value.get].
      destruct Hnone as [-> | ->];
        cbn [Value.or_else Value.truthy Api_format.is_empty negb];
        rewrite Hupsert; reflexivity.
Qed.

Lemma QuickLookup_load_records_witness :
  QuickLookupView.load ascii_toUpperCase (js "AAPL")
    (world_answering (Requests.always apple_response))
  = (Ok (VObject apple_quote),
     set_storage
       (insert RECENTS_KEY (stored [AAPL 1700000000000]))
       (snd (Api.getZacksData ascii_toUpperCase (VString (js "AAPL"))
               (world_answering (Requests.always apple_response))))).
Proof.
  destruct (QuickLookup_load_records ascii_toUpperCase (js " aapl ") (js "AAPL")
              (world_answering (Requests.always apple_response)))
    as (_ & _ & H).
  destruct (H apple_quote []) as (Hname & _).
  - vm_compute. reflexivity.
  - right. split; reflexivity.
  - constructor.
  - apply (Hname (js "Apple Inc.")).
    + reflexivity.
    + discriminate.
Defined.

(** X27.  The loader of the search view returns what [searchTickers]
    returns, on every search text: its own test for the empty text is
    the one [searchTickers] makes, and so the empty text issues no
    request. *)
Theorem SearchZacksRank_load_searches :
  forall (query : jsstring) (w : World),
    ZacksRankView.SearchZacksRank_load query w = Api.searchTickers query w
    /\ (query = [] ->
        ZacksRankView.SearchZacksRank_load query w = (Ok [], w)).
Proof.
  intros query w. unfold ZacksRankView.SearchZacksRank_load, Api.searchTickers.
  split.
  - destruct (Api_format.is_empty query || (List.length query <? 1)%nat);
      reflexivity.
  - intros ->. reflexivity.
Qed.

Lemma SearchZacksRank_load_searches_witness :
  ZacksRankView.SearchZacksRank_load (js "") empty_world = (Ok [], empty_world).
Proof.
  apply (proj2 (SearchZacksRank_load_searches (js "") empty_world)). reflexivity.
Defined.
(** ** The rows of the recents view *)

(** X28.  The accessories of a row end with the time of the entry,
    under the clock icon, and a row without a quote has nothing else.
    A row with a quote has the price first and the change second; the
    change is tagged green exactly when [net_change] starts with a
    numeral whose value is zero or above, and red otherwise, also when
    the change is missing or is no number; the rank follows only when
    the rank is not empty, not ["NA"], and has its text. *)
Theorem getAccessories_shape :
  forall (recent : RecentsView.RecentWithData) (w : World),
    exists ago : jsstring,
      RecentsView.formatTimeAgo
        (Float64.of_Z (timestamp (RecentsView.entry recent))) w
      = (Ok ago, w)
      /\ (RecentsView.zacksData recent = None ->
          RecentsView.getAccessories recent w
          = (Ok [RecentsView.Text ago true], w))
      /\ (forall data : RecentsView.ZacksQuoteData,
             RecentsView.zacksData recent = Some data ->
             exists (colour : RecentsView.colour)
                    (rank : list RecentsView.accessory),
               RecentsView.getAccessories recent w
               = (Ok ([RecentsView.Text
                         (formatCurrency (RecentsView.last data)) false;
                       RecentsView.Tag
                         (formatPercent (RecentsView.percent_net_change data))
                         colour]
                      ++ rank ++ [RecentsView.Text ago true]), w)
               /\ (colour = RecentsView.Green \/ colour = RecentsView.Red)
               /\ (colour = RecentsView.Green
                   <-> Numeral.starts (RecentsView.net_change data) = true
                       /\ Float64.ge_zero
                            (parseFloat (RecentsView.net_change data)) = true)
               /\ (rank = []
                   \/ rank
                      = [RecentsView.Tag
                           (js "Rank " ++ RecentsView.zacks_rank data ++ js " - "
                            ++ RecentsView.zacks_rank_text data)
                           (RecentsView.Code
                              (getZacksRankColor (RecentsView.zacks_rank data)))])
               /\ (rank = []
                   <-> RecentsView.zacks_rank data = []
                       \/ RecentsView.zacks_rank data = js "NA"
                       \/ RecentsView.zacks_rank_text data = [])).
Proof.
  intros recent w.
  destruct (Number_facts.formatTimeAgo_total
              (Float64.of_Z (timestamp (RecentsView.entry recent))) w)
    as (ago & Hago).
  exists ago. split; [ exact Hago | ]. split.
  - intros Hnone. unfold RecentsView.getAccessories, bind.
    rewrite Hnone, Hago. reflexivity.
  - intros data Hsome. unfold RecentsView.getAccessories, bind.
    rewrite Hsome, Hago.
    rewrite ParseFloat_facts.parseFloat_NaN, negb_involutive.
    set (change := RecentsView.net_change data).
    set (rk := RecentsView.zacks_rank data).
    set (rt := RecentsView.zacks_rank_text data).
    exists (if Numeral.starts change && Float64.ge_zero (parseFloat change)
            then RecentsView.Green else RecentsView.Red).
    exists (if negb (Api_format.is_empty rk) && negb (Js.eqb rk (js "NA"))
               && negb (Api_format.is_empty rt)
            then [RecentsView.Tag (js "Rank " ++ rk ++ js " - " ++ rt)
                    (RecentsView.Code (getZacksRankColor rk))]
            else []).
    split; [ | split; [ | split; [ | split ] ] ].
    + destruct (negb (Api_format.is_empty rk) && negb (Js.eqb rk (js "NA"))
                && negb (Api_format.is_empty rt)); reflexivity.
    + destruct (Numeral.starts change && Float64.ge_zero (parseFloat change));
        auto.
    + destruct (Numeral.starts change), (Float64.ge_zero (parseFloat change));
        cbn [andb]; split; intros H; try discriminate; try tauto;
        destruct H; discriminate.
    + destruct (negb (Api_format.is_empty rk) && negb (Js.eqb rk (js "NA"))
                && negb (Api_format.is_empty rt)); auto.
    + destruct rk as [ | c rk' ]; [ cbn; tauto | ].
      destruct rt as [ | c' rt' ];
        [ cbn [Api_format.is_empty negb andb]; rewrite andb_false_r; tauto | ].
      cbn [Api_format.is_empty negb andb]. rewrite andb_true_r.
      destruct (Js.eqb (c :: rk') (js "NA")) eqn:E; cbn [negb].
      * apply Js_facts.eqb_eq in E. tauto.
      * apply Js_facts.eqb_neq in E.
        split; [ discriminate | ].
        intros [H | [H | H]]; [ discriminate | contradiction | discriminate ].
Qed.

Lemma getAccessories_shape_witness :
  exists ago : jsstring,
    RecentsView.formatTimeAgo (Float64.of_Z 1700000000000) empty_world
    = (Ok ago, empty_world)
    /\ RecentsView.getAccessories
         {| RecentsView.entry := AAPL 1700000000000;
            RecentsView.zacksData := None |} empty_world
       = (Ok [RecentsView.Text ago true], empty_world).
Proof.
  destruct (getAccessories_shape
              {| RecentsView.entry := AAPL 1700000000000;
                 RecentsView.zacksData := None |} empty_world)
    as (ago & Hago & Hnone & _).
  exists ago. split; [ exact Hago | ]. apply Hnone. reflexivity.
Defined.
(** ** The recents store: what it depends on *)

(** X29.  What the recents key holds after a history of upserts,
    removals and clearings depends on what it held before and on the
    times of the actions, and on nothing else: not on the other keys of
    the store, the network or the logs, whether or not the actions
    throw.  A clearing forgets all that came before it: the key then
    holds what the actions after the clearing leave on an empty
    store. *)
Theorem recents_depend_on_key :
  forall (h : list (Z * action)) (w1 w2 : World),
    storage w1 !! RECENTS_KEY = storage w2 !! RECENTS_KEY ->
    storage (run h w1) !! RECENTS_KEY = storage (run h w2) !! RECENTS_KEY
    /\ (forall (before : list (Z * action)) (t : Z) (w0 : World),
           storage w0 !! RECENTS_KEY = None ->
           storage (run (before ++ (t, Clear) :: h) w1) !! RECENTS_KEY
           = storage (run h w0) !! RECENTS_KEY).
Proof.
  intros h w1 w2 Hkey. split; [ apply Depend_facts.run_key; exact Hkey | ].
  intros before t w0 Hnone.
  rewrite Depend_facts.run_app. cbn [run].
  apply Depend_facts.run_key. rewrite Hnone.
  cbn [perform]. simpl. apply lookup_delete_eq.
Qed.

Lemma recents_depend_on_key_witness :
  storage
    (run [(1700000000005%Z, Upsert true (js "MSFT") (js "Microsoft"))]
       (set_storage (insert (js "theme") (js "dark")) empty_world))
  !! RECENTS_KEY
  = storage
      (run [(1700000000005%Z, Upsert true (js "MSFT") (js "Microsoft"))]
         empty_world)
    !! RECENTS_KEY.
Proof.
  destruct (recents_depend_on_key
              [(1700000000005%Z, Upsert true (js "MSFT") (js "Microsoft"))]
              (set_storage (insert (js "theme") (js "dark")) empty_world)
              empty_world) as (H & _).
  - simpl. apply lookup_insert_ne. discriminate.
  - exact H.
Defined.
